(** * Analytics Copilot: schema linking, SQL generation, validation loop

    A shallow embedding of the three agent modules of the repository
    ([src/agents/schema_linker.py], [src/agents/sql_generator.py],
    [src/agents/validator.py]) and the properties the specification states
    about them, followed by the two callers of the agents that compute
    something of their own: the evaluation loop and its report
    ([scripts/evaluate.py]) and the choice of a chart for a result
    ([src/utils/viz.py]).

    Conventions.
    - A Python [str] is a Rocq [string]; a character is a code point below
      256.  Whitespace is [str.isspace] on that range, which is also what
      the regular expression class [\s] matches on [str] patterns.
    - A Python [int] is a [Z]; a Python [float] is a primitive binary64
      [float].
    - [session.sql(text)] is the only effect of the agents on the outside
      world.  The SQL texts are fixed templates, so a session is a record
      with one operation per template, each taking the values spliced into
      the text and the state of the outside world, and returning what the
      call returned, or the text of the exception it raised, and the next
      state of the world.  Of what the agents print and warn, the attempt
      number printed at the head of the retry loop is kept. *)

From Stdlib Require Import String Ascii List ZArith Bool Lia Arith.
From Stdlib Require Import Floats.PrimFloat Numbers.Cyclic.Int63.Uint63.
Import ListNotations.

Local Open Scope string_scope.
Local Open Scope bool_scope.

(** ** Python strings *)

Module PyStr.

Definition nl : ascii := "010"%char.
Definition tab : ascii := "009"%char.
Definition backtick : ascii := "`"%char.
Definition semicolon : ascii := ";"%char.
Definition dquote : ascii := "034"%char.

Definition code (c : ascii) : N := N_of_ascii c.

Definition between (lo hi : N) (c : ascii) : bool :=
  (lo <=? code c)%N && (code c <=? hi)%N.

(** [str.isspace] for one character: TAB, LF, VT, FF, CR, FS, GS, RS, US,
    SPACE, NEL and NBSP. *)
Definition is_space (c : ascii) : bool :=
  between 9 13 c || between 28 32 c || (code c =? 133)%N || (code c =? 160)%N.

Definition is_upper_ascii (c : ascii) : bool := between 65 90 c.
Definition is_lower_ascii (c : ascii) : bool := between 97 122 c.
Definition is_digit_ascii (c : ascii) : bool := between 48 57 c.

(** [\w] on [str] patterns: [str.isalnum] or the underscore. *)
Definition is_word (c : ascii) : bool :=
  is_upper_ascii c || is_lower_ascii c || is_digit_ascii c
  || (code c =? 95)%N
  || (code c =? 170)%N || (code c =? 178)%N || (code c =? 179)%N
  || (code c =? 181)%N || (code c =? 185)%N || (code c =? 186)%N
  || between 188 190 c
  || between 192 214 c || between 216 246 c || between 248 255 c.

(** [str.lower] for one character: the upper case letters of ASCII and
    of Latin-1 (the multiplication sign 215 is no letter). *)
Definition lower_char (c : ascii) : ascii :=
  if is_upper_ascii c || between 192 214 c || between 216 222 c
  then ascii_of_N (code c + 32) else c.

Fixpoint lower (s : string) : string :=
  match s with
  | EmptyString => EmptyString
  | String c r => String (lower_char c) (lower r)
  end.

(** [not s]: the empty string is the only falsy string. *)
Definition is_empty (s : string) : bool :=
  match s with EmptyString => true | _ => false end.

Fixpoint lstrip_by (p : ascii -> bool) (s : string) : string :=
  match s with
  | EmptyString => EmptyString
  | String c r => if p c then lstrip_by p r else s
  end.

Fixpoint rstrip_by (p : ascii -> bool) (s : string) : string :=
  match s with
  | EmptyString => EmptyString
  | String c r =>
      let r' := rstrip_by p r in
      if is_empty r' && p c then EmptyString else String c r'
  end.

(** [s.strip()], [s.rstrip(chars)], [s.strip(chars)]. *)
Definition strip (s : string) : string := rstrip_by is_space (lstrip_by is_space s).

Definition in_chars (chars : string) (c : ascii) : bool :=
  existsb (Ascii.eqb c) (list_ascii_of_string chars).

Definition rstrip_chars (chars s : string) : string := rstrip_by (in_chars chars) s.

Definition strip_chars (chars s : string) : string :=
  rstrip_by (in_chars chars) (lstrip_by (in_chars chars) s).

(** [not s or not s.strip()]. *)
Definition blank (s : string) : bool := is_empty s || is_empty (strip s).

Fixpoint startswith (p s : string) : bool :=
  match p, s with
  | EmptyString, _ => true
  | String a p', String b s' => Ascii.eqb a b && startswith p' s'
  | String _ _, EmptyString => false
  end.

(** [p in s]. *)
Fixpoint contains (p s : string) : bool :=
  startswith p s ||
  match s with
  | EmptyString => false
  | String _ r => contains p r
  end.

Fixpoint drop (n : nat) (s : string) : string :=
  match n, s with
  | O, _ => s
  | S k, String _ r => drop k r
  | S _, EmptyString => EmptyString
  end.

Fixpoint take (n : nat) (s : string) : string :=
  match n, s with
  | O, _ => EmptyString
  | S k, String c r => String c (take k r)
  | S _, EmptyString => EmptyString
  end.

(** [s.split(sep)[0]] for a non-empty [sep]: the text before the first
    occurrence of [sep], all of [s] when there is none. *)
Fixpoint before (sep s : string) : string :=
  if startswith sep s then EmptyString
  else match s with
       | EmptyString => EmptyString
       | String c r => String c (before sep r)
       end.

(** [s.split(c)] for a one-character separator. *)
Fixpoint split_on (sep : ascii) (s : string) : list string :=
  match s with
  | EmptyString => [EmptyString]
  | String c r =>
      match split_on sep r with
      | [] => [EmptyString]
      | w :: ws => if Ascii.eqb c sep then EmptyString :: w :: ws
                   else String c w :: ws
      end
  end.

(** [s.split()]: the maximal runs of characters that are not whitespace. *)
Fixpoint split_ws_aux (cur : option string) (s : string) : list string :=
  match s with
  | EmptyString => match cur with Some w => [w] | None => [] end
  | String c r =>
      if is_space c
      then match cur with
           | Some w => w :: split_ws_aux None r
           | None => split_ws_aux None r
           end
      else split_ws_aux
             (Some (match cur with Some w => w ++ String c EmptyString
                                 | None => String c EmptyString end)) r
  end.

Definition split_ws (s : string) : list string := split_ws_aux None s.

Definition str_of (c : ascii) : string := String c EmptyString.

Fixpoint repeat_char (c : ascii) (n : nat) : string :=
  match n with
  | O => EmptyString
  | S k => String c (repeat_char c k)
  end.

Fixpoint all_chars (p : ascii -> bool) (s : string) : bool :=
  match s with
  | EmptyString => true
  | String c r => p c && all_chars p r
  end.

End PyStr.

Import PyStr.

(** ** Regular expressions

    The patterns of [sql_generator.py] as syntax trees, and Python's
    matching of them: a backtracking run that tries the alternatives in
    the order of the pattern, greedy repetitions longest first and lazy
    ones shortest first, and goes back to the last choice when what
    follows fails. *)

Module Re.

Inductive regex : Type :=
| Eps
| Chr (p : ascii -> bool)        (* one character of a class *)
| Seq (a b : regex)              (* ab *)
| Alt (a b : regex)              (* a|b *)
| Opt (a : regex)                (* a? *)
| Star (p : ascii -> bool)       (* c*, greedy, over a class *)
| LazyStar (p : ascii -> bool)   (* c*?, lazy, over a class *)
| Plus (p : ascii -> bool)       (* c+, greedy, over a class *)
| Group (a : regex)              (* (a), group 1 *)
| Boundary.                      (* \b *)

(** Where a run stands: the number of characters matched so far, whether
    the character before is in [\w], and the text of group 1. *)
Record cursor := {
  pos : nat;
  prev_word : bool;
  group1 : option string
}.

Definition advance (c : ascii) (cu : cursor) : cursor :=
  {| pos := S (pos cu); prev_word := is_word c; group1 := group1 cu |}.

Definition head_is_word (s : string) : bool :=
  match s with
  | EmptyString => false
  | String c _ => is_word c
  end.

Section Run.

Context {A : Type}.

(** What is left to match after a subpattern: it gets the cursor and the
    rest of the text, and fails with [None]. *)
Definition continuation : Type := cursor -> string -> option A.

Fixpoint star_greedy (p : ascii -> bool) (cu : cursor) (s : string) (k : continuation)
  : option A :=
  match s with
  | String c r =>
      if p c
      then match star_greedy p (advance c cu) r k with
           | Some x => Some x
           | None => k cu s
           end
      else k cu s
  | EmptyString => k cu s
  end.

Fixpoint star_lazy (p : ascii -> bool) (cu : cursor) (s : string) (k : continuation)
  : option A :=
  match k cu s with
  | Some x => Some x
  | None =>
      match s with
      | String c r => if p c then star_lazy p (advance c cu) r k else None
      | EmptyString => None
      end
  end.

Fixpoint backtrack (r : regex) (cu : cursor) (s : string) (k : continuation) : option A :=
  match r with
  | Eps => k cu s
  | Chr p =>
      match s with
      | String c s' => if p c then k (advance c cu) s' else None
      | EmptyString => None
      end
  | Seq a b => backtrack a cu s (fun cu' s' => backtrack b cu' s' k)
  | Alt a b =>
      match backtrack a cu s k with
      | Some x => Some x
      | None => backtrack b cu s k
      end
  | Opt a =>
      match backtrack a cu s k with
      | Some x => Some x
      | None => k cu s
      end
  | Star p => star_greedy p cu s k
  | LazyStar p => star_lazy p cu s k
  | Plus p =>
      match s with
      | String c s' => if p c then star_greedy p (advance c cu) s' k else None
      | EmptyString => None
      end
  | Group a =>
      backtrack a cu s
          (fun cu' s' =>
             k {| pos := pos cu'; prev_word := prev_word cu';
                  group1 := Some (take (pos cu' - pos cu) s) |} s')
  | Boundary => if xorb (prev_word cu) (head_is_word s) then k cu s else None
  end.

(** [re.search]: the leftmost position at which [f] succeeds. *)
Fixpoint search (f : bool -> string -> option A) (prev : bool) (s : string) : option A :=
  match f prev s with
  | Some x => Some x
  | None =>
      match s with
      | EmptyString => None
      | String c r => search f (is_word c) r
      end
  end.

End Run.

Definition start (prev : bool) : cursor :=
  {| pos := 0; prev_word := prev; group1 := None |}.

(** The match at the head of [s], the character before being in [\w] or
    not: the cursor at its end. *)
Definition match_at (r : regex) (prev : bool) (s : string) : option cursor :=
  backtrack r (start prev) s (fun cu _ => Some cu).

Definition match_length (r : regex) (s : string) : option nat :=
  option_map pos (match_at r false s).

(** [re.search(r, s).group(1)], [None] when there is no match. *)
Definition search_group1 (r : regex) (s : string) : option string :=
  search (fun prev t => match match_at r prev t with
                        | Some cu => Some (match group1 cu with Some g => g | None => "" end)
                        | None => None
                        end) false s.

(** [s[re.search(r, s).start():]], [None] when there is no match. *)
Definition search_from_start (r : regex) (s : string) : option string :=
  search (fun prev t => match match_at r prev t with
                        | Some _ => Some t
                        | None => None
                        end) false s.

(** [re.sub(r, repl, s)] for a pattern that matches no empty string.
    [m t = Some n] says that the pattern matches at the head of [t] and
    that the match has [n] characters.  [skip] counts the characters of
    the current match still to be dropped. *)
Fixpoint re_sub_from (m : string -> option nat) (repl : string)
         (skip : nat) (s : string) : string :=
  match s with
  | EmptyString => EmptyString
  | String c r =>
      match skip with
      | S k => re_sub_from m repl k r
      | O =>
          match m s with
          | Some (S k) => repl ++ re_sub_from m repl k r
          | _ => String c (re_sub_from m repl 0 r)
          end
      end
  end.

Definition re_sub (m : string -> option nat) (repl s : string) : string :=
  re_sub_from m repl 0 s.

(** [re.split(r, s)[0]] for a pattern that matches no empty string: the
    text before the leftmost match. *)
Fixpoint before_match (m : string -> option nat) (s : string) : string :=
  match m s with
  | Some _ => EmptyString
  | None =>
      match s with
      | EmptyString => EmptyString
      | String c r => String c (before_match m r)
      end
  end.

(** Literal text; with IGNORECASE a character matches when the lower
    case forms agree. *)
Definition eqb_nocase (a b : ascii) : bool := Ascii.eqb (lower_char a) (lower_char b).

Fixpoint lit (s : string) : regex :=
  match s with
  | EmptyString => Eps
  | String c r => Seq (Chr (Ascii.eqb c)) (lit r)
  end.

Fixpoint lit_nocase (s : string) : regex :=
  match s with
  | EmptyString => Eps
  | String c r => Seq (Chr (eqb_nocase c)) (lit_nocase r)
  end.

Definition is_hspace (c : ascii) : bool := Ascii.eqb c " "%char || Ascii.eqb c tab.
Definition is_nl (c : ascii) : bool := Ascii.eqb c nl.
Definition any_char (c : ascii) : bool := true.

(** [r'```(?:sql)?\s*(.*?)\s*```'] with DOTALL and IGNORECASE. *)
Definition CODE_FENCE : regex :=
  Seq (lit_nocase "```")
      (Seq (Opt (lit_nocase "sql"))
           (Seq (Star is_space)
                (Seq (Group (LazyStar any_char))
                     (Seq (Star is_space) (lit_nocase "```"))))).

(** [r'\b(SELECT|WITH|INSERT|UPDATE|DELETE)\b'] with IGNORECASE. *)
Definition SQL_START : regex :=
  Seq Boundary
      (Seq (Group (Alt (lit_nocase "SELECT")
                       (Alt (lit_nocase "WITH")
                            (Alt (lit_nocase "INSERT")
                                 (Alt (lit_nocase "UPDATE") (lit_nocase "DELETE"))))))
           Boundary).

(** [r'\n\n[A-Z]']. *)
Definition PARAGRAPH : regex := Seq (Chr is_nl) (Seq (Chr is_nl) (Chr is_upper_ascii)).

(** [r'```(?:sql)?'] with IGNORECASE. *)
Definition FENCE_MARKER : regex := Seq (lit_nocase "```") (Opt (lit_nocase "sql")).

(** [r'[ \t]+']. *)
Definition HSPACE_RUN : regex := Plus is_hspace.

(** [r'\n\s*\n']. *)
Definition BLANK_LINES : regex := Seq (Chr is_nl) (Seq (Star is_space) (Chr is_nl)).

End Re.

Import Re.

(** ** SQL extraction and cleaning ([sql_generator.py]) *)

Definition _clean_sql (sql : string) : string :=
  if is_empty sql then "" else
  let sql := re_sub (match_length FENCE_MARKER) "" sql in
  let sql := strip (rstrip_chars ";" sql) in
  let sql := re_sub (match_length HSPACE_RUN) " " sql in
  let sql := re_sub (match_length BLANK_LINES) (str_of nl) sql in
  strip sql.

Definition _extract_sql (response_text : string) : string :=
  if is_empty response_text then "" else
  let text := strip response_text in
  match search_group1 CODE_FENCE text with
  | Some group1 => _clean_sql (strip group1)
  | None =>
      match search_from_start SQL_START text with
      | Some from_keyword =>
          let sql := strip from_keyword in
          let sql := before_match (match_length PARAGRAPH) sql in
          let sql := before (String nl (String nl "Note:")) sql in
          let sql := before (String nl (String nl "Explanation:")) sql in
          _clean_sql sql
      | None => _clean_sql text
      end
  end.

Definition lines (l : list string) : string := String.concat (str_of nl) l.

Example clean_plain : _clean_sql "SELECT 1" = "SELECT 1".
Proof. reflexivity. Qed.

Example clean_semicolon : _clean_sql "SELECT 1;" = "SELECT 1".
Proof. reflexivity. Qed.

Example clean_layout :
  _clean_sql (lines ["SELECT  a,"; ""; " "; "   b"; "FROM t ;"]) = lines ["SELECT a,"; " b"; "FROM t"].
Proof. vm_compute. reflexivity. Qed.

Example clean_fence_tag : _clean_sql "```SQL select 1 ```" = "select 1".
Proof. vm_compute. reflexivity. Qed.

Example extract_fenced :
  _extract_sql (lines ["Here you go:"; "```sql"; "SELECT 1;"; "```"; "Done."]) = "SELECT 1".
Proof. vm_compute. reflexivity. Qed.

Example extract_unfenced :
  _extract_sql (lines ["Sure. select a from t;"; ""; "This query reads t."]) = "select a from t".
Proof. vm_compute. reflexivity. Qed.

Example sub_fence_in_backticks :
  re_sub (match_length FENCE_MARKER) "" "`````sql` ```SQL" = "``sql` ".
Proof. vm_compute. reflexivity. Qed.

Example sub_blank_lines :
  re_sub (match_length BLANK_LINES) (str_of nl) (lines ["a"; " "; ""; " b"; "c"])
  = lines ["a"; " b"; "c"].
Proof. vm_compute. reflexivity. Qed.

Example search_first_fence :
  search_group1 CODE_FENCE (lines ["```sql"; "SELECT 1"; "``` or ```SELECT 2```"])
  = Some "SELECT 1".
Proof. vm_compute. reflexivity. Qed.

(** A word that only holds a keyword does not start the statement. *)
Example extract_word_boundary :
  _extract_sql "Preselected rows: delete from t" = "delete from t".
Proof. vm_compute. reflexivity. Qed.

(** ** Quoting into SQL ([sql_generator.py], [schema_linker.py]) *)

Definition quote : ascii := "'"%char.

(** [s.replace(old, new)] for a non-empty [old]: the occurrences are
    taken from left to right and do not overlap. *)
Definition replace (old new s : string) : string :=
  re_sub (fun t => if startswith old t then Some (String.length old) else None) new s.

(** [text.replace("'", "''")]; both agents define it with the same body. *)
Definition _escape_sql_string (text : string) : string :=
  replace (str_of quote) (String quote (str_of quote)) text.

Example escape_question :
  _escape_sql_string "What's the total revenue?" = "What''s the total revenue?".
Proof. reflexivity. Qed.

(** ** Data model *)

Set Warnings "-inexact-float".

Record ColumnDescriptor := {
  column_name : string;
  description : string;
  data_type : string;
  synonyms : string
}.

Record TableContext := {
  table_name : string;
  columns : list ColumnDescriptor;
  relevance_score : float
}.

Definition SchemaContext := list TableContext.

Record GoldenExample := { example_question : string; example_sql : string }.

(** What a call of [session.sql(...)] and of what is chained on it gives:
    the value returned, or the text [str(e)] of the exception raised. *)
Inductive Outcome (A : Type) : Type :=
| Raised (msg : string)
| Returned (a : A).

Arguments Raised {A} msg.
Arguments Returned {A} a.

(** One element of the [results] array of a search response; a field is
    [None] when the JSON object has no such key. *)
Record SearchHit := {
  hit_table_name : option string;
  hit_column_name : option string;
  hit_description : option string;
  hit_data_type : option string;
  hit_synonyms : option string;
  hit_score : option float
}.

(** The parsed [SEARCH_RESULTS] column of one row: the [results] array,
    [None] when the response has no [results] key. *)
Definition SearchDocument := option (list SearchHit).

(** A row of [METADATA.TABLE_DESCRIPTIONS]; [None] is SQL NULL. *)
Record DescriptionRow := {
  TABLE_NAME : string;
  COLUMN_NAME : string;
  DESCRIPTION : option string;
  DATA_TYPE : option string;
  SYNONYMS : option string
}.

(** A row of the keyword query: the matching description row and the
    window count of matching rows of its table. *)
Record KeywordRow := { matched : DescriptionRow; MATCH_COUNT : Z }.

(** A row of [INFORMATION_SCHEMA.COLUMNS]. *)
Record CatalogRow := {
  CATALOG_TABLE_NAME : string;
  CATALOG_COLUMN_NAME : string;
  CATALOG_DATA_TYPE : string
}.

(** The session: one operation for each SQL text the agents build. *)
Record Session (World DataFrame : Type) := {
  (** [SEARCH_PREVIEW('SCHEMA_SEARCH_SERVICE', {query, columns, limit})],
      collected and parsed; an exception of the parsing or of the
      grouping that follows is an exception of this operation. *)
  search_preview : string -> Z -> World -> Outcome (list SearchDocument) * World;
  (** The ILIKE query over the description table: keywords and LIMIT. *)
  keyword_query : list string -> Z -> World -> Outcome (list KeywordRow) * World;
  (** Description rows [WHERE table_name IN (names)]. *)
  descriptions_of : list string -> World -> Outcome (list DescriptionRow) * World;
  (** Catalog rows of schema RAW [AND table_name IN (names)]. *)
  catalog_columns_of : list string -> World -> Outcome (list CatalogRow) * World;
  (** Catalog rows of schema RAW. *)
  catalog_columns : World -> Outcome (list CatalogRow) * World;
  (** [CORTEX.COMPLETE('llama3.1-70b', prompt)], collected: the
      [GENERATED_SQL] column of each row. *)
  cortex_complete : string -> World -> Outcome (list (option string)) * World;
  (** [session.sql("EXPLAIN " + sql).collect()]. *)
  explain : string -> World -> Outcome unit * World;
  (** [session.sql(sql)]: the lazy data frame. *)
  run : string -> World -> Outcome DataFrame * World
}.

Arguments search_preview {World DataFrame}.
Arguments keyword_query {World DataFrame}.
Arguments descriptions_of {World DataFrame}.
Arguments catalog_columns_of {World DataFrame}.
Arguments catalog_columns {World DataFrame}.
Arguments cortex_complete {World DataFrame}.
Arguments explain {World DataFrame}.
Arguments run {World DataFrame}.

(** What an agent does that can be seen from outside, in order. *)
Inductive Event : Type :=
| Search (question : string) (search_limit : Z)
| KeywordSearch (keywords : list string) (row_limit : Z)
| FetchDescriptions (names : list string)
| FetchCatalog (names : list string)
| FullCatalog
| Complete (prompt : string)
| Explain (sql : string)
| Run (sql : string)
| PrintAttempt (attempt_num : Z).

Abbreviation Trace := (list Event).

(** ** The monad of the agents: the world and the trace *)

Module Agent.

Definition M (World A : Type) : Type := World * Trace -> A * (World * Trace).

Definition ret {World A} (a : A) : M World A := fun s => (a, s).

Definition bind {World A B} (c : M World A) (k : A -> M World B) : M World B :=
  fun s => let (a, s') := c s in k a s'.

Definition call {World A} (e : Event) (op : World -> A * World) : M World A :=
  fun s => let (a, w') := op (fst s) in (a, (w', (snd s ++ [e])%list)).

Definition emit {World} (e : Event) : M World unit :=
  fun s => (tt, (fst s, (snd s ++ [e])%list)).

Definition run_from {World A} (c : M World A) (w : World) : A * (World * Trace) :=
  c (w, []).

Definition result_of {World A} (c : M World A) (w : World) : A := fst (run_from c w).
Definition trace_of {World A} (c : M World A) (w : World) : Trace := snd (snd (run_from c w)).

End Agent.

Import Agent.

Declare Scope agent_scope.
Delimit Scope agent_scope with agent.
Notation "x <- c ;; k" := (bind c (fun x => k))
  (at level 61, c at next level, right associativity) : agent_scope.
Notation "c ;;; k" := (bind c (fun _ => k))
  (at level 61, right associativity) : agent_scope.

(** ** Containers *)

Definition is_nil {A} (l : list A) : bool :=
  match l with [] => true | _ => false end.

Definition mem (x : string) (l : list string) : bool := existsb (String.eqb x) l.

Definition or_default (d : string) (v : option string) : string :=
  match v with Some s => s | None => d end.

(** [v or '']: NULL and the empty string both give the empty string. *)
Definition or_empty (v : option string) : string := or_default "" v.

(** A [dict] keyed by table name, in insertion order.
    [if k not in d: d[k] = init] followed by [d[k] = f(d[k])]. *)
Fixpoint upsert {V} (k : string) (init : V) (f : V -> V) (d : list (string * V))
  : list (string * V) :=
  match d with
  | [] => [(k, f init)]
  | (k', v) :: d' =>
      if String.eqb k k' then (k', f v) :: d' else (k', v) :: upsert k init f d'
  end.

(** A stable sort in descending order of the key, as [sort] and [sorted]
    with [reverse=True]: elements with equal keys keep their order. *)
Fixpoint insert_desc {A K} (ltb : K -> K -> bool) (key : A -> K) (x : A) (l : list A)
  : list A :=
  match l with
  | [] => [x]
  | y :: l' => if ltb (key x) (key y) then y :: insert_desc ltb key x l' else x :: l
  end.

Definition sort_desc {A K} (ltb : K -> K -> bool) (key : A -> K) (l : list A) : list A :=
  fold_right (insert_desc ltb key) [] l.

(** [l[:n]] for [n >= 0]. *)
Definition slice_to {A} (n : Z) (l : list A) : list A := firstn (Z.to_nat n) l.

(** [float(n)] for a length. *)
Definition float_of_nat (n : nat) : float :=
  PrimFloat.of_uint63 (Uint63.of_Z (Z.of_nat n)).

(** [sum(scores) / len(scores) if scores else 0.0], the sum taken from
    left to right. *)
Definition mean (scores : list float) : float :=
  match scores with
  | [] => 0%float
  | _ => PrimFloat.div (fold_left PrimFloat.add scores 0%float)
                       (float_of_nat (length scores))
  end.

Local Open Scope agent_scope.

Section Agents.

Variables World DataFrame : Type.

Local Abbreviation Session := (Session World DataFrame).
Local Abbreviation M := (M World).

(** ** SQL generator ([sql_generator.py]) *)

(** The prompt is a fixed template filled with the question, the schema
    context and the examples; the agents do not look at its text, they
    quote it into the completion query. *)
Variable _build_prompt : string -> SchemaContext -> list GoldenExample -> string.

Definition generate_sql (session : Session) (question : string)
           (schema_context : SchemaContext) (golden_examples : list GoldenExample)
  : M string :=
  if blank question then ret ""
  else if is_nil schema_context then ret ""
  else
    let prompt := _build_prompt question schema_context golden_examples in
    result <- call (Complete prompt) (cortex_complete session prompt) ;;
    ret match result with
        | Raised _ => ""
        | Returned [] => ""
        | Returned (None :: _) => ""
        | Returned (Some generated_text :: _) =>
            if blank generated_text then ""
            else
              let sql_query := _extract_sql generated_text in
              if blank sql_query then "" else sql_query
        end.

(** ** Schema linker ([schema_linker.py]) *)

Definition EXCLUDED_TABLE : string := "SUPERSTORE_SALES".

Definition _filter_dataset_mixing (tables : SchemaContext) : SchemaContext :=
  filter (fun t => negb (String.eqb (table_name t) EXCLUDED_TABLE)) tables.

Definition FK_PARTNERS : list (string * list string) :=
  [ ("ORDER_ITEMS", ["ORDERS"]);
    ("ORDER_REVIEWS", ["ORDERS"]);
    ("ORDER_PAYMENTS", ["ORDERS"]);
    ("ORDERS", ["CUSTOMERS"]) ].

(** [FK_PARTNERS.get(name, [])]. *)
Definition fk_partners (name : string) : list string :=
  match find (fun kv => String.eqb name (fst kv)) FK_PARTNERS with
  | Some kv => snd kv
  | None => []
  end.

(** [needed.add(partner)] on a set kept as a list without repetition, in
    the order of the additions. *)
Definition set_add (x : string) (s : list string) : list string :=
  if mem x s then s else (s ++ [x])%list.

(** The grouping loop of the by-name and full-catalog queries: one
    table per name, in the order the names first occur, with the
    columns in row order. *)
Definition group_columns (score : float) (rows : list (string * ColumnDescriptor))
  : SchemaContext :=
  map (fun kv => {| table_name := fst kv; columns := snd kv; relevance_score := score |})
      (fold_left (fun d row => upsert (fst row) [] (fun cols => (cols ++ [snd row])%list) d)
                 rows []).

Definition described_column (row : DescriptionRow) : string * ColumnDescriptor :=
  (TABLE_NAME row,
   {| column_name := COLUMN_NAME row;
      description := or_empty (DESCRIPTION row);
      data_type := or_empty (DATA_TYPE row);
      synonyms := or_empty (SYNONYMS row) |}).

Definition catalog_column (row : CatalogRow) : string * ColumnDescriptor :=
  (CATALOG_TABLE_NAME row,
   {| column_name := CATALOG_COLUMN_NAME row;
      description := "";
      data_type := CATALOG_DATA_TYPE row;
      synonyms := "" |}).

Definition _fetch_tables_by_name (session : Session) (table_names : list string)
  : M SchemaContext :=
  if is_nil table_names then ret []
  else
    described <- call (FetchDescriptions table_names)
                      (descriptions_of session table_names) ;;
    match described with
    | Returned (row :: rows) =>
        ret (group_columns 0.4 (map described_column (row :: rows)))
    | _ =>
        raw <- call (FetchCatalog table_names)
                    (catalog_columns_of session table_names) ;;
        match raw with
        | Returned rows => ret (group_columns 0.3 (map catalog_column rows))
        | Raised _ => ret []
        end
    end.

Definition needed_partners (tables : SchemaContext) : list string :=
  let current_names := map table_name tables in
  fold_left
    (fun needed table =>
       fold_left
         (fun needed partner =>
            if mem partner current_names then needed else set_add partner needed)
         (fk_partners (table_name table)) needed)
    tables [].

Definition _supplement_related_tables (session : Session) (tables : SchemaContext)
           (limit : Z) : M SchemaContext :=
  let needed := needed_partners tables in
  if is_nil needed then ret tables
  else
    partner_tables <- _fetch_tables_by_name session needed ;;
    ret (tables ++ partner_tables)%list.

Definition _get_all_tables (session : Session) (limit : Z) : M SchemaContext :=
  raw <- call FullCatalog (catalog_columns session) ;;
  match raw with
  | Returned rows => ret (slice_to limit (group_columns 0.1 (map catalog_column rows)))
  | Raised _ => ret []
  end.

Definition _STOPWORDS : list string :=
  [ "what"; "which"; "where"; "when"; "who"; "how"; "many"; "much";
    "have"; "been"; "that"; "this"; "with"; "from"; "they"; "each";
    "highest"; "lowest"; "average"; "total"; "count"; "find"; "show";
    "list"; "give"; "most"; "least"; "more"; "than"; "over"; "last";
    "first"; "were"; "does"; "also"; "into"; "some"; "only"; "their";
    "there"; "these"; "those"; "very"; "just"; "been"; "will"; "would";
    "could"; "should"; "across"; "between"; "within"; "using"; "based" ].

Definition longer_than_3 (w : string) : bool := (3 <? String.length w)%nat.

(** The keywords spliced into the ILIKE conditions: [keywords[:10]]. *)
Definition keywords_of (question : string) : list string :=
  let raw_words :=
    map (strip_chars (String "'"%char (String dquote "?,")))
        (split_ws (lower question)) in
  let keywords :=
    filter (fun w => longer_than_3 w && negb (mem w _STOPWORDS)) raw_words in
  let keywords := if is_nil keywords then filter longer_than_3 raw_words else keywords in
  let keywords := if is_nil keywords then raw_words else keywords in
  firstn 10 keywords.

(** An entry of [tables_dict] in the keyword tier. *)
Record KeywordEntry := { kw_columns : list ColumnDescriptor; _match_count : Z }.

Definition keyword_tables (rows : list KeywordRow) : list (string * KeywordEntry) :=
  fold_left
    (fun d row =>
       upsert (TABLE_NAME (matched row))
              {| kw_columns := []; _match_count := MATCH_COUNT row |}
              (fun e => {| kw_columns := (kw_columns e ++ [snd (described_column (matched row))])%list;
                           _match_count := _match_count e |})
              d)
    rows [].

Definition keyword_context (kv : string * KeywordEntry) : TableContext :=
  {| table_name := fst kv; columns := kw_columns (snd kv); relevance_score := 0.5 |}.

Definition _fallback_keyword_search (session : Session) (question : string) (limit : Z)
  : M SchemaContext :=
  let keywords := keywords_of question in
  found <- call (KeywordSearch keywords (limit * 15))
                (keyword_query session keywords (limit * 15)) ;;
  match found with
  | Raised _ => _get_all_tables session limit
  | Returned [] => _get_all_tables session limit
  | Returned rows =>
      let tables_list :=
        map keyword_context
            (sort_desc Z.ltb (fun kv => _match_count (snd kv)) (keyword_tables rows)) in
      let result := slice_to limit tables_list in
      let result := _filter_dataset_mixing result in
      _supplement_related_tables session result limit
  end.

(** An entry of [tables_dict] in the semantic tier. *)
Record SearchEntry := { se_columns : list ColumnDescriptor; relevance_scores : list float }.

Definition search_tables (results : list SearchHit) : list (string * SearchEntry) :=
  fold_left
    (fun d item =>
       upsert (or_default "UNKNOWN" (hit_table_name item))
              {| se_columns := []; relevance_scores := [] |}
              (fun e =>
                 {| se_columns :=
                      (se_columns e ++
                       [ {| column_name := or_default "UNKNOWN" (hit_column_name item);
                            description := or_default "" (hit_description item);
                            data_type := or_default "UNKNOWN" (hit_data_type item);
                            synonyms := or_default "" (hit_synonyms item) |} ])%list;
                    relevance_scores :=
                      (relevance_scores e ++
                       [ match hit_score item with Some x => x | None => 0%float end ])%list |})
              d)
    results [].

Definition search_context (kv : string * SearchEntry) : TableContext :=
  {| table_name := fst kv;
     columns := se_columns (snd kv);
     relevance_score := mean (relevance_scores (snd kv)) |}.

Definition link_schema (session : Session) (question : string) (limit : Z)
  : M SchemaContext :=
  if blank question then ret []
  else
    let limit := if (limit <? 1)%Z then 5%Z else limit in
    let search_limit := (limit * 10)%Z in
    result <- call (Search question search_limit)
                   (search_preview session question search_limit) ;;
    match result with
    | Returned [] => ret []
    | Returned (None :: _) => ret []
    | Returned (Some [] :: _) => ret []
    | Returned (Some results :: _) =>
        let tables_list :=
          sort_desc PrimFloat.ltb relevance_score
                    (map search_context (search_tables results)) in
        let tables_list := _filter_dataset_mixing tables_list in
        ret (slice_to limit tables_list)
    | Raised error_msg =>
        let m := lower error_msg in
        if contains "does not exist" m && contains "schema_search_service" m
        then _fallback_keyword_search session question limit
        else if contains "table_descriptions" m
        then ret []
        else _fallback_keyword_search session question limit
    end.

(** ** Validator ([validator.py]) *)

Definition error_prefixes : list string := ["Error: "; "SnowflakeError: "; "Exception: "].

Definition _extract_error_message (error_text : string) : string :=
  if is_empty error_text then "Unknown error (empty error message)"
  else
    let lines := split_on nl error_text in
    match find (fun line => contains "error" (lower line)) lines with
    | Some line =>
        fold_left
          (fun cleaned prefix =>
             if startswith prefix cleaned
             then drop (String.length prefix) cleaned else cleaned)
          error_prefixes (strip line)
    | None =>
        match find (fun line => negb (is_empty (strip line))) lines with
        | Some line => strip line
        | None => strip (take 200 error_text)
        end
    end.

(** The pair [(is_valid, error_message)]: [None] stands for [(True, None)],
    [Some e] for [(False, e)]. *)
Definition _validate_sql (session : Session) (sql : string) : M (option string) :=
  explained <- call (Explain sql) (explain session sql) ;;
  ret match explained with
      | Returned _ => None
      | Raised e => Some (_extract_error_message e)
      end.

(** The pair [(result_df, error_message)]: [inl df] stands for
    [(df, None)], [inr e] for [(None, e)]. *)
Definition _execute_sql (session : Session) (sql : string) : M (DataFrame + string) :=
  ran <- call (Run sql) (run session sql) ;;
  ret match ran with
      | Returned result_df => inl result_df
      | Raised e => inr (_extract_error_message e)
      end.

Definition enriched_question (question error_message previous_sql : string) : string :=
  lines
    [ question;
      "";
      "PREVIOUS ATTEMPT FAILED WITH ERROR:";
      error_message;
      "";
      "FAILED SQL QUERY:";
      previous_sql;
      "";
      "Please fix the SQL query to avoid this error. Review the schema carefully and ensure:";
      "- All table names are correct and exist in the schema";
      "- All column names are correct and exist in their respective tables";
      "- Column references are properly qualified with table names in JOINs";
      "- Data types are compatible in comparisons and operations";
      "- Aggregation functions are used correctly";
      "- JOIN conditions reference valid foreign key relationships";
      "" ].

Definition _retry_with_error_feedback (session : Session) (question : string)
           (schema_context : SchemaContext) (error_message previous_sql : string)
  : M string :=
  new_sql <- generate_sql session
                          (enriched_question question error_message previous_sql)
                          schema_context [] ;;
  ret (if blank new_sql then previous_sql else new_sql).

Record RetryState := {
  attempt : Z;
  last_error : option string;
  current_sql : string
}.

Inductive ExecutionOutcome : Type :=
| Success (rows : DataFrame)
| Failure (message : string).

(** What one pass through the body of the [while] loop ends in: the
    state of the next pass, or the value returned. *)
Inductive Step : Type :=
| Continue (st : RetryState)
| Return (final_sql : string) (result : ExecutionOutcome).

Definition iteration (session : Session) (question : string)
           (schema_context : SchemaContext) (max_retries : Z) (st : RetryState)
  : M Step :=
  emit (PrintAttempt (attempt st + 1)) ;;;
  validated <- _validate_sql session (current_sql st) ;;
  match validated with
  | None =>
      executed <- _execute_sql session (current_sql st) ;;
      match executed with
      | inl result_df => ret (Return (current_sql st) (Success result_df))
      | inr exec_error =>
          let last_error := "Execution error: " ++ exec_error in
          if (attempt st <? max_retries)%Z then
            new_sql <- _retry_with_error_feedback session question schema_context
                                                  exec_error (current_sql st) ;;
            ret (Continue {| attempt := attempt st + 1;
                             last_error := Some last_error;
                             current_sql := new_sql |})
          else ret (Return (current_sql st) (Failure last_error))
      end
  | Some error_message =>
      if (attempt st <? max_retries)%Z then
        new_sql <- _retry_with_error_feedback session question schema_context
                                              error_message (current_sql st) ;;
        ret (Continue {| attempt := attempt st + 1;
                         last_error := Some error_message;
                         current_sql := new_sql |})
      else ret (Return (current_sql st) (Failure error_message))
  end.

(** [last_error or "Unknown error occurred during validation"]. *)
Definition error_or_unknown (last_error : option string) : string :=
  match last_error with
  | Some e => if is_empty e then "Unknown error occurred during validation" else e
  | None => "Unknown error occurred during validation"
  end.

(** The [while attempt <= max_retries] loop, run for at most [fuel]
    passes; [None] when the passes allowed do not reach a [return]. *)
Fixpoint retry_loop (fuel : nat) (session : Session) (question : string)
         (schema_context : SchemaContext) (max_retries : Z) (st : RetryState)
  : M (option (string * ExecutionOutcome)) :=
  if (attempt st <=? max_retries)%Z then
    match fuel with
    | O => ret None
    | S fuel' =>
        step <- iteration session question schema_context max_retries st ;;
        match step with
        | Continue st' => retry_loop fuel' session question schema_context max_retries st'
        | Return final_sql result => ret (Some (final_sql, result))
        end
    end
  else ret (Some (current_sql st, Failure (error_or_unknown (last_error st)))).

Definition empty_sql_message : string :=
  "Empty SQL query provided to validator. Cannot validate empty query.".

Definition initial_state (sql : string) : RetryState :=
  {| attempt := 0; last_error := None; current_sql := sql |}.

Definition validate_and_execute (session : Session) (sql question : string)
           (schema_context : SchemaContext) (max_retries : Z)
  : M (option (string * ExecutionOutcome)) :=
  if blank sql then ret (Some (sql, Failure empty_sql_message))
  else
    let max_retries := if (max_retries <? 0)%Z then 0%Z else max_retries in
    retry_loop (S (Z.to_nat max_retries)) session question schema_context max_retries
               (initial_state sql).

End Agents.

Arguments generate_sql {World DataFrame}.
Arguments _fetch_tables_by_name {World DataFrame}.
Arguments _supplement_related_tables {World DataFrame}.
Arguments _get_all_tables {World DataFrame}.
Arguments _fallback_keyword_search {World DataFrame}.
Arguments link_schema {World DataFrame}.
Arguments _validate_sql {World DataFrame}.
Arguments _execute_sql {World DataFrame}.
Arguments _retry_with_error_feedback {World DataFrame}.
Arguments Success {DataFrame}.
Arguments Failure {DataFrame}.
Arguments Continue {DataFrame}.
Arguments Return {DataFrame}.
Arguments iteration {World DataFrame}.
Arguments retry_loop {World DataFrame}.
Arguments validate_and_execute {World DataFrame}.

(** ** Evaluation script ([scripts/evaluate.py])

    The pipeline as its caller runs it, one golden query after the
    other, and the report computed from the results. *)

Module Evaluate.

(** A golden query; a field is [None] when the object has no such key
    ([question] and [difficulty] are read without a default). *)
Record GoldenQuery := {
  query_id : option Z;
  query_question : string;
  query_sql_query : option string;
  query_difficulty : string;
  query_tables_used : option string
}.

Record Result := {
  id : Z;
  question : string;
  expected_sql : string;
  difficulty : string;
  tables_used : string;
  generated_sql : string;
  success : bool;
  latency_seconds : float;
  error_message : option string;
  schema_context : list (string * float)
}.

Definition no_tables_message : string := "Schema linker found no relevant tables".
Definition no_sql_message : string := "SQL generator returned empty query".

Section Questions.

Variables World DataFrame : Type.
Variable _build_prompt : string -> SchemaContext -> list GoldenExample -> string.

(** [time.time()]: the clock is read off the world. *)
Variable time_time : World -> float * World.

Definition now : M World float :=
  fun s => let (seconds, w') := time_time (fst s) in (seconds, (w', snd s)).

(** The result dictionary with the fields set after it was created. *)
Definition recorded (i : Z) (query : GoldenQuery) (linked : SchemaContext)
           (sql : string) (ok : bool) (latency : float) (error : option string) : Result :=
  {| id := match query_id query with Some x => x | None => i end;
     question := query_question query;
     expected_sql := or_empty (query_sql_query query);
     difficulty := query_difficulty query;
     tables_used := or_empty (query_tables_used query);
     generated_sql := sql;
     success := ok;
     latency_seconds := latency;
     error_message := error;
     schema_context := map (fun t => (table_name t, relevance_score t)) linked |}.

(** The body of the loop for the [i]-th query.  The last case stands for
    the [except] branch; the calls before it raise nothing and the
    validator always returns, so it is not reached. *)
Definition evaluate_question (session : Session World DataFrame) (i : Z)
           (query : GoldenQuery) : M World Result :=
  start_time <- now ;;
  linked <- link_schema session (query_question query) 5 ;;
  if is_nil linked then
    end_time <- now ;;
    ret (recorded i query [] "" false (PrimFloat.sub end_time start_time)
                  (Some no_tables_message))
  else
    sql <- generate_sql _build_prompt session (query_question query) linked [] ;;
    if blank sql then
      end_time <- now ;;
      ret (recorded i query linked "" false (PrimFloat.sub end_time start_time)
                    (Some no_sql_message))
    else
      validated <- validate_and_execute _build_prompt session sql
                                        (query_question query) linked 3 ;;
      end_time <- now ;;
      ret match validated with
          | Some (final_sql, Failure execution_result) =>
              recorded i query linked final_sql false (PrimFloat.sub end_time start_time)
                       (Some execution_result)
          | Some (final_sql, Success _) =>
              recorded i query linked final_sql true (PrimFloat.sub end_time start_time) None
          | None =>
              recorded i query linked sql false (PrimFloat.sub end_time start_time)
                       (Some "Unexpected error: ")
          end.

(** [for i, query in enumerate(golden_queries, i)]. *)
Fixpoint evaluate_from (session : Session World DataFrame) (i : Z)
         (golden_queries : list GoldenQuery) : M World (list Result) :=
  match golden_queries with
  | [] => ret []
  | query :: rest =>
      result <- evaluate_question session i query ;;
      results <- evaluate_from session (i + 1) rest ;;
      ret (result :: results)
  end.

Definition evaluate_questions (session : Session World DataFrame)
           (golden_queries : list GoldenQuery) : M World (list Result) :=
  evaluate_from session 1 golden_queries.

End Questions.

Arguments now {World}.
Arguments evaluate_question {World DataFrame}.
Arguments evaluate_from {World DataFrame}.
Arguments evaluate_questions {World DataFrame}.

(** *** The report *)

Record DifficultyMetrics := {
  total : nat;
  successful : nat;
  failed : nat;
  accuracy : float;
  difficulty_latency : float
}.

Record FailedQuery := {
  failed_id : Z;
  failed_question : string;
  failed_difficulty : string;
  failed_error_message : option string;
  failed_generated_sql : string
}.

Record Metrics := {
  total_questions : nat;
  successful_questions : nat;
  failed_questions : nat;
  execution_accuracy : float;
  average_latency : float;
  by_difficulty : list (string * DifficultyMetrics);
  failed_queries : list FailedQuery
}.

Definition DIFFICULTIES : list string := ["easy"; "medium"; "hard"].

(** [sum(1 for r in results if r['success'])]. *)
Definition count_successful (results : list Result) : nat :=
  length (filter success results).

(** [r['generated_sql'][:200] + '...' if len(r['generated_sql']) > 200
    else r['generated_sql']]. *)
Definition shortened (sql : string) : string :=
  if (200 <? String.length sql)%nat then take 200 sql ++ "..." else sql.

Section Report.

(** [sum] over the latencies. *)
Variable float_sum : list float -> float.

(** [(successful / total * 100) if total > 0 else 0.0]. *)
Definition percentage (part whole : nat) : float :=
  if (0 <? whole)%nat
  then PrimFloat.mul (PrimFloat.div (float_of_nat part) (float_of_nat whole)) 100
  else 0%float.

(** [sum(latencies) / total if total > 0 else 0.0]. *)
Definition mean_latency (results : list Result) : float :=
  if (0 <? length results)%nat
  then PrimFloat.div (float_sum (map latency_seconds results)) (float_of_nat (length results))
  else 0%float.

Definition difficulty_metrics (results : list Result) (level : string)
  : list (string * DifficultyMetrics) :=
  let difficulty_results := filter (fun r => String.eqb (difficulty r) level) results in
  if is_nil difficulty_results then []
  else
    let diff_total := length difficulty_results in
    let diff_successful := count_successful difficulty_results in
    [ (level,
       {| total := diff_total;
          successful := diff_successful;
          failed := diff_total - diff_successful;
          accuracy := percentage diff_successful diff_total;
          difficulty_latency := mean_latency difficulty_results |}) ].

Definition calculate_metrics (results : list Result) : Metrics :=
  let total := length results in
  let successful := count_successful results in
  {| total_questions := total;
     successful_questions := successful;
     failed_questions := total - successful;
     execution_accuracy := percentage successful total;
     average_latency := mean_latency results;
     by_difficulty := flat_map (difficulty_metrics results) DIFFICULTIES;
     failed_queries :=
       map (fun r => {| failed_id := id r;
                        failed_question := question r;
                        failed_difficulty := difficulty r;
                        failed_error_message := error_message r;
                        failed_generated_sql := shortened (generated_sql r) |})
           (filter (fun r => negb (success r)) results) |}.

End Report.

End Evaluate.

(** ** Automatic charts ([utils/viz.py])

    A data frame is seen through what [auto_chart] asks of it: the
    number of rows, and for every column its label, the answers of the
    two dtype tests and its cells ([None] is a missing value).  The
    labels are taken to be distinct, so that [df[col]] is one column.  A
    chart is the description handed to the plotting library. *)

Module Viz.

Record Series := {
  label : string;
  is_datetime64_any_dtype : bool;
  is_numeric_dtype : bool;
  cells : list (option string)
}.

Record Frame := {
  index_length : nat;
  series : list Series
}.

Inductive Mark := mark_line | mark_bar | mark_point.

Record Chart := {
  data : Frame;
  mark : Mark;
  x : string;
  y : string;
  y_sorted_by_x : bool;
  tooltip : list string;
  title : string
}.

Record ColumnTypes := {
  datetime : list string;
  numeric : list string;
  categorical : list string
}.

Definition _detect_column_types (df : Frame) : ColumnTypes :=
  fold_left
    (fun column_types col =>
       if is_datetime64_any_dtype col then
         {| datetime := (datetime column_types ++ [label col])%list;
            numeric := numeric column_types;
            categorical := categorical column_types |}
       else if is_numeric_dtype col then
         {| datetime := datetime column_types;
            numeric := (numeric column_types ++ [label col])%list;
            categorical := categorical column_types |}
       else
         {| datetime := datetime column_types;
            numeric := numeric column_types;
            categorical := (categorical column_types ++ [label col])%list |})
    (series df)
    {| datetime := []; numeric := []; categorical := [] |}.

(** [df.empty]: no column or no row. *)
Definition empty (df : Frame) : bool :=
  is_nil (series df) || (index_length df =? 0)%nat.

(** [df.head(n)]. *)
Definition head (n : nat) (df : Frame) : Frame :=
  {| index_length := Nat.min n (index_length df);
     series := map (fun col =>
                      {| label := label col;
                         is_datetime64_any_dtype := is_datetime64_any_dtype col;
                         is_numeric_dtype := is_numeric_dtype col;
                         cells := firstn n (cells col) |})
                   (series df) |}.

(** [s.endswith(suffix)] and [s.endswith(tuple)]. *)
Fixpoint endswith (suffix s : string) : bool :=
  String.eqb suffix s ||
  match s with
  | EmptyString => false
  | String _ r => endswith suffix r
  end.

Definition endswith_any (suffixes : list string) (s : string) : bool :=
  existsb (fun suffix => endswith suffix s) suffixes.

Definition _AGG_SUFFIXES : list string :=
  ["_count"; "_total"; "_sum"; "_avg"; "_revenue"; "_score"; "_days"; "_time"].

Definition ID_SUFFIXES : list string := ["_id"; "_key"; "_prefix"].

(** [l[0]] and [l[-1]] of a list known not to be empty. *)
Definition first (l : list string) : string := hd "" l.
Definition final (l : list string) : string := List.last l "".

Fixpoint distinct (seen : list string) (values : list (option string)) : nat :=
  match values with
  | [] => 0
  | None :: rest => distinct seen rest
  | Some v :: rest =>
      if mem v seen then distinct seen rest else S (distinct (v :: seen) rest)
  end.

(** [df[col].nunique()]: the distinct values of the column with that
    label, missing values left out. *)
Definition nunique (df : Frame) (col : string) : nat :=
  match find (fun s => String.eqb (label s) col) (series df) with
  | Some s => distinct [] (cells s)
  | None => 0
  end.

Definition MAX_CHART_ROWS : nat := 500.

Definition auto_chart (df : option Frame) : option Chart :=
  match df with
  | None => None
  | Some df =>
      if empty df || (length (series df) <? 2)%nat then None
      else
        let df := if (MAX_CHART_ROWS <? index_length df)%nat
                  then head MAX_CHART_ROWS df else df in
        let col_types := _detect_column_types df in
        if (1 <=? length (datetime col_types))%nat && (1 <=? length (numeric col_types))%nat
        then
          let date_col := first (datetime col_types) in
          let numeric_col := first (numeric col_types) in
          Some {| data := df; mark := mark_line;
                  x := date_col; y := numeric_col; y_sorted_by_x := false;
                  tooltip := [date_col; numeric_col];
                  title := numeric_col ++ " over " ++ date_col |}
        else if (1 <=? length (categorical col_types))%nat
                && (1 <=? length (numeric col_types))%nat
        then
          let agg_cols :=
            filter (fun c => endswith_any _AGG_SUFFIXES (lower c)) (numeric col_types) in
          let numeric_col :=
            if is_nil agg_cols then final (numeric col_types) else first agg_cols in
          let non_id_cats :=
            filter (fun c => negb (endswith_any ID_SUFFIXES (lower c)))
                   (categorical col_types) in
          let cat_col :=
            if is_nil non_id_cats then first (categorical col_types) else first non_id_cats in
          let num_categories := nunique df cat_col in
          if (7 <? num_categories)%nat
          then Some {| data := df; mark := mark_bar;
                       x := numeric_col; y := cat_col; y_sorted_by_x := true;
                       tooltip := [cat_col; numeric_col];
                       title := numeric_col ++ " by " ++ cat_col |}
          else Some {| data := df; mark := mark_bar;
                       x := cat_col; y := numeric_col; y_sorted_by_x := false;
                       tooltip := [cat_col; numeric_col];
                       title := numeric_col ++ " by " ++ cat_col |}
        else if (2 <=? length (numeric col_types))%nat
        then
          let x_col := first (numeric col_types) in
          let y_col := nth 1 (numeric col_types) "" in
          Some {| data := df; mark := mark_point;
                  x := x_col; y := y_col; y_sorted_by_x := false;
                  tooltip := [x_col; y_col];
                  title := y_col ++ " vs " ++ x_col |}
        else None
  end.

End Viz.

(** ** The schema section of the prompt ([sql_generator.py]) *)

Section SchemaText.

(** [f"{relevance:.2f}"]. *)
Variable format_relevance : float -> string.





End SchemaText.

(** ** Scripted sessions

    The world of a scripted session is the number of calls made so far;
    every call advances it.  The answers are given per operation;
    completion and explain may answer by the state of the world. *)

Module Script.

Definition answer {A} (a : A) (w : nat) : A * nat := (a, S w).

Definition session
           (search : Outcome (list SearchDocument))
           (keyword : Outcome (list KeywordRow))
           (descriptions : Outcome (list DescriptionRow))
           (catalog_of : Outcome (list CatalogRow))
           (catalog : Outcome (list CatalogRow))
           (completion : nat -> Outcome (list (option string)))
           (explained : nat -> string -> Outcome unit)
           (ran : string -> Outcome unit)
  : Session nat unit :=
  {| search_preview := fun _ _ => answer search;
     keyword_query := fun _ _ => answer keyword;
     descriptions_of := fun _ => answer descriptions;
     catalog_columns_of := fun _ => answer catalog_of;
     catalog_columns := answer catalog;
     cortex_complete := fun _ w => answer (completion w) w;
     explain := fun sql w => answer (explained w sql) w;
     run := fun sql => answer (ran sql) |}.

Definition prompt (question : string) (schema_context : SchemaContext)
           (golden_examples : list GoldenExample) : string := question.

Definition described (table column : string) : DescriptionRow :=
  {| TABLE_NAME := table; COLUMN_NAME := column;
     DESCRIPTION := None; DATA_TYPE := Some "VARCHAR"; SYNONYMS := None |}.

Definition matching (table column : string) (count : Z) : KeywordRow :=
  {| matched := described table column; MATCH_COUNT := count |}.

Definition raw (table column : string) : CatalogRow :=
  {| CATALOG_TABLE_NAME := table; CATALOG_COLUMN_NAME := column;
     CATALOG_DATA_TYPE := "VARCHAR" |}.

Definition unavailable {A} : Outcome A := Raised "unavailable".

(** A linker session: only the metadata operations answer. *)
Definition linker
           (search : Outcome (list SearchDocument))
           (keyword : Outcome (list KeywordRow))
           (descriptions : Outcome (list DescriptionRow))
           (catalog_of : Outcome (list CatalogRow))
           (catalog : Outcome (list CatalogRow)) : Session nat unit :=
  session search keyword descriptions catalog_of catalog
          (fun _ => unavailable) (fun _ _ => unavailable) (fun _ => unavailable).

(** A warehouse session: only completion, explain and run answer. *)
Definition warehouse
           (completion : nat -> Outcome (list (option string)))
           (explained : nat -> string -> Outcome unit)
           (ran : string -> Outcome unit) : Session nat unit :=
  session unavailable unavailable unavailable unavailable unavailable
          completion explained ran.

(** The tables of schema RAW after ingestion, one column each, in the
    order of the catalog query. *)
Definition raw_catalog : list CatalogRow :=
  [ raw "CUSTOMERS" "CUSTOMER_ID";
    raw "GEOLOCATION" "GEOLOCATION_ZIP_CODE_PREFIX";
    raw "ORDERS" "ORDER_ID";
    raw "ORDER_ITEMS" "ORDER_ID";
    raw "ORDER_PAYMENTS" "ORDER_ID";
    raw "ORDER_REVIEWS" "REVIEW_ID";
    raw "PRODUCTS" "PRODUCT_ID";
    raw "PRODUCT_CATEGORY_TRANSLATION" "PRODUCT_CATEGORY_NAME";
    raw "SELLERS" "SELLER_ID";
    raw "SUPERSTORE_SALES" "ROW_ID" ].

End Script.

Definition names_of (tables : SchemaContext) : list string := map table_name tables.

Example linker_semantic_tier :
  names_of (result_of
    (link_schema
       (Script.linker
          (Returned [Some [ {| hit_table_name := Some "ORDERS"; hit_column_name := Some "ORDER_ID";
                               hit_description := None; hit_data_type := None;
                               hit_synonyms := None; hit_score := Some 0.25%float |};
                            {| hit_table_name := Some "SUPERSTORE_SALES"; hit_column_name := Some "SALES";
                               hit_description := None; hit_data_type := None;
                               hit_synonyms := None; hit_score := Some 0.75%float |};
                            {| hit_table_name := Some "CUSTOMERS"; hit_column_name := Some "CITY";
                               hit_description := None; hit_data_type := None;
                               hit_synonyms := None; hit_score := Some 0.5%float |};
                            {| hit_table_name := Some "ORDERS"; hit_column_name := Some "STATUS";
                               hit_description := None; hit_data_type := None;
                               hit_synonyms := None; hit_score := Some 1%float |} ]])
          Script.unavailable Script.unavailable Script.unavailable Script.unavailable)
       "orders by city" 5) 0%nat)
  = ["ORDERS"; "CUSTOMERS"].
Proof. vm_compute. reflexivity. Qed.

Example linker_keyword_tier :
  Agent.run_from
    (link_schema
       (Script.linker
          Script.unavailable
          (Returned [ Script.matching "ORDERS" "ORDER_ID" 1;
                      Script.matching "ORDER_ITEMS" "ORDER_ID" 2;
                      Script.matching "ORDER_ITEMS" "PRICE" 2 ])
          (Returned [ Script.described "CUSTOMERS" "CUSTOMER_ID" ])
          Script.unavailable Script.unavailable)
       "What is the price of each order?" 0) 0%nat
  = ( [ {| table_name := "ORDER_ITEMS";
           columns := [ {| column_name := "ORDER_ID"; description := ""; data_type := "VARCHAR"; synonyms := "" |};
                        {| column_name := "PRICE"; description := ""; data_type := "VARCHAR"; synonyms := "" |} ];
           relevance_score := 0.5 |};
        {| table_name := "ORDERS";
           columns := [ {| column_name := "ORDER_ID"; description := ""; data_type := "VARCHAR"; synonyms := "" |} ];
           relevance_score := 0.5 |};
        {| table_name := "CUSTOMERS";
           columns := [ {| column_name := "CUSTOMER_ID"; description := ""; data_type := "VARCHAR"; synonyms := "" |} ];
           relevance_score := 0.4 |} ],
      (3%nat,
       [ Search "What is the price of each order?" 50;
         KeywordSearch ["price"; "order"] 75;
         FetchDescriptions ["CUSTOMERS"] ]) ).
Proof. vm_compute. reflexivity. Qed.

Definition orders_only : SchemaContext :=
  [ {| table_name := "ORDERS";
       columns := [ {| column_name := "ORDER_ID"; description := ""; data_type := "VARCHAR"; synonyms := "" |} ];
       relevance_score := 0.5 |} ].

(** Explain always fails and no retry is allowed: one explain call. *)
Example validator_no_retry :
  Agent.run_from
    (validate_and_execute
       Script.prompt
       (Script.warehouse (fun _ => Script.unavailable)
                         (fun _ _ => Raised "Error: SQL compilation error: invalid identifier")
                         (fun _ => Returned tt))
       "SELECT x FROM ORDERS" "How many orders?" orders_only 0) 0%nat
  = ( Some ("SELECT x FROM ORDERS", Failure "SQL compilation error: invalid identifier"),
      (1%nat, [PrintAttempt 1; Explain "SELECT x FROM ORDERS"]) ).
Proof. vm_compute. reflexivity. Qed.

(** Explain fails on the first two statements and passes the third. *)
Example validator_third_time :
  let session :=
    Script.warehouse
      (fun w => Returned [Some (if (w <? 3)%nat then "```sql
SELECT 2;
```" else "SELECT 3")])
      (fun _ sql => if String.eqb sql "SELECT 3" then Returned tt
                    else Raised "SQL compilation error")
      (fun _ => Returned tt) in
  Agent.result_of (validate_and_execute Script.prompt session "SELECT 1" "q" orders_only 3) 0%nat
  = Some ("SELECT 3", Success tt)
  /\ filter (fun e => match e with Complete _ => false | _ => true end)
            (Agent.trace_of (validate_and_execute Script.prompt session "SELECT 1" "q" orders_only 3) 0%nat)
     = [ PrintAttempt 1; Explain "SELECT 1";
         PrintAttempt 2; Explain "SELECT 2";
         PrintAttempt 3; Explain "SELECT 3"; Run "SELECT 3" ].
Proof. vm_compute. split; reflexivity. Qed.

(** * Properties *)

(** ** Traces of computations

    A computation is [traced P] when, from every world, it appends to
    the trace a list of events that does not depend on the trace it
    started with and whose events all satisfy [P]. *)

Section Traced.

Context {World : Type}.

Definition traced {A} (P : Event -> Prop) (c : M World A) : Prop :=
  forall w, exists a w' d,
    Forall P d /\ forall t, c (w, t) = (a, (w', (t ++ d)%list)).

Lemma traced_ret {A} P (a : A) : traced P (ret a).
Proof.
  intros w. exists a, w, []. split; [constructor|].
  intros t. unfold ret. now rewrite app_nil_r.
Qed.

Lemma traced_call {A} (P : Event -> Prop) e (op : World -> A * World) :
  P e -> traced P (call e op).
Proof.
  intros He w. exists (fst (op w)), (snd (op w)), [e]. split.
  - now constructor.
  - intros t. unfold call. simpl. now destruct (op w).
Qed.

Lemma traced_emit (P : Event -> Prop) e : P e -> traced P (emit (World := World) e).
Proof.
  intros He w. exists tt, w, [e]. split; [now constructor|]. now intros t.
Qed.

Lemma traced_bind {A B} P (c : M World A) (k : A -> M World B) :
  traced P c -> (forall a, traced P (k a)) -> traced P (bind c k).
Proof.
  intros Hc Hk w.
  destruct (Hc w) as (a & w1 & d1 & Hd1 & E1).
  destruct (Hk a w1) as (b & w2 & d2 & Hd2 & E2).
  exists b, w2, (d1 ++ d2)%list. split.
  - apply Forall_app. now split.
  - intros t. unfold bind. rewrite E1, E2. now rewrite app_assoc.
Qed.

Lemma traced_weaken {A} (P Q : Event -> Prop) (c : M World A) :
  (forall e, P e -> Q e) -> traced P c -> traced Q c.
Proof.
  intros HPQ Hc w. destruct (Hc w) as (a & w' & d & Hd & E).
  exists a, w', d. split; [|exact E].
  eapply Forall_impl; eauto.
Qed.

(** The trace a [traced] computation leaves after a given trace. *)
Lemma traced_run {A} P (c : M World A) :
  traced P c ->
  forall w t, exists d,
    Forall P d /\ snd (snd (c (w, t))) = (t ++ d)%list
    /\ fst (c (w, t)) = fst (c (w, [])) /\ fst (snd (c (w, t))) = fst (snd (c (w, []))).
Proof.
  intros Hc w t. destruct (Hc w) as (a & w' & d & Hd & E).
  exists d. rewrite (E t), (E []). simpl. auto.
Qed.

End Traced.

Ltac traced_step :=
  first
    [ apply traced_ret
    | apply traced_emit; simpl; auto; fail
    | apply traced_call; simpl; auto; fail
    | apply traced_bind; [ | intros ? ]
    | match goal with
      | |- traced _ (if ?b then _ else _) => destruct b
      | |- traced _ (match ?x with _ => _ end) => destruct x
      end ].

Ltac traced_auto := repeat traced_step.

(** ** Event classes *)

Definition is_explain (e : Event) : bool :=
  match e with Explain _ => true | _ => false end.

Definition is_run (e : Event) : bool :=
  match e with Run _ => true | _ => false end.

Definition is_completion (e : Event) : bool :=
  match e with Complete _ => true | _ => false end.

Definition is_keyword_search (e : Event) : bool :=
  match e with KeywordSearch _ _ => true | _ => false end.

Definition is_full_catalog (e : Event) : bool :=
  match e with FullCatalog => true | _ => false end.

(** The events of the metadata fetches that follow the keyword query. *)
Definition is_metadata_fetch (e : Event) : bool :=
  match e with
  | FetchDescriptions _ | FetchCatalog _ | FullCatalog => true
  | _ => false
  end.

Definition count (p : Event -> bool) (t : Trace) : nat := length (filter p t).

(** The attempt numbers printed at the head of the loop body, in order. *)
Fixpoint printed_attempts (t : Trace) : list Z :=
  match t with
  | [] => []
  | PrintAttempt n :: t' => n :: printed_attempts t'
  | _ :: t' => printed_attempts t'
  end.

Section AgentTraces.

Context {World DataFrame : Type}.
Variable build_prompt : string -> SchemaContext -> list GoldenExample -> string.
Variable session : Session World DataFrame.

Lemma generate_sql_traced question schema_context golden_examples :
  traced (fun e => is_completion e = true)
         (generate_sql build_prompt session question schema_context golden_examples).
Proof. unfold generate_sql. traced_auto. Qed.

Lemma _fetch_tables_by_name_traced names :
  traced (fun e => is_metadata_fetch e = true) (_fetch_tables_by_name session names).
Proof. unfold _fetch_tables_by_name. traced_auto. Qed.

Lemma _supplement_related_tables_traced tables limit :
  traced (fun e => is_metadata_fetch e = true)
         (_supplement_related_tables session tables limit).
Proof.
  unfold _supplement_related_tables. traced_auto.
  apply _fetch_tables_by_name_traced.
Qed.

Lemma _get_all_tables_traced limit :
  traced (fun e => is_metadata_fetch e = true) (_get_all_tables session limit).
Proof. unfold _get_all_tables. traced_auto. Qed.

End AgentTraces.

(** ** Empty inputs *)

Lemma blank_whitespace s : all_chars is_space s = true -> blank s = true.
Proof.
  intros H. unfold blank, strip.
  assert (E : lstrip_by is_space s = "").
  { induction s as [|c r IH]; simpl in *; [reflexivity|].
    apply andb_prop in H. destruct H as [Hc Hr]. rewrite Hc. auto. }
  rewrite E. simpl. apply orb_true_r.
Qed.

Section EmptyInputs.

Context {World DataFrame : Type}.
Variable build_prompt : string -> SchemaContext -> list GoldenExample -> string.
Variable session : Session World DataFrame.

Lemma link_schema_blank question limit s :
  blank question = true -> link_schema session question limit s = ([], s).
Proof. intros H. unfold link_schema. now rewrite H. Qed.

Lemma generate_sql_no_schema question golden_examples s :
  generate_sql build_prompt session question [] golden_examples s = ("", s).
Proof. unfold generate_sql. now destruct (blank question). Qed.

Lemma validate_and_execute_blank sql question schema_context max_retries s :
  blank sql = true ->
  validate_and_execute build_prompt session sql question schema_context max_retries s
  = (Some (sql, Failure empty_sql_message), s).
Proof. intros H. unfold validate_and_execute. now rewrite H. Qed.

End EmptyInputs.

(** C4. Empty-input safety.  [link_schema] on an empty or whitespace-only
    question returns the empty sequence; [generate_sql] on an empty schema
    context returns the empty string; [validate_and_execute] on the empty
    candidate SQL returns a failure message.  None of the three makes a
    call: the world is the one it started from and the trace is empty. *)
Theorem empty_input_safety :
  forall (World DataFrame : Type)
         (build_prompt : string -> SchemaContext -> list GoldenExample -> string)
         (session : Session World DataFrame) (w : World)
         (blank_question : string) (limit : Z)
         (question : string) (golden_examples : list GoldenExample)
         (schema_context : SchemaContext) (max_retries : Z),
    all_chars is_space blank_question = true ->
    Agent.run_from (link_schema session blank_question limit) w = ([], (w, []))
    /\ Agent.run_from (generate_sql build_prompt session question [] golden_examples) w
       = ("", (w, []))
    /\ exists message,
        Agent.run_from
          (validate_and_execute build_prompt session "" question schema_context max_retries) w
        = (Some ("", Failure message), (w, [])).
Proof.
  intros World DataFrame build_prompt session w bq limit question golden schema N Hws.
  unfold Agent.run_from. repeat split.
  - apply link_schema_blank. now apply blank_whitespace.
  - apply generate_sql_no_schema.
  - exists empty_sql_message. now apply validate_and_execute_blank.
Qed.

Lemma empty_input_safety_witness :
  let session :=
    Script.session (Returned [Some []]) (Returned []) (Returned []) (Returned [])
                   (Returned Script.raw_catalog) (fun _ => Returned [Some "SELECT 1"])
                   (fun _ _ => Returned tt) (fun _ => Returned tt) in
  all_chars is_space "   " = true
  /\ Agent.run_from (link_schema session "   " 5) 0%nat = ([], (0%nat, []))
  /\ Agent.run_from (generate_sql Script.prompt session "How many orders?" [] []) 0%nat
     = ("", (0%nat, []))
  /\ exists message,
      Agent.run_from
        (validate_and_execute Script.prompt session "" "How many orders?" orders_only 3) 0%nat
      = (Some ("", Failure message), (0%nat, [])).
Proof.
  intros session. split; [reflexivity|].
  apply (empty_input_safety nat unit Script.prompt session 0%nat "   " 5
                            "How many orders?" [] orders_only 3).
  reflexivity.
Defined.

(** ** Order of the fallback tiers *)

(** The limit the tiers work with: a limit below 1 becomes 5. *)
Definition coerced_limit (limit : Z) : Z := if (limit <? 1)%Z then 5%Z else limit.

(** The two tests of the exception handler of [link_schema]. *)
Definition says_service_missing (error_msg : string) : bool :=
  contains "does not exist" (lower error_msg)
  && contains "schema_search_service" (lower error_msg).

Definition says_descriptions_missing (error_msg : string) : bool :=
  negb (says_service_missing error_msg) && contains "table_descriptions" (lower error_msg).

Section FallbackOrder.

Context {World DataFrame : Type}.
Variable session : Session World DataFrame.

Lemma bind_call {A B} e (op : World -> A * World) (k : A -> M World B) w t :
  bind (call e op) k (w, t) = k (fst (op w)) (snd (op w), (t ++ [e])%list).
Proof. unfold bind, call. simpl. now destruct (op w). Qed.

Lemma traced_after {A} P (c : M World A) w t :
  traced P c -> exists d, Forall P d /\ snd (snd (c (w, t))) = (t ++ d)%list.
Proof.
  intros Hc. destruct (traced_run P c Hc w t) as (d & Hd & E & _). eauto.
Qed.

Lemma _fallback_keyword_search_trace question limit w t :
  exists d,
    Forall (fun e => is_metadata_fetch e = true) d
    /\ snd (snd (_fallback_keyword_search session question limit (w, t)))
       = (t ++ KeywordSearch (keywords_of question) (limit * 15) :: d)%list.
Proof.
  unfold _fallback_keyword_search. cbv zeta. rewrite bind_call.
  destruct (keyword_query session (keywords_of question) (limit * 15) w) as [found w1].
  cbn [fst snd].
  match goal with
  | |- context [?k (w1, ?t1)] =>
      assert (Hk : traced (fun e => is_metadata_fetch e = true) k)
  end.
  { destruct found as [msg|[|row rows]].
    - apply _get_all_tables_traced.
    - apply _get_all_tables_traced.
    - apply _supplement_related_tables_traced. }
  destruct (traced_after _ _ w1 (t ++ [KeywordSearch (keywords_of question) (limit * 15)])%list Hk)
    as (d & Hd & E).
  exists d. split; [exact Hd|].
  rewrite <- app_assoc in E. exact E.
Qed.

End FallbackOrder.

(** C3, as the code has it.  When the semantic search raises, the handler
    of [link_schema] looks at the text of the error.  A text that mentions
    [table_descriptions], and does not report the search service itself
    as missing, ends the call with the empty result and no further query.
    For every other error the keyword query is issued right after the
    search, and what follows it (the full catalog included) are metadata
    fetches. *)
Theorem search_error_fallback :
  forall (World DataFrame : Type) (session : Session World DataFrame)
         (question : string) (limit : Z) (w w1 : World) (error_msg : string),
    blank question = false ->
    search_preview session question (coerced_limit limit * 10) w = (Raised error_msg, w1) ->
    if says_descriptions_missing error_msg
    then Agent.run_from (link_schema session question limit) w
         = ([], (w1, [Search question (coerced_limit limit * 10)]))
    else exists rest,
        Agent.trace_of (link_schema session question limit) w
        = Search question (coerced_limit limit * 10)
          :: KeywordSearch (keywords_of question) (coerced_limit limit * 15)
          :: rest
        /\ Forall (fun e => is_metadata_fetch e = true) rest.
Proof.
  intros World DataFrame session question limit w w1 msg Hq Hs.
  unfold says_descriptions_missing, says_service_missing, Agent.trace_of, Agent.run_from.
  unfold link_schema. rewrite Hq. cbv zeta. fold (coerced_limit limit).
  rewrite bind_call, Hs. cbn [fst snd app].
  destruct (contains "does not exist" (lower msg) && contains "schema_search_service" (lower msg))
    eqn:E1; simpl negb; simpl andb.
  - destruct (_fallback_keyword_search_trace session question (coerced_limit limit) w1
                [Search question (coerced_limit limit * 10)]) as (d & Hd & E).
    exists d. split; [exact E|exact Hd].
  - destruct (contains "table_descriptions" (lower msg)) eqn:E2.
    + reflexivity.
    + destruct (_fallback_keyword_search_trace session question (coerced_limit limit) w1
                  [Search question (coerced_limit limit * 10)]) as (d & Hd & E).
      exists d. split; [exact E|exact Hd].
Qed.

Definition missing_descriptions_error : string :=
  "SQL compilation error: Object 'ANALYTICS_COPILOT.METADATA.TABLE_DESCRIPTIONS' does not exist or not authorized.".

Definition missing_service_error : string :=
  "Cortex Search Service SCHEMA_SEARCH_SERVICE does not exist or not authorized.".

(** C3, counterexample.  The semantic search raises an error that names
    the description table; the keyword query would have found [ORDERS],
    but [link_schema] returns the empty result after the search alone. *)
Lemma search_error_without_keyword_tier :
  let session :=
    Script.linker (Raised missing_descriptions_error)
                  (Returned [Script.matching "ORDERS" "ORDER_ID" 1])
                  (Returned [Script.described "CUSTOMERS" "CUSTOMER_ID"])
                  (Returned Script.raw_catalog) (Returned Script.raw_catalog) in
  search_preview session "How many orders?" 50 0%nat = (Raised missing_descriptions_error, 1%nat)
  /\ Agent.run_from (link_schema session "How many orders?" 5) 0%nat
     = ([], (1%nat, [Search "How many orders?" 50]))
  /\ existsb is_keyword_search
             (Agent.trace_of (link_schema session "How many orders?" 5) 0%nat) = false
  /\ names_of (Agent.result_of
                 (_fallback_keyword_search session "How many orders?" 5) 1%nat)
     = ["ORDERS"; "CUSTOMERS"].
Proof. vm_compute. repeat split. Qed.

Lemma search_error_fallback_witness :
  let session :=
    Script.linker (Raised missing_service_error)
                  (Returned []) Script.unavailable Script.unavailable
                  (Returned Script.raw_catalog) in
  blank "How many orders?" = false
  /\ search_preview session "How many orders?" (coerced_limit 5 * 10) 0%nat
     = (Raised missing_service_error, 1%nat)
  /\ if says_descriptions_missing missing_service_error
     then Agent.run_from (link_schema session "How many orders?" 5) 0%nat
          = ([], (1%nat, [Search "How many orders?" (coerced_limit 5 * 10)]))
     else exists rest,
         Agent.trace_of (link_schema session "How many orders?" 5) 0%nat
         = Search "How many orders?" (coerced_limit 5 * 10)
           :: KeywordSearch (keywords_of "How many orders?") (coerced_limit 5 * 15)
           :: rest
         /\ Forall (fun e => is_metadata_fetch e = true) rest.
Proof.
  intros session. split; [reflexivity|]. split; [reflexivity|].
  apply (search_error_fallback nat unit session "How many orders?" 5 0%nat 1%nat
                               missing_service_error); reflexivity.
Defined.

Example fallback_order_on_missing_service :
  Agent.trace_of
    (link_schema
       (Script.linker (Raised missing_service_error)
                      (Returned []) Script.unavailable Script.unavailable
                      (Returned Script.raw_catalog))
       "How many orders?" 5) 0%nat
  = [ Search "How many orders?" 50; KeywordSearch ["orders"] 75; FullCatalog ].
Proof. vm_compute. reflexivity. Qed.

(** ** What the grouping loops build *)

Lemma fold_left_invariant {A B} (I : A -> Prop) (f : A -> B -> A) (l : list B) (a : A) :
  I a -> (forall a b, I a -> I (f a b)) -> I (fold_left f l a).
Proof.
  revert a. induction l as [|b l IH]; intros a Ha Hf; simpl; auto.
Qed.

Lemma upsert_Forall {V} (P : V -> Prop) k init (f : V -> V) d :
  (forall v, P (f v)) ->
  Forall (fun kv => P (snd kv)) d ->
  Forall (fun kv => P (snd kv)) (upsert k init f d).
Proof.
  intros Hf. induction d as [|[k' v] d IH]; intros Hd; simpl.
  - constructor; [apply Hf|constructor].
  - inversion Hd; subst. destruct (String.eqb k k').
    + constructor; [apply Hf|assumption].
    + constructor; [assumption|auto].
Qed.

Lemma upsert_keys {V} k init (f : V -> V) d k' :
  In k' (map fst (upsert k init f d)) <-> k' = k \/ In k' (map fst d).
Proof.
  induction d as [|[k0 v] d IH]; simpl.
  - intuition.
  - destruct (String.eqb_spec k k0) as [->|Hne]; simpl.
    + intuition.
    + rewrite IH. intuition.
Qed.

Lemma snoc_not_nil {A} (l : list A) (x : A) : (l ++ [x])%list <> [].
Proof. now destruct l. Qed.

Lemma Forall_firstn {A} (P : A -> Prop) n (l : list A) :
  Forall P l -> Forall P (firstn n l).
Proof.
  revert l. induction n as [|n IH]; intros [|x l] H; simpl; try constructor.
  - now inversion H.
  - inversion H; auto.
Qed.

Lemma Forall_filter {A} (P : A -> Prop) p (l : list A) :
  Forall P l -> Forall P (filter p l).
Proof.
  induction 1 as [|x l Hx Hl IH]; simpl; [constructor|].
  destruct (p x); [constructor|]; assumption.
Qed.

Lemma Forall_insert_desc {A K} (P : A -> Prop) ltb (key : A -> K) x l :
  P x -> Forall P l -> Forall P (insert_desc ltb key x l).
Proof.
  intros Hx. induction 1 as [|y l Hy Hl IH]; simpl.
  - now repeat constructor.
  - destruct (ltb (key x) (key y)); now repeat constructor.
Qed.

Lemma Forall_sort_desc {A K} (P : A -> Prop) ltb (key : A -> K) l :
  Forall P l -> Forall P (sort_desc ltb key l).
Proof.
  induction 1 as [|x l Hx Hl IH]; simpl; [constructor|].
  now apply Forall_insert_desc.
Qed.

Definition has_columns (t : TableContext) : Prop := columns t <> [].

Lemma group_columns_has_columns score rows :
  Forall has_columns (group_columns score rows).
Proof.
  unfold group_columns. apply Forall_map.
  apply (fold_left_invariant (Forall (fun kv => snd kv <> []))); [constructor|].
  intros d row Hd. apply (upsert_Forall (fun cols => cols <> [])); [|exact Hd].
  intros cols. apply snoc_not_nil.
Qed.

Lemma keyword_tables_has_columns rows :
  Forall (fun kv => has_columns (keyword_context kv)) (keyword_tables rows).
Proof.
  unfold keyword_tables.
  apply (fold_left_invariant (Forall (fun kv => kw_columns (snd kv) <> []))); [constructor|].
  intros d row Hd. apply (upsert_Forall (fun e => kw_columns e <> [])); [|exact Hd].
  intros e. apply snoc_not_nil.
Qed.

Lemma search_tables_has_columns results :
  Forall has_columns (map search_context (search_tables results)).
Proof.
  apply Forall_map. unfold search_tables.
  apply (fold_left_invariant (Forall (fun kv => se_columns (snd kv) <> []))); [constructor|].
  intros d item Hd. apply (upsert_Forall (fun e => se_columns e <> [])); [|exact Hd].
  intros e. apply snoc_not_nil.
Qed.

(** ** Results of computations *)

Section Returns.

Context {World : Type}.

(** [returns Q c]: whatever the world and the trace, the value [c]
    returns satisfies [Q]. *)
Definition returns {A} (Q : A -> Prop) (c : M World A) : Prop :=
  forall s, Q (fst (c s)).

Lemma returns_ret {A} (Q : A -> Prop) a : Q a -> returns Q (ret a).
Proof. intros H s. exact H. Qed.

Lemma returns_bind {A B} (P : A -> Prop) (Q : B -> Prop) (c : M World A) k :
  returns P c -> (forall a, P a -> returns Q (k a)) -> returns Q (bind c k).
Proof.
  intros Hc Hk s. unfold bind. specialize (Hc s).
  destruct (c s) as [a s']. now apply Hk.
Qed.

Lemma returns_any {A} (c : M World A) : returns (fun _ => True) c.
Proof. now intros s. Qed.

End Returns.

Section NonEmptyColumns.

Context {World DataFrame : Type}.
Variable session : Session World DataFrame.

Lemma _fetch_tables_by_name_has_columns names :
  returns (Forall has_columns) (_fetch_tables_by_name session names).
Proof.
  unfold _fetch_tables_by_name. destruct (is_nil names).
  - apply returns_ret. constructor.
  - eapply returns_bind; [apply returns_any|]. intros described _.
    destruct described as [msg|[|row rows]];
      try (eapply returns_bind; [apply returns_any|]; intros [msg'|raws] _;
           apply returns_ret; [constructor|apply group_columns_has_columns]).
    apply returns_ret. apply group_columns_has_columns.
Qed.

Lemma _get_all_tables_has_columns limit :
  returns (Forall has_columns) (_get_all_tables session limit).
Proof.
  unfold _get_all_tables. eapply returns_bind; [apply returns_any|].
  intros [msg|rows] _; apply returns_ret; [constructor|].
  apply Forall_firstn, group_columns_has_columns.
Qed.

Lemma _supplement_related_tables_has_columns tables limit :
  Forall has_columns tables ->
  returns (Forall has_columns) (_supplement_related_tables session tables limit).
Proof.
  intros Ht. unfold _supplement_related_tables.
  destruct (is_nil (needed_partners tables)).
  - now apply returns_ret.
  - eapply returns_bind; [apply _fetch_tables_by_name_has_columns|].
    intros partners Hp. apply returns_ret. apply Forall_app. now split.
Qed.

Lemma _fallback_keyword_search_has_columns question limit :
  returns (Forall has_columns) (_fallback_keyword_search session question limit).
Proof.
  unfold _fallback_keyword_search. eapply returns_bind; [apply returns_any|].
  intros [msg|[|row rows]] _; try apply _get_all_tables_has_columns.
  apply _supplement_related_tables_has_columns.
  apply Forall_filter, Forall_firstn, Forall_map, Forall_sort_desc.
  apply keyword_tables_has_columns.
Qed.

Lemma link_schema_has_columns question limit :
  returns (Forall has_columns) (link_schema session question limit).
Proof.
  unfold link_schema. destruct (blank question).
  - apply returns_ret. constructor.
  - eapply returns_bind; [apply returns_any|].
    intros [msg|[|[[|item results]|] docs]] _;
      try (apply returns_ret; constructor; fail).
    + repeat match goal with
             | |- returns _ (if ?b then _ else _) => destruct b
             end;
        try apply _fallback_keyword_search_has_columns.
      apply returns_ret. constructor.
    + apply returns_ret.
      apply Forall_firstn, Forall_filter, Forall_sort_desc.
      apply search_tables_has_columns.
Qed.

End NonEmptyColumns.

(** C9. Every table of the context [link_schema] returns has at least one
    column, whatever the question, the limit, the answers of the session
    and the tier that produced the result. *)
Theorem link_schema_columns_nonempty :
  forall (World DataFrame : Type) (session : Session World DataFrame)
         (question : string) (limit : Z) (w : World),
    Forall (fun t => columns t <> [])
           (Agent.result_of (link_schema session question limit) w).
Proof.
  intros World DataFrame session question limit w.
  apply (link_schema_has_columns session question limit (w, [])).
Qed.

(** ** Dataset isolation *)

Lemma _filter_dataset_mixing_excludes tables :
  ~ In EXCLUDED_TABLE (names_of (_filter_dataset_mixing tables)).
Proof.
  unfold names_of, _filter_dataset_mixing. intros H.
  apply in_map_iff in H. destruct H as (t & Hn & Ht).
  apply filter_In in Ht. destruct Ht as [_ Ht].
  rewrite Hn, String.eqb_refl in Ht. discriminate.
Qed.

Lemma firstn_incl {A} n (l : list A) x : In x (firstn n l) -> In x l.
Proof.
  revert l. induction n as [|n IH]; intros [|y l]; simpl; try tauto.
  intros [->|H]; auto.
Qed.

(** The semantic tier filters: when the search answers, the excluded
    table is not in the result. *)
Lemma semantic_tier_isolated :
  forall (World DataFrame : Type) (session : Session World DataFrame)
         (question : string) (limit : Z) (w w1 : World) (docs : list SearchDocument),
    search_preview session question (coerced_limit limit * 10) w = (Returned docs, w1) ->
    ~ In EXCLUDED_TABLE (names_of (Agent.result_of (link_schema session question limit) w)).
Proof.
  intros World DataFrame session question limit w w1 docs Hs.
  unfold Agent.result_of, Agent.run_from, link_schema.
  destruct (blank question); [simpl; tauto|].
  cbv zeta. fold (coerced_limit limit). rewrite bind_call, Hs. cbn [fst snd].
  destruct docs as [|[[|item results]|] docs]; try (simpl; tauto).
  unfold ret. cbn [fst]. unfold slice_to, names_of. intros H.
  apply in_map_iff in H. destruct H as (t & Hn & Ht).
  apply firstn_incl in Ht.
  eapply _filter_dataset_mixing_excludes.
  unfold names_of. apply in_map_iff. eauto.
Qed.

Lemma existsb_app_r {A} (p : A -> bool) (l1 l2 : list A) :
  existsb p l2 = true -> existsb p (l1 ++ l2) = true.
Proof. intros H. rewrite existsb_app, H. apply orb_true_r. Qed.

Section Leak.

Context {World DataFrame : Type}.
Variable session : Session World DataFrame.

Lemma _fetch_tables_by_name_trace names w t :
  names <> [] ->
  exists d, snd (snd (_fetch_tables_by_name session names (w, t)))
            = (t ++ FetchDescriptions names :: d)%list.
Proof.
  intros Hn. unfold _fetch_tables_by_name.
  destruct names as [|n ns]; [contradiction|]. cbn [is_nil]. rewrite bind_call.
  destruct (descriptions_of session (n :: ns) w) as [described w1]. cbn [fst snd].
  assert (Raw : exists d,
             snd (snd ((raw <- call (FetchCatalog (n :: ns))
                                    (catalog_columns_of session (n :: ns)) ;;
                        match raw with
                        | Returned rows => ret (group_columns 0.3 (map catalog_column rows))
                        | Raised _ => ret []
                        end) (w1, (t ++ [FetchDescriptions (n :: ns)])%list)))
             = (t ++ FetchDescriptions (n :: ns) :: d)%list).
  { rewrite bind_call. exists [FetchCatalog (n :: ns)].
    destruct (catalog_columns_of session (n :: ns) w1) as [[msg|rows] w2];
      cbn [fst snd]; unfold ret; cbn [snd]; now rewrite <- app_assoc. }
  destruct described as [msg|[|row rows]]; try exact Raw.
  exists []. unfold ret. reflexivity.
Qed.

Lemma _fallback_keyword_search_leak question limit w t :
  In EXCLUDED_TABLE (names_of (fst (_fallback_keyword_search session question limit (w, t)))) ->
  existsb is_metadata_fetch (snd (snd (_fallback_keyword_search session question limit (w, t))))
  = true.
Proof.
  unfold _fallback_keyword_search. cbv zeta. rewrite bind_call.
  destruct (keyword_query session (keywords_of question) (limit * 15) w) as [found w1].
  cbn [fst snd].
  assert (All : forall s,
             existsb is_metadata_fetch (snd (snd (_get_all_tables session limit s))) = true).
  { intros [w' t']. unfold _get_all_tables. rewrite bind_call.
    destruct (catalog_columns session w') as [[msg|rows] w2]; cbn [fst snd]; unfold ret;
      cbn [snd]; apply existsb_app_r; reflexivity. }
  destruct found as [msg|[|row rows]]; try (intros _; apply All).
  unfold _supplement_related_tables. cbv zeta.
  match goal with
  | |- context [needed_partners ?direct] =>
      destruct (needed_partners direct) as [|n ns] eqn:En
  end.
  - cbn [is_nil]. unfold ret. cbn [fst]. intros H.
    now apply _filter_dataset_mixing_excludes in H.
  - cbn [is_nil]. intros _. unfold bind.
    match goal with
    | |- context [_fetch_tables_by_name session (n :: ns) (?w', ?t')] =>
        destruct (_fetch_tables_by_name_trace (n :: ns) w' t') as [d E];
          [discriminate|];
        destruct (_fetch_tables_by_name session (n :: ns) (w', t')) as [partners [w2 t2]]
    end.
    cbn [snd] in E. unfold ret. cbn [snd]. rewrite E.
    apply existsb_app_r. reflexivity.
Qed.

(** The excluded table can only come in with a metadata fetch: what the
    semantic tier returns and what the keyword tier matches are
    filtered, the full catalog and the partners fetched by name are
    not. *)
Lemma excluded_table_comes_with_a_fetch question limit w :
  In EXCLUDED_TABLE (names_of (Agent.result_of (link_schema session question limit) w)) ->
  existsb is_metadata_fetch (Agent.trace_of (link_schema session question limit) w) = true.
Proof.
  intros H.
  destruct (search_preview session question (coerced_limit limit * 10) w) as [found w1] eqn:Hs.
  destruct found as [msg|docs].
  - revert H. unfold Agent.result_of, Agent.trace_of, Agent.run_from, link_schema.
    destruct (blank question); [intros []|].
    cbv zeta. fold (coerced_limit limit). rewrite bind_call, Hs. cbn [fst snd app].
    destruct (contains "does not exist" (lower msg)
              && contains "schema_search_service" (lower msg)).
    + apply _fallback_keyword_search_leak.
    + destruct (contains "table_descriptions" (lower msg)); [intros []|].
      apply _fallback_keyword_search_leak.
  - exfalso. exact (semantic_tier_isolated _ _ session question limit w w1 docs Hs H).
Qed.

End Leak.

(** C2, the failing input.  The search service is missing, the keyword
    query finds no row, and the catalog of schema RAW lists the ten
    tables the ingestion loads, the excluded one among them.  With a
    limit of 10 the full-catalog tier returns all ten: it does not pass
    its result through [_filter_dataset_mixing]. *)
Theorem full_catalog_tier_returns_excluded_table :
  let session :=
    Script.linker (Raised missing_service_error) (Returned [])
                  Script.unavailable Script.unavailable (Returned Script.raw_catalog) in
  Agent.trace_of (link_schema session "How many orders?" 10) 0%nat
  = [ Search "How many orders?" 100; KeywordSearch ["orders"] 150; FullCatalog ]
  /\ names_of (Agent.result_of (link_schema session "How many orders?" 10) 0%nat)
     = [ "CUSTOMERS"; "GEOLOCATION"; "ORDERS"; "ORDER_ITEMS"; "ORDER_PAYMENTS";
         "ORDER_REVIEWS"; "PRODUCTS"; "PRODUCT_CATEGORY_TRANSLATION"; "SELLERS";
         "SUPERSTORE_SALES" ]
  /\ In EXCLUDED_TABLE
        (names_of (Agent.result_of (link_schema session "How many orders?" 10) 0%nat)).
Proof. vm_compute. repeat split. do 9 right. now left. Qed.

(** ** Length of the result *)

(** C10. A call of [link_schema] that reaches the keyword tier and returns
    more tables than the limit: with a limit of 1 the keyword query
    matches [ORDER_ITEMS] alone, the result is cut to one table, and the
    supplementation then appends the partner [ORDERS]. *)
Theorem supplementation_exceeds_limit :
  exists (session : Session nat unit) (question : string) (limit : Z),
    (1 <= limit)%Z
    /\ existsb is_keyword_search (Agent.trace_of (link_schema session question limit) 0%nat) = true
    /\ names_of (Agent.result_of (link_schema session question limit) 0%nat)
       = ["ORDER_ITEMS"; "ORDERS"]
    /\ (limit < Z.of_nat (length (Agent.result_of (link_schema session question limit) 0%nat)))%Z.
Proof.
  exists (Script.linker (Raised missing_service_error)
                        (Returned [ Script.matching "ORDER_ITEMS" "PRICE" 1 ])
                        (Returned [ Script.described "ORDERS" "ORDER_ID" ])
                        Script.unavailable Script.unavailable),
         "What is the total price?", 1%Z.
  vm_compute. repeat split; discriminate.
Qed.

(** ** Foreign-key supplementation *)

(** The tables the keyword tier matched directly: grouped, ranked by
    match count, cut to the limit and filtered. *)
Definition direct_matches (limit : Z) (rows : list KeywordRow) : SchemaContext :=
  _filter_dataset_mixing
    (slice_to limit
       (map keyword_context
            (sort_desc Z.ltb (fun kv => _match_count (snd kv)) (keyword_tables rows)))).

Lemma mem_In x l : mem x l = true <-> In x l.
Proof.
  unfold mem. rewrite existsb_exists. split.
  - intros (y & Hy & E). apply String.eqb_eq in E. now subst.
  - intros H. exists x. split; [assumption|apply String.eqb_refl].
Qed.

Lemma set_add_In x s y : In y (set_add x s) <-> y = x \/ In y s.
Proof.
  unfold set_add. destruct (mem x s) eqn:E.
  - apply mem_In in E. split; [auto|]. intros [->|H]; assumption.
  - rewrite in_app_iff. simpl. intuition.
Qed.

Section Needed.

Variable current_names : list string.

Definition add_missing (needed : list string) (partner : string) : list string :=
  if mem partner current_names then needed else set_add partner needed.

Lemma add_missing_keeps partners needed x :
  In x needed -> In x (fold_left add_missing partners needed).
Proof.
  revert needed. induction partners as [|p ps IH]; intros needed H; simpl; [assumption|].
  apply IH. unfold add_missing. destruct (mem p current_names); [assumption|].
  apply set_add_In. now right.
Qed.

Lemma add_missing_adds partners needed x :
  In x partners -> ~ In x current_names -> In x (fold_left add_missing partners needed).
Proof.
  revert needed. induction partners as [|p ps IH]; intros needed H Hx; simpl; [destruct H|].
  destruct H as [->|H].
  - apply add_missing_keeps. unfold add_missing.
    destruct (mem x current_names) eqn:E.
    + apply mem_In in E. contradiction.
    + apply set_add_In. now left.
  - now apply IH.
Qed.

End Needed.

Lemma needed_fold current tables needed t partner :
  In t tables ->
  In partner (fk_partners (table_name t)) ->
  ~ In partner current ->
  In partner
     (fold_left
        (fun needed table =>
           fold_left (add_missing current) (fk_partners (table_name table)) needed)
        tables needed).
Proof.
  intros Ht Hp Habsent. revert needed.
  induction tables as [|t0 ts IH]; intros needed; [destruct Ht|].
  simpl. destruct Ht as [->|Ht].
  - apply (fold_left_invariant (fun needed => In partner needed)).
    + now apply add_missing_adds.
    + intros a b Ha. now apply add_missing_keeps.
  - now apply IH.
Qed.

Lemma needed_partners_complete tables t partner :
  In t tables ->
  In partner (fk_partners (table_name t)) ->
  ~ In partner (names_of tables) ->
  In partner (needed_partners tables).
Proof.
  intros Ht Hp Habsent.
  exact (needed_fold (map table_name tables) tables [] t partner Ht Hp Habsent).
Qed.

Lemma fk_partners_cases name partner :
  In partner (fk_partners name) ->
  (partner = "ORDERS" /\ name <> "ORDERS") \/ (partner = "CUSTOMERS" /\ name = "ORDERS").
Proof.
  unfold fk_partners, FK_PARTNERS. cbn [find fst snd].
  destruct (String.eqb_spec name "ORDER_ITEMS") as [->|_].
  { intros [<-|[]]. left. split; [reflexivity|discriminate]. }
  destruct (String.eqb_spec name "ORDER_REVIEWS") as [->|_].
  { intros [<-|[]]. left. split; [reflexivity|discriminate]. }
  destruct (String.eqb_spec name "ORDER_PAYMENTS") as [->|_].
  { intros [<-|[]]. left. split; [reflexivity|discriminate]. }
  destruct (String.eqb_spec name "ORDERS") as [->|_].
  { intros [<-|[]]. right. now split. }
  intros [].
Qed.

Lemma set_add_NoDup x s : NoDup s -> NoDup (set_add x s).
Proof.
  intros H. unfold set_add. destruct (mem x s) eqn:E; [exact H|].
  apply NoDup_app; [exact H|repeat constructor; intros []|].
  intros y Hy [<-|[]]. apply mem_In in Hy. congruence.
Qed.

Section NeededSound.

Variable tables : SchemaContext.

(** What holds of the set [needed] all along the two loops. *)
Definition needed_ok (needed : list string) : Prop :=
  NoDup needed
  /\ forall partner,
      In partner needed ->
      ~ In partner (names_of tables)
      /\ exists t, In t tables /\ In partner (fk_partners (table_name t)).

Lemma add_missing_ok needed partner t :
  In t tables ->
  In partner (fk_partners (table_name t)) ->
  needed_ok needed ->
  needed_ok (add_missing (names_of tables) needed partner).
Proof.
  intros Ht Hp [Hnd Hin]. unfold add_missing.
  destruct (mem partner (names_of tables)) eqn:E; [now split|].
  split; [now apply set_add_NoDup|].
  intros q Hq. apply set_add_In in Hq. destruct Hq as [->|Hq]; [|now apply Hin].
  split; [|now exists t].
  intros Hc. apply mem_In in Hc. congruence.
Qed.

Lemma partners_loop_ok partners needed t :
  In t tables ->
  incl partners (fk_partners (table_name t)) ->
  needed_ok needed ->
  needed_ok (fold_left (add_missing (names_of tables)) partners needed).
Proof.
  intros Ht. revert needed.
  induction partners as [|p ps IH]; intros needed Hps Hok; [exact Hok|].
  simpl. apply IH.
  - intros q Hq. apply Hps. now right.
  - apply (add_missing_ok needed p t Ht); [apply Hps; now left|exact Hok].
Qed.

Lemma tables_loop_ok rest needed :
  incl rest tables ->
  needed_ok needed ->
  needed_ok
    (fold_left
       (fun needed table =>
          fold_left (add_missing (names_of tables)) (fk_partners (table_name table)) needed)
       rest needed).
Proof.
  revert needed. induction rest as [|t rest IH]; intros needed Hrest Hok; [exact Hok|].
  simpl. apply IH.
  - intros t0 Ht0. apply Hrest. now right.
  - apply (partners_loop_ok _ needed t); [apply Hrest; now left|apply incl_refl|exact Hok].
Qed.

Lemma needed_partners_sound : needed_ok (needed_partners tables).
Proof.
  apply (tables_loop_ok tables []); [apply incl_refl|].
  split; [constructor|intros partner []].
Qed.

End NeededSound.

(** The map is one hop deep, so one partner at most is missing: [ORDERS]
    is needed only when it is absent, [CUSTOMERS] only when [ORDERS] is
    present.  The fetch by name is therefore asked for one table, and the
    order in which a set lists its elements plays no part. *)
Lemma needed_partners_at_most_one tables :
  (length (needed_partners tables) <= 1)%nat.
Proof.
  destruct (needed_partners_sound tables) as [Hnd Hin].
  destruct (needed_partners tables) as [|a [|b rest]]; simpl; try lia.
  exfalso.
  destruct (Hin a (or_introl eq_refl)) as (Ha & ta & Hta & Hfa).
  destruct (Hin b (or_intror (or_introl eq_refl))) as (Hb & tb & Htb & Hfb).
  assert (Hab : a <> b).
  { inversion Hnd as [|? ? Hnotin _]; subst. intros ->. apply Hnotin. now left. }
  apply fk_partners_cases in Hfa, Hfb.
  assert (Present : forall t, In t tables -> table_name t = "ORDERS" ->
                              In "ORDERS" (names_of tables)).
  { intros t Ht <-. unfold names_of. now apply in_map. }
  destruct Hfa as [[-> _]|[-> Ea]], Hfb as [[-> _]|[-> Eb]].
  - now apply Hab.
  - apply Ha. now apply (Present tb).
  - apply Hb. now apply (Present ta).
  - now apply Hab.
Qed.

Lemma group_columns_names score rows name :
  In name (map fst rows) ->
  exists t, In t (group_columns score rows)
            /\ table_name t = name /\ relevance_score t = score.
Proof.
  intros H. unfold group_columns.
  assert (K : In name (map fst
                (fold_left (fun d row => upsert (fst row) [] (fun cols => (cols ++ [snd row])%list) d)
                           rows []))).
  { generalize (@nil (string * list ColumnDescriptor)) as d.
    induction rows as [|row rows IH]; intros d; [destruct H|].
    simpl. destruct H as [E|H].
    - apply (fold_left_invariant (fun d => In name (map fst d))).
      + apply upsert_keys. now left.
      + intros a b Ha. apply upsert_keys. now right.
    - now apply IH. }
  apply in_map_iff in K. destruct K as (kv & E & Hkv).
  exists {| table_name := fst kv; columns := snd kv; relevance_score := score |}.
  split; [|now split].
  apply in_map_iff. now exists kv.
Qed.

Lemma direct_matches_score limit rows d :
  In d (direct_matches limit rows) -> relevance_score d = 0.5%float.
Proof.
  unfold direct_matches, _filter_dataset_mixing, slice_to. intros H.
  apply filter_In in H. destruct H as [H _].
  apply firstn_incl in H. apply in_map_iff in H.
  destruct H as (kv & <- & _). reflexivity.
Qed.

(** The rows the fetch by name gets for a partner: the description rows
    when the description query answers with rows, the catalog rows of the
    second query otherwise. *)
Definition partner_fetched {World DataFrame} (session : Session World DataFrame)
           (names : list string) (partner : string) (w : World) : Prop :=
  match descriptions_of session names w with
  | (Returned (row :: rows), _) => In partner (map TABLE_NAME (row :: rows))
  | (_, w1) =>
      match catalog_columns_of session names w1 with
      | (Returned rows, _) => In partner (map CATALOG_TABLE_NAME rows)
      | (Raised _, _) => False
      end
  end.

(** The score the fetch by name gives: 0.4 when the description query
    answers with rows, 0.3 when the rows are those of the catalog. *)
Definition partner_score {World DataFrame} (session : Session World DataFrame)
           (names : list string) (w : World) : float :=
  match descriptions_of session names w with
  | (Returned (_ :: _), _) => 0.4
  | _ => 0.3
  end.

Section Supplement.

Context {World DataFrame : Type}.
Variable session : Session World DataFrame.

Lemma _fetch_tables_by_name_partner names partner w t :
  names <> [] ->
  partner_fetched session names partner w ->
  exists p, In p (fst (_fetch_tables_by_name session names (w, t)))
            /\ table_name p = partner
            /\ relevance_score p = partner_score session names w.
Proof.
  intros Hn Hf. unfold _fetch_tables_by_name.
  destruct names as [|n ns]; [contradiction|]. cbn [is_nil].
  rewrite bind_call. unfold partner_fetched in Hf. unfold partner_score.
  destruct (descriptions_of session (n :: ns) w) as [described w1]. cbn [fst snd].
  assert (Raw :
    match catalog_columns_of session (n :: ns) w1 with
    | (Returned rows, _) => In partner (map CATALOG_TABLE_NAME rows)
    | (Raised _, _) => False
    end ->
    exists p,
      In p (fst ((raw <- call (FetchCatalog (n :: ns)) (catalog_columns_of session (n :: ns)) ;;
                  match raw with
                  | Returned rows => ret (group_columns 0.3 (map catalog_column rows))
                  | Raised _ => ret []
                  end) (w1, (t ++ [FetchDescriptions (n :: ns)])%list)))
      /\ table_name p = partner
      /\ relevance_score p = 0.3%float).
  { intros Hc. rewrite bind_call.
    destruct (catalog_columns_of session (n :: ns) w1) as [[msg|rows] w2]; [destruct Hc|].
    cbn [fst snd]. unfold ret. cbn [fst].
    destruct (group_columns_names 0.3 (map catalog_column rows) partner) as (p & Hp & E1 & E2).
    { rewrite map_map. exact Hc. }
    exists p. auto. }
  destruct described as [msg|[|row rows]]; try (apply Raw; exact Hf).
  unfold ret. cbn [fst].
  destruct (group_columns_names 0.4 (map described_column (row :: rows)) partner)
    as (p & Hp & E1 & E2).
  { rewrite map_map. exact Hf. }
  exists p. auto.
Qed.

End Supplement.

(** C5. The keyword tier is reached (the search raised an error that
    does not end the call), it matched a table [t] one of whose partners
    in [FK_PARTNERS] is not among the directly matched tables, and the
    fetch by name gets rows for that partner.  Then the context returned
    by [link_schema] holds every directly matched table and a table named
    after the partner whose score, 0.4 when its rows are description rows
    and 0.3 when they are catalog rows, is strictly below the score of
    each directly matched table. *)
Theorem fk_partner_supplemented :
  forall (World DataFrame : Type) (session : Session World DataFrame)
         (question : string) (limit : Z) (w0 w1 w2 : World) (error_msg : string)
         (rows : list KeywordRow) (t : TableContext) (partner : string),
    blank question = false ->
    search_preview session question (coerced_limit limit * 10) w0 = (Raised error_msg, w1) ->
    says_descriptions_missing error_msg = false ->
    keyword_query session (keywords_of question) (coerced_limit limit * 15) w1
    = (Returned rows, w2) ->
    In t (direct_matches (coerced_limit limit) rows) ->
    In partner (fk_partners (table_name t)) ->
    ~ In partner (names_of (direct_matches (coerced_limit limit) rows)) ->
    partner_fetched session (needed_partners (direct_matches (coerced_limit limit) rows))
                    partner w2 ->
    exists p,
      In p (Agent.result_of (link_schema session question limit) w0)
      /\ table_name p = partner
      /\ relevance_score p
         = partner_score session (needed_partners (direct_matches (coerced_limit limit) rows)) w2
      /\ (relevance_score p = 0.4%float \/ relevance_score p = 0.3%float)
      /\ forall d,
          In d (direct_matches (coerced_limit limit) rows) ->
          In d (Agent.result_of (link_schema session question limit) w0)
          /\ PrimFloat.ltb (relevance_score p) (relevance_score d) = true.
Proof.
  intros World DataFrame session question limit w0 w1 w2 msg rows t partner
         Hq Hs Hmsg Hk Ht Hp Habsent Hfetch.
  pose proof (needed_partners_complete _ _ _ Ht Hp Habsent) as Hneeded.
  assert (R : Agent.result_of (link_schema session question limit) w0
              = fst (_fallback_keyword_search session question (coerced_limit limit)
                       (w1, [Search question (coerced_limit limit * 10)]))).
  { unfold Agent.result_of, Agent.run_from, link_schema. rewrite Hq. cbv zeta.
    fold (coerced_limit limit). rewrite bind_call, Hs. cbn [fst snd app].
    unfold says_descriptions_missing, says_service_missing in Hmsg.
    destruct (contains "does not exist" (lower msg) && contains "schema_search_service" (lower msg));
      [reflexivity|].
    simpl in Hmsg. now rewrite Hmsg. }
  rewrite R. clear R.
  unfold _fallback_keyword_search. cbv zeta. rewrite bind_call, Hk. cbn [fst snd].
  destruct rows as [|row rows].
  { unfold direct_matches, slice_to in Ht. simpl in Ht. rewrite firstn_nil in Ht. destruct Ht. }
  fold (direct_matches (coerced_limit limit) (row :: rows)).
  set (direct := direct_matches (coerced_limit limit) (row :: rows)) in *.
  unfold _supplement_related_tables. cbv zeta.
  destruct (needed_partners direct) as [|n ns] eqn:En; [destruct Hneeded|].
  cbn [is_nil]. unfold bind.
  match goal with
  | |- context [_fetch_tables_by_name session (n :: ns) (?w, ?tr)] =>
      destruct (_fetch_tables_by_name_partner session (n :: ns) partner w tr)
        as (p & Hin & Hname & Hscore); [discriminate|exact Hfetch|];
      destruct (_fetch_tables_by_name session (n :: ns) (w, tr)) as [partners s']
  end.
  cbn [fst] in Hin. unfold ret. cbn [fst].
  assert (Hcases : relevance_score p = 0.4%float \/ relevance_score p = 0.3%float).
  { rewrite Hscore. unfold partner_score.
    destruct (descriptions_of session (n :: ns) w2) as [[msg'|[|row' rows']] w3]; auto. }
  exists p. split; [apply in_or_app; now right|].
  split; [assumption|]. split; [assumption|]. split; [assumption|].
  intros d Hd. split; [apply in_or_app; now left|].
  rewrite (direct_matches_score _ _ _ Hd).
  destruct Hcases as [-> | ->]; reflexivity.
Qed.

Lemma fk_partner_supplemented_witness :
  let session :=
    Script.linker (Raised missing_service_error)
                  (Returned [ Script.matching "ORDER_ITEMS" "PRICE" 1 ])
                  (Returned [ Script.described "ORDERS" "ORDER_ID" ])
                  Script.unavailable Script.unavailable in
  let direct := direct_matches (coerced_limit 5) [ Script.matching "ORDER_ITEMS" "PRICE" 1 ] in
  exists p,
    In p (Agent.result_of (link_schema session "What is the total price?" 5) 0%nat)
    /\ table_name p = "ORDERS"
    /\ relevance_score p = partner_score session (needed_partners direct) 2%nat
    /\ (relevance_score p = 0.4%float \/ relevance_score p = 0.3%float)
    /\ forall d,
        In d direct ->
        In d (Agent.result_of (link_schema session "What is the total price?" 5) 0%nat)
        /\ PrimFloat.ltb (relevance_score p) (relevance_score d) = true.
Proof.
  intros session direct.
  apply (fk_partner_supplemented
           nat unit session "What is the total price?" 5 0%nat 1%nat 2%nat
           missing_service_error [ Script.matching "ORDER_ITEMS" "PRICE" 1 ]
           {| table_name := "ORDER_ITEMS";
              columns := [ {| column_name := "PRICE"; description := "";
                              data_type := "VARCHAR"; synonyms := "" |} ];
              relevance_score := 0.5 |}
           "ORDERS").
  - reflexivity.
  - reflexivity.
  - reflexivity.
  - reflexivity.
  - vm_compute. left. reflexivity.
  - vm_compute. left. reflexivity.
  - vm_compute. intros [H|[]]. discriminate H.
  - vm_compute. left. reflexivity.
Defined.

(** ** The retry loop *)

Section RetryLoop.

Context {World DataFrame : Type}.
Variable build_prompt : string -> SchemaContext -> list GoldenExample -> string.
Variable session : Session World DataFrame.

(** The generator returns the empty string or a string that is not
    blank. *)
Lemma generate_sql_blank_is_empty question schema_context golden_examples s :
  blank (fst (generate_sql build_prompt session question schema_context golden_examples s)) = true ->
  fst (generate_sql build_prompt session question schema_context golden_examples s) = "".
Proof.
  unfold generate_sql. destruct (blank question); [reflexivity|].
  destruct (is_nil schema_context); [reflexivity|].
  destruct s as [w t]. cbv zeta. rewrite bind_call. unfold ret. cbn [fst snd].
  destruct (fst (cortex_complete session
                   (build_prompt question schema_context golden_examples) w))
    as [msg|[|[generated_text|] others]]; try reflexivity.
  destruct (blank generated_text); [reflexivity|].
  destruct (blank (_extract_sql generated_text)) eqn:E; [reflexivity|].
  intros H. rewrite E in H. discriminate.
Qed.

Lemma _retry_with_error_feedback_result question schema_context error_message previous_sql s :
  _retry_with_error_feedback build_prompt session question schema_context
                             error_message previous_sql s
  = let generated :=
      generate_sql build_prompt session
                   (enriched_question question error_message previous_sql)
                   schema_context [] s in
    (if is_empty (fst generated) then previous_sql else fst generated, snd generated).
Proof.
  unfold _retry_with_error_feedback, bind, ret. cbv zeta.
  pose proof (generate_sql_blank_is_empty
                (enriched_question question error_message previous_sql)
                schema_context [] s) as H.
  destruct (generate_sql build_prompt session
                         (enriched_question question error_message previous_sql)
                         schema_context [] s) as [new_sql s'].
  cbn [fst snd] in *.
  destruct (blank new_sql) eqn:E.
  - rewrite (H eq_refl). reflexivity.
  - destruct new_sql; [discriminate E|reflexivity].
Qed.

End RetryLoop.

(** C8. One pass through the loop body with retries left
    ([attempt < max_retries]) either returns the result of a successful
    execution, or regenerates: the generator is called with the enriched
    question and the same schema context, [attempt] goes up by one, and
    [current_sql] becomes the regenerated SQL when that is not empty and
    stays the failed SQL when it is empty. *)
Theorem retry_step_updates_state :
  forall (World DataFrame : Type)
         (build_prompt : string -> SchemaContext -> list GoldenExample -> string)
         (session : Session World DataFrame) (question : string)
         (schema_context : SchemaContext) (max_retries : Z)
         (st : RetryState) (s s' : World * Trace) (step : Step DataFrame),
    (attempt st < max_retries)%Z ->
    iteration build_prompt session question schema_context max_retries st s = (step, s') ->
    (exists rows, step = Return (current_sql st) (Success rows))
    \/ exists error_message s1 new_sql st',
        generate_sql build_prompt session
                     (enriched_question question error_message (current_sql st))
                     schema_context [] s1 = (new_sql, s')
        /\ step = Continue st'
        /\ attempt st' = (attempt st + 1)%Z
        /\ (new_sql <> "" -> current_sql st' = new_sql)
        /\ (new_sql = "" -> current_sql st' = current_sql st).
Proof.
  intros World DataFrame build_prompt session question schema N st [w t] s' step Hlt.
  apply Z.ltb_lt in Hlt.
  unfold iteration, _validate_sql, _execute_sql. rewrite Hlt.
  unfold bind at 1, emit. cbn [fst snd].
  unfold bind at 1. rewrite bind_call. unfold ret at 1.
  destruct (explain session (current_sql st) w) as [[msg|[]] w1]; cbn [fst snd].
  - (* validation failed *)
    unfold bind. rewrite _retry_with_error_feedback_result. cbv zeta.
    intros E. right.
    match type of E with
    | context [generate_sql _ _ ?q _ _ ?s1] =>
        destruct (generate_sql build_prompt session q schema [] s1) as [new_sql s2] eqn:G;
          exists (_extract_error_message msg), s1, new_sql
    end.
    cbn [fst snd] in E. inversion E; subst. eexists. split; [exact G|].
    split; [reflexivity|]. cbn [attempt current_sql]. split; [reflexivity|].
    split; intros Hn.
    + destruct new_sql; [contradiction|reflexivity].
    + now subst.
  - (* validation passed *)
    unfold bind at 1. rewrite bind_call. unfold ret at 1.
    destruct (run session (current_sql st) w1) as [[msg|rows] w2]; cbn [fst snd].
    + unfold bind. rewrite _retry_with_error_feedback_result. cbv zeta.
      intros E. right.
      match type of E with
      | context [generate_sql _ _ ?q _ _ ?s1] =>
          destruct (generate_sql build_prompt session q schema [] s1) as [new_sql s2] eqn:G;
            exists (_extract_error_message msg), s1, new_sql
      end.
      cbn [fst snd] in E. inversion E; subst. eexists. split; [exact G|].
      split; [reflexivity|]. cbn [attempt current_sql]. split; [reflexivity|].
      split; intros Hn.
      * destruct new_sql; [contradiction|reflexivity].
      * now subst.
    + unfold ret. intros E. inversion E; subst. left. now exists rows.
Qed.

Lemma retry_step_updates_state_witness :
  let session :=
    Script.warehouse (fun _ => Returned [Some "SELECT ORDER_ID FROM ORDERS;"])
                     (fun _ _ => Raised "SQL compilation error: invalid identifier 'X'")
                     (fun _ => Returned tt) in
  let st := initial_state "SELECT X FROM ORDERS" in
  let pass := iteration Script.prompt session "How many orders?" orders_only 1 st (0%nat, []) in
  (attempt st < 1)%Z
  /\ fst pass = Continue {| attempt := 1;
                            last_error := Some "SQL compilation error: invalid identifier 'X'";
                            current_sql := "SELECT ORDER_ID FROM ORDERS" |}
  /\ ((exists rows, fst pass = Return (current_sql st) (Success rows))
      \/ exists error_message s1 new_sql st',
          generate_sql Script.prompt session
                       (enriched_question "How many orders?" error_message (current_sql st))
                       orders_only [] s1 = (new_sql, snd pass)
          /\ fst pass = Continue st'
          /\ attempt st' = (attempt st + 1)%Z
          /\ (new_sql <> "" -> current_sql st' = new_sql)
          /\ (new_sql = "" -> current_sql st' = current_sql st)).
Proof.
  intros session st pass. split; [reflexivity|]. split; [vm_compute; reflexivity|].
  apply (retry_step_updates_state nat unit Script.prompt session "How many orders?"
                                  orders_only 1 st (0%nat, []) (snd pass) (fst pass)).
  - reflexivity.
  - apply surjective_pairing.
Defined.

(** ** Bound on the attempts *)

Lemma count_app p (t1 t2 : Trace) : count p (t1 ++ t2) = (count p t1 + count p t2)%nat.
Proof. unfold count. now rewrite filter_app, length_app. Qed.

Lemma printed_attempts_app (t1 t2 : Trace) :
  printed_attempts (t1 ++ t2) = (printed_attempts t1 ++ printed_attempts t2)%list.
Proof.
  induction t1 as [|e t1 IH]; simpl; [reflexivity|].
  destruct e; simpl; now rewrite ?IH.
Qed.

Lemma completions_only (d : Trace) :
  Forall (fun e => is_completion e = true) d ->
  count is_explain d = 0%nat /\ count is_run d = 0%nat /\ printed_attempts d = [].
Proof.
  induction 1 as [|e d He Hd (IH1 & IH2 & IH3)]; [now repeat split|].
  destruct e; try discriminate He. unfold count in *. simpl. auto.
Qed.

(** The attempt numbers [start, start + 1, ...], [k] of them. *)
Fixpoint consecutive (start : Z) (k : nat) : list Z :=
  match k with
  | O => []
  | S k' => start :: consecutive (start + 1) k'
  end.

(** The passes the loop can still make from a state. *)
Definition passes_left (max_retries : Z) (st : RetryState) : nat :=
  Z.to_nat (max_retries + 1 - attempt st).

Section Bound.

Context {World DataFrame : Type}.
Variable build_prompt : string -> SchemaContext -> list GoldenExample -> string.
Variable session : Session World DataFrame.
Variable question : string.
Variable schema_context : SchemaContext.
Variable max_retries : Z.

Lemma _retry_with_error_feedback_traced error_message previous_sql :
  traced (fun e => is_completion e = true)
         (_retry_with_error_feedback build_prompt session question schema_context
                                     error_message previous_sql).
Proof.
  unfold _retry_with_error_feedback. apply traced_bind.
  - apply generate_sql_traced.
  - intros new_sql. apply traced_ret.
Qed.

(** One pass: it prints its attempt number, explains once, runs at most
    once, and a pass that continues has raised [attempt] by one. *)
Lemma iteration_pass st w t :
  exists step w' d,
    iteration build_prompt session question schema_context max_retries st (w, t)
    = (step, (w', (t ++ PrintAttempt (attempt st + 1) :: d)%list))
    /\ count is_explain d = 1%nat
    /\ (count is_run d <= 1)%nat
    /\ printed_attempts d = []
    /\ forall st', step = Continue st' -> attempt st' = (attempt st + 1)%Z.
Proof.
  unfold iteration, _validate_sql, _execute_sql.
  unfold bind at 1, emit. cbn [fst snd].
  unfold bind at 1. rewrite bind_call. unfold ret at 1.
  set (t1 := (t ++ [PrintAttempt (attempt st + 1)])%list).
  assert (Et : forall d, ((t1 ++ [Explain (current_sql st)]) ++ d)%list
                         = (t ++ PrintAttempt (attempt st + 1) :: Explain (current_sql st) :: d)%list).
  { intros d. unfold t1. now rewrite <- !app_assoc. }
  assert (Retry : forall error_message last w1 (t2 d2 : Trace),
             count is_explain d2 = 1%nat -> (count is_run d2 <= 1)%nat ->
             printed_attempts d2 = [] ->
             (forall d, (t2 ++ d)%list = (t ++ PrintAttempt (attempt st + 1) :: d2 ++ d)%list) ->
             exists step w' d,
               (new_sql <- _retry_with_error_feedback build_prompt session question schema_context
                                                      error_message (current_sql st) ;;
                ret (Continue (DataFrame := DataFrame)
                              {| attempt := attempt st + 1;
                                 last_error := Some last;
                                 current_sql := new_sql |})) (w1, t2)
               = (step, (w', (t ++ PrintAttempt (attempt st + 1) :: d)%list))
               /\ count is_explain d = 1%nat
               /\ (count is_run d <= 1)%nat
               /\ printed_attempts d = []
               /\ forall st', step = Continue st' -> attempt st' = (attempt st + 1)%Z).
  { intros error_message last w1 t2 d2 H1 H2 H3 H4.
    destruct (_retry_with_error_feedback_traced error_message (current_sql st) w1)
      as (new_sql & w2 & d & Hd & E).
    destruct (completions_only d Hd) as (C1 & C2 & C3).
    unfold bind, ret. rewrite E.
    eexists _, w2, (d2 ++ d)%list. split; [now rewrite H4|].
    rewrite !count_app, printed_attempts_app, C1, C2, C3, H3.
    repeat split; try lia.
    intros st' Hst. inversion Hst; subst. reflexivity. }
  destruct (explain session (current_sql st) w) as [[msg|[]] w1]; cbn [fst snd].
  - destruct (attempt st <? max_retries)%Z.
    + apply (Retry _ _ w1 _ [Explain (current_sql st)]);
        [reflexivity|unfold count; simpl; lia|reflexivity|exact Et].
    + unfold ret. eexists _, w1, [Explain (current_sql st)].
      split; [unfold t1; now rewrite <- ?app_assoc|].
      repeat split; try reflexivity; try (unfold count; simpl; lia);
        intros st' Hst; discriminate Hst.
  - unfold bind at 1. rewrite bind_call. unfold ret at 1.
    assert (Et2 : forall d, (((t1 ++ [Explain (current_sql st)]) ++ [Run (current_sql st)]) ++ d)%list
                            = (t ++ PrintAttempt (attempt st + 1)
                                 :: [Explain (current_sql st); Run (current_sql st)] ++ d)%list).
    { intros d. unfold t1. rewrite <- !app_assoc. reflexivity. }
    destruct (run session (current_sql st) w1) as [[msg|rows] w2]; cbn [fst snd].
    + destruct (attempt st <? max_retries)%Z.
      * apply (Retry _ _ w2 _ [Explain (current_sql st); Run (current_sql st)]);
          [reflexivity|unfold count; simpl; lia|reflexivity|exact Et2].
      * unfold ret. eexists _, w2, [Explain (current_sql st); Run (current_sql st)].
        split; [unfold t1; now rewrite <- ?app_assoc|].
        repeat split; try reflexivity; try (unfold count; simpl; lia);
        intros st' Hst; discriminate Hst.
    + unfold ret. eexists _, w2, [Explain (current_sql st); Run (current_sql st)].
      split; [unfold t1; now rewrite <- ?app_assoc|].
      repeat split; try reflexivity; try (unfold count; simpl; lia);
        intros st' Hst; discriminate Hst.
Qed.

(** With fuel for the passes left, the loop returns, and it explains and
    runs at most once per pass left; the attempt numbers it prints are
    consecutive. *)
Lemma retry_loop_bounded fuel :
  forall st w t,
    (passes_left max_retries st <= fuel)%nat ->
    exists result w' d k,
      retry_loop build_prompt fuel session question schema_context max_retries st (w, t)
      = (Some result, (w', (t ++ d)%list))
      /\ (count is_explain d <= passes_left max_retries st)%nat
      /\ (count is_run d <= passes_left max_retries st)%nat
      /\ (k <= passes_left max_retries st)%nat
      /\ printed_attempts d = consecutive (attempt st + 1) k.
Proof.
  induction fuel as [|fuel IH]; intros st w t Hfuel.
  - unfold retry_loop. unfold passes_left in Hfuel.
    destruct (attempt st <=? max_retries)%Z eqn:E.
    + apply Z.leb_le in E. lia.
    + exists (current_sql st, Failure (error_or_unknown (last_error st))), w, [], 0%nat.
      unfold ret. rewrite app_nil_r. unfold count. simpl. repeat split; lia.
  - cbn [retry_loop]. destruct (attempt st <=? max_retries)%Z eqn:E.
    + apply Z.leb_le in E.
      destruct (iteration_pass st w t) as (step & w1 & d1 & E1 & X1 & R1 & P1 & Hnext).
      unfold bind. rewrite E1.
      assert (Hleft : passes_left max_retries st = S (Z.to_nat (max_retries - attempt st))).
      { unfold passes_left. lia. }
      destruct step as [st'|final_sql result].
      * specialize (Hnext st' eq_refl).
        destruct (IH st' w1 (t ++ PrintAttempt (attempt st + 1) :: d1)%list)
          as (result & w2 & d2 & k & E2 & X2 & R2 & K2 & P2).
        { unfold passes_left in *. lia. }
        assert (Hleft' : passes_left max_retries st' = Z.to_nat (max_retries - attempt st)).
        { unfold passes_left. rewrite Hnext. f_equal. lia. }
        exists result, w2, (PrintAttempt (attempt st + 1) :: d1 ++ d2)%list, (S k).
        split.
        { rewrite E2. now rewrite <- app_assoc. }
        change (PrintAttempt (attempt st + 1) :: d1 ++ d2)%list
          with ([PrintAttempt (attempt st + 1)] ++ d1 ++ d2)%list.
        rewrite !count_app, !printed_attempts_app, P1, P2, Hnext.
        change (count is_explain [PrintAttempt (attempt st + 1)]) with 0%nat.
        change (count is_run [PrintAttempt (attempt st + 1)]) with 0%nat.
        cbn [printed_attempts app consecutive]. repeat split; lia.
      * exists (final_sql, result), w1, (PrintAttempt (attempt st + 1) :: d1)%list, 1%nat.
        split; [reflexivity|].
        change (PrintAttempt (attempt st + 1) :: d1)%list
          with ([PrintAttempt (attempt st + 1)] ++ d1)%list.
        rewrite !count_app, !printed_attempts_app, P1.
        change (count is_explain [PrintAttempt (attempt st + 1)]) with 0%nat.
        change (count is_run [PrintAttempt (attempt st + 1)]) with 0%nat.
        cbn [printed_attempts app consecutive]. repeat split; lia.
    + exists (current_sql st, Failure (error_or_unknown (last_error st))), w, [], 0%nat.
      unfold ret. rewrite app_nil_r. unfold count. simpl. repeat split; lia.
Qed.

(** Fuel beyond the passes left changes nothing. *)
Lemma retry_loop_fuel fuel1 :
  forall fuel2 st s,
    (passes_left max_retries st <= fuel1)%nat ->
    (passes_left max_retries st <= fuel2)%nat ->
    retry_loop build_prompt fuel1 session question schema_context max_retries st s
    = retry_loop build_prompt fuel2 session question schema_context max_retries st s.
Proof.
  induction fuel1 as [|fuel1 IH]; intros fuel2 st [w t] H1 H2.
  - destruct fuel2 as [|fuel2]; [reflexivity|].
    cbn [retry_loop]. unfold passes_left in H1.
    destruct (attempt st <=? max_retries)%Z eqn:E; [|reflexivity].
    apply Z.leb_le in E. lia.
  - cbn [retry_loop]. destruct (attempt st <=? max_retries)%Z eqn:E.
    + apply Z.leb_le in E.
      destruct fuel2 as [|fuel2]; [unfold passes_left in H2; lia|].
      cbn [retry_loop]. apply Z.leb_le in E. rewrite E. apply Z.leb_le in E.
      destruct (iteration_pass st w t) as (step & w1 & d1 & E1 & _ & _ & _ & Hnext).
      unfold bind. rewrite E1.
      destruct step as [st'|final_sql result]; [|reflexivity].
      specialize (Hnext st' eq_refl).
      apply IH; unfold passes_left in *; lia.
    + destruct fuel2 as [|fuel2]; cbn [retry_loop]; now rewrite E.
Qed.

End Bound.

(** C1. Retry bound.  For [max_retries = N >= 0], a call of
    [validate_and_execute] returns a final SQL text with a success or a
    failure; its trace holds at most [N + 1] explain calls and at most
    [N + 1] run calls; the attempt numbers printed at the head of the
    loop body are [1, 2, ..., k] for some [k <= N + 1], so the counter
    only goes up. *)
Theorem retry_bound :
  forall (World DataFrame : Type)
         (build_prompt : string -> SchemaContext -> list GoldenExample -> string)
         (session : Session World DataFrame) (sql question : string)
         (schema_context : SchemaContext) (N : Z) (w : World),
    (0 <= N)%Z ->
    exists final_sql outcome w' t k,
      Agent.run_from
        (validate_and_execute build_prompt session sql question schema_context N) w
      = (Some (final_sql, outcome), (w', t))
      /\ ((exists rows, outcome = Success rows) \/ (exists message, outcome = Failure message))
      /\ (Z.of_nat (count is_explain t) <= N + 1)%Z
      /\ (Z.of_nat (count is_run t) <= N + 1)%Z
      /\ printed_attempts t = consecutive 1 k
      /\ (Z.of_nat k <= N + 1)%Z.
Proof.
  intros World DataFrame build_prompt session sql question schema N w HN.
  unfold Agent.run_from, validate_and_execute.
  destruct (blank sql).
  - exists sql, (Failure empty_sql_message), w, [], 0%nat.
    unfold ret, count. simpl. repeat split; try lia. right. eauto.
  - assert (E : (N <? 0)%Z = false) by (apply Z.ltb_ge; lia).
    rewrite E.
    destruct (retry_loop_bounded build_prompt session question schema N
                                 (S (Z.to_nat N)) (initial_state sql) w [])
      as ([final_sql outcome] & w' & d & k & Eq & X & R & K & P).
    { unfold passes_left, initial_state. simpl. lia. }
    exists final_sql, outcome, w', d, k.
    unfold passes_left, initial_state in *. cbn [attempt] in *.
    split; [exact Eq|].
    split; [destruct outcome; eauto|].
    repeat split; try lia. exact P.
Qed.

Lemma retry_bound_witness :
  let session :=
    Script.warehouse (fun _ => Returned [Some "SELECT ORDER_ID FROM ORDERS;"])
                     (fun _ _ => Raised "SQL compilation error: invalid identifier 'X'")
                     (fun _ => Returned tt) in
  (0 <= 2)%Z
  /\ Agent.trace_of
       (validate_and_execute Script.prompt session "SELECT X FROM ORDERS"
                             "How many orders?" orders_only 2) 0%nat
     = [ PrintAttempt 1; Explain "SELECT X FROM ORDERS";
         Complete (enriched_question "How many orders?"
                     "SQL compilation error: invalid identifier 'X'" "SELECT X FROM ORDERS");
         PrintAttempt 2; Explain "SELECT ORDER_ID FROM ORDERS";
         Complete (enriched_question "How many orders?"
                     "SQL compilation error: invalid identifier 'X'" "SELECT ORDER_ID FROM ORDERS");
         PrintAttempt 3; Explain "SELECT ORDER_ID FROM ORDERS" ]
  /\ exists final_sql outcome w' t k,
      Agent.run_from
        (validate_and_execute Script.prompt session "SELECT X FROM ORDERS"
                              "How many orders?" orders_only 2) 0%nat
      = (Some (final_sql, outcome), (w', t))
      /\ ((exists rows, outcome = Success rows) \/ (exists message, outcome = Failure message))
      /\ (Z.of_nat (count is_explain t) <= 2 + 1)%Z
      /\ (Z.of_nat (count is_run t) <= 2 + 1)%Z
      /\ printed_attempts t = consecutive 1 k
      /\ (Z.of_nat k <= 2 + 1)%Z.
Proof.
  intros session. split; [lia|]. split; [vm_compute; reflexivity|].
  apply (retry_bound nat unit Script.prompt session "SELECT X FROM ORDERS"
                     "How many orders?" orders_only 2 0%nat).
  lia.
Defined.

(** ** The patterns as scans

    What the run of each pattern of the cleaning step and of the code
    fence finds, written as a direct scan of the text. *)

Module Scan.

Fixpoint startswith_nocase (p s : string) : bool :=
  match p, s with
  | EmptyString, _ => true
  | String a p', String b s' => eqb_nocase a b && startswith_nocase p' s'
  | String _ _, EmptyString => false
  end.

Definition fence : string := "```".

(** [```(?:sql)?]: the optional tag is greedy and nothing follows it, so
    it is taken when it is there. *)
Definition m_fence_marker (s : string) : option nat :=
  if startswith fence s
  then Some (if startswith_nocase "sql" (drop 3 s) then 6 else 3)%nat
  else None.

Fixpoint run_length (p : ascii -> bool) (s : string) : nat :=
  match s with
  | EmptyString => O
  | String c r => if p c then S (run_length p r) else O
  end.

(** [[ \t]+]: the whole run. *)
Definition m_hspace (s : string) : option nat :=
  match run_length is_hspace s with
  | O => None
  | n => Some n
  end.

(** [\s*\n] at the head of [s]: the number of characters up to and
    including the last newline of the leading whitespace. *)
Fixpoint ws_then_nl (s : string) : option nat :=
  match s with
  | EmptyString => None
  | String c r =>
      if is_space c
      then match ws_then_nl r with
           | Some n => Some (S n)
           | None => if Ascii.eqb c nl then Some 1%nat else None
           end
      else None
  end.

(** [\n\s*\n]. *)
Definition m_blank_lines (s : string) : option nat :=
  match s with
  | String c r =>
      if Ascii.eqb c nl then option_map S (ws_then_nl r) else None
  | EmptyString => None
  end.

(** [\s*```] at the head of [s]. *)
Fixpoint closes_fence (s : string) : bool :=
  match s with
  | EmptyString => false
  | String c r => (is_space c && closes_fence r) || startswith fence s
  end.

(** [(.*?)\s*```] at the head of [s]: the lazy group grows one character
    at a time until the rest closes the fence. *)
Fixpoint lazy_group (s : string) : option string :=
  if closes_fence s then Some EmptyString
  else match s with
       | EmptyString => None
       | String c r => option_map (String c) (lazy_group r)
       end.

(** [\s*(.*?)\s*```] at the head of [s]. *)
Fixpoint ws_group (s : string) : option string :=
  match s with
  | EmptyString => lazy_group s
  | String c r =>
      if is_space c
      then match ws_group r with
           | Some g => Some g
           | None => lazy_group s
           end
      else lazy_group s
  end.

(** [```(?:sql)?\s*(.*?)\s*```] at the head of [s]: group 1. *)
Definition m_code_fence (s : string) : option string :=
  if startswith fence s then
    let r := drop 3 s in
    match (if startswith_nocase "sql" r then ws_group (drop 3 r) else None) with
    | Some g => Some g
    | None => ws_group r
    end
  else None.

Fixpoint search_code_fence (s : string) : option string :=
  match m_code_fence s with
  | Some g => Some g
  | None => match s with
            | EmptyString => None
            | String _ r => search_code_fence r
            end
  end.

End Scan.

Import Scan.

(** ** Strings: stripping *)

Lemma lstrip_by_all p ws s :
  all_chars p ws = true -> lstrip_by p (ws ++ s) = lstrip_by p s.
Proof.
  induction ws as [|c ws IH]; simpl; [reflexivity|].
  intros H. apply andb_prop in H. destruct H as [Hc Hws]. rewrite Hc. auto.
Qed.

Lemma rstrip_by_all p ws : all_chars p ws = true -> rstrip_by p ws = "".
Proof.
  induction ws as [|c ws IH]; simpl; [reflexivity|].
  intros H. apply andb_prop in H. destruct H as [Hc Hws].
  rewrite (IH Hws), Hc. reflexivity.
Qed.

Lemma rstrip_by_app p a b :
  rstrip_by p b <> "" -> rstrip_by p (a ++ b) = a ++ rstrip_by p b.
Proof.
  intros Hb. induction a as [|c a IH]; simpl; [reflexivity|].
  rewrite IH. destruct (a ++ rstrip_by p b) eqn:E; [|reflexivity].
  destruct a; simpl in E; [contradiction|discriminate].
Qed.

Lemma rstrip_by_app_all p a ws :
  all_chars p ws = true -> rstrip_by p (a ++ ws) = rstrip_by p a.
Proof.
  intros Hws. induction a as [|c a IH]; simpl.
  - now apply rstrip_by_all.
  - now rewrite IH.
Qed.

Lemma append_nil_r s : s ++ "" = s.
Proof. induction s as [|c s IH]; simpl; [reflexivity|now rewrite IH]. Qed.

Lemma append_assoc (a b c : string) : (a ++ b) ++ c = a ++ b ++ c.
Proof. induction a as [|x a IH]; simpl; [reflexivity|now rewrite IH]. Qed.

(** ** The scans are what the runs find *)

Lemma eqb_nocase_tick c : eqb_nocase "`" c = Ascii.eqb "`" c.
Proof. destruct c as [[] [] [] [] [] [] [] []]; reflexivity. Qed.

Lemma startswith_nocase_fence s : startswith_nocase fence s = startswith fence s.
Proof.
  destruct s as [|c1 [|c2 [|c3 r]]]; unfold fence; cbn [startswith_nocase startswith];
    now rewrite ?eqb_nocase_tick.
Qed.

(** The cursor after the characters of [t]. *)
Fixpoint advance_over (t : string) (cu : cursor) : cursor :=
  match t with
  | EmptyString => cu
  | String c r => advance_over r (advance c cu)
  end.

Lemma pos_advance_over t cu : pos (advance_over t cu) = (pos cu + String.length t)%nat.
Proof.
  revert cu. induction t as [|c r IH]; intros cu; simpl; [lia|].
  rewrite IH. simpl. lia.
Qed.

Lemma group1_advance_over t cu : group1 (advance_over t cu) = group1 cu.
Proof. revert cu. induction t as [|c r IH]; intros cu; simpl; [reflexivity|]. now rewrite IH. Qed.

Lemma length_take_startswith p s :
  startswith_nocase p s = true -> String.length (take (String.length p) s) = String.length p.
Proof.
  revert s. induction p as [|a p IH]; intros [|c s] H; simpl in *; try reflexivity;
    try discriminate.
  apply andb_prop in H. destruct H as [_ H]. now rewrite (IH s H).
Qed.

Lemma run_lit_nocase {A} p cu s (k : continuation (A := A)) :
  backtrack (lit_nocase p) cu s k
  = if startswith_nocase p s
    then k (advance_over (take (String.length p) s) cu) (drop (String.length p) s)
    else None.
Proof.
  revert cu s. induction p as [|a p IH]; intros cu s; [reflexivity|].
  cbn [lit_nocase backtrack]. destruct s as [|c s]; [reflexivity|].
  cbn [startswith_nocase String.length take drop advance_over].
  destruct (eqb_nocase a c); [apply IH|reflexivity].
Qed.

Lemma backtrack_seq {A} a b cu s (k : continuation (A := A)) :
  backtrack (Seq a b) cu s k = backtrack a cu s (fun cu' s' => backtrack b cu' s' k).
Proof. reflexivity. Qed.

Lemma backtrack_chr {A} p cu s (k : continuation (A := A)) :
  backtrack (Chr p) cu s k
  = match s with
    | String c s' => if p c then k (advance c cu) s' else None
    | EmptyString => None
    end.
Proof. reflexivity. Qed.

Lemma backtrack_star {A} p cu s (k : continuation (A := A)) :
  backtrack (Star p) cu s k = star_greedy p cu s k.
Proof. reflexivity. Qed.

Lemma backtrack_opt {A} a cu s (k : continuation (A := A)) :
  backtrack (Opt a) cu s k
  = match backtrack a cu s k with
    | Some x => Some x
    | None => k cu s
    end.
Proof. reflexivity. Qed.

Lemma backtrack_group_lazy {A} p cu s (k : continuation (A := A)) :
  backtrack (Group (LazyStar p)) cu s k
  = star_lazy p cu s
              (fun cu' s' =>
                 k {| pos := pos cu'; prev_word := prev_word cu';
                      group1 := Some (take (pos cu' - pos cu) s) |} s').
Proof. reflexivity. Qed.

Lemma re_sub_from_ext m m' repl :
  (forall s, m s = m' s) ->
  forall s skip, re_sub_from m repl skip s = re_sub_from m' repl skip s.
Proof.
  intros H. induction s as [|c r IH]; intros skip; [reflexivity|].
  cbn [re_sub_from]. destruct skip as [|k]; [|apply IH].
  rewrite H. destruct (m' (String c r)) as [[|k]|]; now rewrite IH.
Qed.

Lemma re_sub_ext m m' repl s :
  (forall s, m s = m' s) -> re_sub m repl s = re_sub m' repl s.
Proof. intros H. unfold re_sub. now apply re_sub_from_ext. Qed.

(** [```(?:sql)?] *)
Lemma fence_marker_scan s : match_length FENCE_MARKER s = m_fence_marker s.
Proof.
  unfold match_length, match_at, FENCE_MARKER, m_fence_marker. cbn [backtrack].
  rewrite run_lit_nocase, startswith_nocase_fence.
  destruct (startswith fence s) eqn:E1; [|reflexivity].
  rewrite run_lit_nocase.
  rewrite <- startswith_nocase_fence in E1.
  pose proof (length_take_startswith _ _ E1) as L1.
  unfold fence in L1. cbn [String.length] in *.
  destruct (startswith_nocase "sql" (drop 3 s)) eqn:E2.
  - pose proof (length_take_startswith _ _ E2) as L2. cbn [String.length] in L2.
    cbn [option_map]. rewrite !pos_advance_over, L1, L2. reflexivity.
  - cbn [option_map]. rewrite pos_advance_over, L1. reflexivity.
Qed.

(** [[ \t]+] *)
Lemma star_greedy_run p cu s :
  exists cu', star_greedy p cu s (fun cu _ => Some cu) = Some cu'
              /\ pos cu' = (pos cu + run_length p s)%nat.
Proof.
  revert cu. induction s as [|c r IH]; intros cu; cbn [star_greedy run_length].
  - exists cu. split; [reflexivity|lia].
  - destruct (p c).
    + destruct (IH (advance c cu)) as (cu' & E & Hpos). rewrite E.
      exists cu'. split; [reflexivity|]. rewrite Hpos. simpl. lia.
    + exists cu. split; [reflexivity|lia].
Qed.

Lemma hspace_run_scan s : match_length HSPACE_RUN s = m_hspace s.
Proof.
  unfold match_length, match_at, HSPACE_RUN, m_hspace. cbn [backtrack].
  destruct s as [|c r]; [reflexivity|]. cbn [run_length].
  destruct (is_hspace c); [|reflexivity].
  destruct (star_greedy_run is_hspace (advance c (start false)) r) as (cu' & E & Hpos).
  rewrite E. cbn [option_map]. now rewrite Hpos.
Qed.

(** [\n\s*\n] *)
Lemma nl_is_space c : is_nl c = true -> is_space c = true.
Proof. unfold is_nl. intros H. apply Ascii.eqb_eq in H. now subst. Qed.

Lemma star_space_newline cu s :
  option_map pos
             (star_greedy is_space cu s
                          (fun cu' s' => backtrack (Chr is_nl) cu' s' (fun cu _ => Some cu)))
  = option_map (fun n => (pos cu + n)%nat) (ws_then_nl s).
Proof.
  revert cu. induction s as [|c r IH]; intros cu; [reflexivity|].
  cbn [star_greedy ws_then_nl]. destruct (is_space c) eqn:Hc.
  - specialize (IH (advance c cu)).
    destruct (star_greedy is_space (advance c cu) r _) as [cu'|].
    + destruct (ws_then_nl r) as [n|]; [|discriminate IH].
      cbn [option_map] in *. inversion IH as [E]. rewrite E. simpl. f_equal. lia.
    + destruct (ws_then_nl r) as [n|]; [discriminate IH|].
      cbn [backtrack]. fold (is_nl c). destruct (is_nl c); cbn [option_map pos advance];
        [f_equal; lia|reflexivity].
  - cbn [backtrack]. destruct (is_nl c) eqn:Hn; [|reflexivity].
    apply nl_is_space in Hn. congruence.
Qed.

Lemma blank_lines_scan s : match_length BLANK_LINES s = m_blank_lines s.
Proof.
  unfold match_length, match_at, BLANK_LINES, m_blank_lines.
  rewrite backtrack_seq, backtrack_chr.
  destruct s as [|c r]; [reflexivity|]. fold (is_nl c).
  destruct (is_nl c); [|reflexivity].
  rewrite backtrack_seq, backtrack_star.
  rewrite (star_space_newline (advance c (start false)) r).
  destruct (ws_then_nl r); reflexivity.
Qed.

(** The cleaning step over the scans. *)
Definition clean_scan (sql : string) : string :=
  if is_empty sql then "" else
  let sql := re_sub m_fence_marker "" sql in
  let sql := strip (rstrip_chars ";" sql) in
  let sql := re_sub m_hspace " " sql in
  let sql := re_sub m_blank_lines (str_of nl) sql in
  strip sql.

Lemma _clean_sql_scan sql : _clean_sql sql = clean_scan sql.
Proof.
  unfold _clean_sql, clean_scan. destruct (is_empty sql); [reflexivity|]. cbv zeta.
  rewrite (re_sub_ext _ _ _ _ fence_marker_scan).
  rewrite (re_sub_ext _ _ _ _ hspace_run_scan).
  rewrite (re_sub_ext _ _ _ _ blank_lines_scan).
  reflexivity.
Qed.

(** [```(?:sql)?\s*(.*?)\s*```] *)
Definition text_of (cu : cursor) : string :=
  match group1 cu with Some g => g | None => "" end.

Definition with_group (cu : cursor) (g : string) : cursor :=
  {| pos := pos cu; prev_word := prev_word cu; group1 := Some g |}.

Lemma closing_fence_scan cu s :
  option_map text_of
             (star_greedy is_space cu s
                          (fun cu' s' => backtrack (lit_nocase "```") cu' s' (fun cu _ => Some cu)))
  = if closes_fence s then Some (text_of cu) else None.
Proof.
  assert (K : forall cu s,
             option_map text_of (backtrack (lit_nocase "```") cu s (fun cu _ => Some cu))
             = if startswith fence s then Some (text_of cu) else None).
  { intros cu0 s0. rewrite run_lit_nocase. fold fence. rewrite startswith_nocase_fence.
    destruct (startswith fence s0); [|reflexivity].
    cbn [option_map]. unfold text_of. now rewrite group1_advance_over. }
  revert cu. induction s as [|c r IH]; intros cu.
  - cbn [star_greedy closes_fence]. apply K.
  - cbn [star_greedy closes_fence]. destruct (is_space c).
    + specialize (IH (advance c cu)).
      destruct (star_greedy is_space (advance c cu) r _) as [cu'|].
      * destruct (closes_fence r); [|discriminate IH]. exact IH.
      * destruct (closes_fence r); [discriminate IH|]. apply K.
    + apply K.
Qed.

Lemma take_next n s c r :
  drop n s = String c r -> take (S n) s = take n s ++ String c "" /\ drop (S n) s = r.
Proof.
  revert s. induction n as [|n IH]; intros [|a s] H; simpl in H; try discriminate.
  - inversion H; subst. now split.
  - destruct (IH s H) as [E1 E2]. split; [|exact E2].
    change (take (S (S n)) (String a s)) with (String a (take (S n) s)).
    now rewrite E1.
Qed.

(** What follows the lazy group: [\s*```], with the group recorded. *)
Definition after_group (a : nat) (s0 : string) : continuation (A := cursor) :=
  fun cu' s' =>
    star_greedy is_space (with_group cu' (take (pos cu' - a) s0)) s'
                (fun cu5 s5 => backtrack (lit_nocase "```") cu5 s5 (fun cu _ => Some cu)).

Lemma lazy_group_scan a s0 :
  forall s n cu,
    drop n s0 = s ->
    pos cu = (a + n)%nat ->
    option_map text_of (star_lazy any_char cu s (after_group a s0))
    = option_map (fun g => take n s0 ++ g) (lazy_group s).
Proof.
  assert (Here : forall s n cu,
             pos cu = (a + n)%nat ->
             option_map text_of (after_group a s0 cu s)
             = if closes_fence s then Some (take n s0) else None).
  { intros s n cu Hpos. unfold after_group. rewrite closing_fence_scan.
    unfold text_of, with_group. cbn [group1].
    replace (pos cu - a)%nat with n by lia. reflexivity. }
  induction s as [|c r IH]; intros n cu Hs Hpos.
  - cbn [star_lazy lazy_group]. specialize (Here "" n cu Hpos).
    cbn [closes_fence] in *. now destruct (after_group a s0 cu "").
  - cbn [star_lazy lazy_group]. specialize (Here (String c r) n cu Hpos).
    destruct (after_group a s0 cu (String c r)) as [cu'|].
    + destruct (closes_fence (String c r)); [|discriminate Here].
      cbn [option_map] in *. now rewrite append_nil_r.
    + destruct (closes_fence (String c r)); [discriminate Here|].
      unfold any_char at 1. destruct (take_next n s0 c r Hs) as [E1 E2].
      rewrite (IH (S n) (advance c cu) E2) by (simpl; lia).
      rewrite E1. destruct (lazy_group r); [|reflexivity].
      cbn [option_map]. now rewrite append_assoc.
Qed.

Lemma group_scan cu s :
  option_map text_of
             (backtrack (Seq (Group (LazyStar any_char))
                             (Seq (Star is_space) (lit_nocase "```")))
                        cu s (fun cu _ => Some cu))
  = lazy_group s.
Proof.
  pose proof (lazy_group_scan (pos cu) s s 0 cu eq_refl (plus_n_O _)) as H.
  cbn [take append] in H.
  replace (lazy_group s) with (option_map (fun g => g) (lazy_group s))
    by (now destruct (lazy_group s)).
  exact H.
Qed.

Lemma ws_group_scan cu s :
  option_map text_of
             (backtrack (Seq (Star is_space)
                             (Seq (Group (LazyStar any_char))
                                  (Seq (Star is_space) (lit_nocase "```"))))
                        cu s (fun cu _ => Some cu))
  = ws_group s.
Proof.
  rewrite backtrack_seq, backtrack_star.
  revert cu. induction s as [|c r IH]; intros cu.
  - cbn [star_greedy ws_group]. apply group_scan.
  - cbn [star_greedy ws_group]. destruct (is_space c); [|apply group_scan].
    specialize (IH (advance c cu)).
    destruct (star_greedy is_space (advance c cu) r _) as [cu'|].
    + destruct (ws_group r); [exact IH|discriminate IH].
    + destruct (ws_group r); [discriminate IH|]. apply group_scan.
Qed.

Lemma code_fence_scan prev s :
  option_map text_of (match_at CODE_FENCE prev s) = m_code_fence s.
Proof.
  unfold match_at, CODE_FENCE, m_code_fence.
  rewrite backtrack_seq, run_lit_nocase. fold fence. rewrite startswith_nocase_fence.
  destruct (startswith fence s); [|reflexivity].
  change (String.length fence) with 3%nat.
  set (cu1 := advance_over (take 3 s) (start prev)).
  rewrite backtrack_seq, backtrack_opt, run_lit_nocase. cbv zeta.
  change (String.length "sql") with 3%nat.
  destruct (startswith_nocase "sql" (drop 3 s)); [|apply ws_group_scan].
  pose proof (ws_group_scan (advance_over (take 3 (drop 3 s)) cu1) (drop 3 (drop 3 s))) as T.
  destruct (backtrack _ (advance_over (take 3 (drop 3 s)) cu1) (drop 3 (drop 3 s)) _)
    as [cu'|].
  - cbn [option_map] in *. now rewrite <- T.
  - rewrite <- T. apply ws_group_scan.
Qed.

Lemma search_code_fence_scan s : search_group1 CODE_FENCE s = search_code_fence s.
Proof.
  unfold search_group1. generalize false as prev.
  induction s as [|c r IH]; intros prev; cbn [search search_code_fence];
    pose proof (code_fence_scan prev) as C; unfold text_of in C.
  - rewrite <- C. now destruct (match_at CODE_FENCE prev "").
  - rewrite <- C. destruct (match_at CODE_FENCE prev (String c r)); [reflexivity|].
    apply IH.
Qed.

(** ** Extraction from a fenced block *)

Lemma space_is_not_s c : is_space c = true -> eqb_nocase "s" c = false.
Proof.
  destruct c as [[] [] [] [] [] [] [] []]; intros H; try reflexivity; discriminate H.
Qed.

Lemma closes_fence_after_whitespace ws rest :
  all_chars is_space ws = true -> closes_fence (ws ++ fence ++ rest) = true.
Proof.
  induction ws as [|c ws IH]; intros H; [reflexivity|].
  simpl in H. apply andb_prop in H. destruct H as [Hc Hws].
  change (String c ws ++ fence ++ rest) with (String c (ws ++ fence ++ rest)).
  cbn [closes_fence]. now rewrite Hc, (IH Hws).
Qed.

Lemma ws_group_after_whitespace ws s g :
  all_chars is_space ws = true -> ws_group s = Some g -> ws_group (ws ++ s) = Some g.
Proof.
  intros Hws Hs. induction ws as [|c ws IH]; simpl; [exact Hs|].
  simpl in Hws. apply andb_prop in Hws. destruct Hws as [Hc Hws].
  now rewrite Hc, (IH Hws).
Qed.

Lemma lazy_group_closed s : closes_fence s = true -> lazy_group s = Some "".
Proof. intros H. destruct s; cbn [lazy_group]; now rewrite H. Qed.

Lemma lazy_group_step c r :
  closes_fence (String c r) = false ->
  lazy_group (String c r) = option_map (String c) (lazy_group r).
Proof. intros H. cbn [lazy_group]. now rewrite H. Qed.




Lemma tag_is_matched tag s :
  lower tag = "sql" ->
  startswith_nocase "sql" (tag ++ s) = true /\ drop 3 (tag ++ s) = s.
Proof.
  destruct tag as [|c1 [|c2 [|c3 [|c4 tag]]]]; try discriminate.
  simpl. intros H. inversion H as [[H1 H2 H3]].
  unfold eqb_nocase. rewrite H1, H2, H3. now split.
Qed.

Lemma m_code_fence_open r :
  m_code_fence (fence ++ r)
  = match (if startswith_nocase "sql" r then ws_group (drop 3 r) else None) with
    | Some g => Some g
    | None => ws_group r
    end.
Proof. reflexivity. Qed.





(** ** Substitution: how [re_sub] scans *)

Lemma length_drop k s : (String.length (drop k s) <= String.length s)%nat.
Proof.
  revert s. induction k as [|k IH]; intros [|c r]; simpl; try lia.
  specialize (IH r). lia.
Qed.

Lemma re_sub_from_drop m repl k s :
  re_sub_from m repl k s = re_sub m repl (drop k s).
Proof.
  revert k. induction s as [|c r IH]; intros [|k]; try reflexivity.
  simpl. apply IH.
Qed.

Lemma re_sub_cons m repl c r :
  re_sub m repl (String c r)
  = match m (String c r) with
    | Some (S k) => repl ++ re_sub m repl (drop k r)
    | _ => String c (re_sub m repl r)
    end.
Proof.
  unfold re_sub at 1. cbn [re_sub_from].
  destruct (m (String c r)) as [[|k]|]; try reflexivity.
  now rewrite (re_sub_from_drop m repl k r).
Qed.

(** Induction along the scan: a match is replaced and the scan goes on
    after it; a character at which nothing matches is copied. *)
Lemma re_sub_ind m repl (P : string -> string -> Prop) :
  P "" "" ->
  (forall c r k out,
      m (String c r) = Some (S k) -> P (drop k r) out -> P (String c r) (repl ++ out)) ->
  (forall c r out,
      m (String c r) = None \/ m (String c r) = Some 0%nat ->
      P r out -> P (String c r) (String c out)) ->
  forall s, P s (re_sub m repl s).
Proof.
  intros Hnil Hmatch Hcopy s.
  remember (String.length s) as n eqn:Hn.
  assert (Hle : (String.length s <= n)%nat) by lia. clear Hn.
  revert s Hle. induction n as [|n IH]; intros [|c r] Hle; simpl in Hle;
    try exact Hnil; try lia.
  rewrite re_sub_cons. destruct (m (String c r)) as [[|k]|] eqn:E.
  - apply Hcopy; [now right|]. apply IH. lia.
  - apply (Hmatch c r k); [exact E|]. apply IH. pose proof (length_drop k r). lia.
  - apply Hcopy; [now left|]. apply IH. lia.
Qed.

(** [matches_nowhere m s]: the pattern matches at no position of [s]. *)
Fixpoint matches_nowhere (m : string -> option nat) (s : string) : bool :=
  match m s with
  | Some _ => false
  | None => match s with
            | EmptyString => true
            | String _ r => matches_nowhere m r
            end
  end.

Lemma matches_nowhere_cons m c r :
  matches_nowhere m (String c r)
  = match m (String c r) with Some _ => false | None => matches_nowhere m r end.
Proof. reflexivity. Qed.

Lemma re_sub_no_match m repl s :
  matches_nowhere m s = true -> re_sub m repl s = s.
Proof.
  induction s as [|c r IH]; [reflexivity|].
  rewrite matches_nowhere_cons, re_sub_cons.
  destruct (m (String c r)); [discriminate|].
  intros H. now rewrite IH.
Qed.

Lemma matches_nowhere_drop m k s :
  matches_nowhere m s = true -> matches_nowhere m (drop k s) = true.
Proof.
  revert s. induction k as [|k IH]; intros [|c r] H; simpl; auto.
  apply IH. rewrite matches_nowhere_cons in H.
  destruct (m (String c r)); [discriminate|exact H].
Qed.

Lemma matches_nowhere_lstrip m p s :
  matches_nowhere m s = true -> matches_nowhere m (lstrip_by p s) = true.
Proof.
  induction s as [|c r IH]; intros H; [exact H|].
  cbn [lstrip_by]. destruct (p c); [|exact H].
  apply IH. rewrite matches_nowhere_cons in H.
  destruct (m (String c r)); [discriminate|exact H].
Qed.

(** ** Stripping gives a prefix and a suffix *)

Lemma rstrip_by_prefix p s : exists t, s = rstrip_by p s ++ t.
Proof.
  induction s as [|c r [t IH]]; [now exists ""|].
  cbn [rstrip_by]. destruct (is_empty (rstrip_by p r) && p c).
  - now exists (String c r).
  - exists t. simpl. now rewrite <- IH.
Qed.

Lemma lstrip_by_suffix p s : exists k, lstrip_by p s = drop k s.
Proof.
  induction s as [|c r [k IH]]; [now exists 0%nat|].
  cbn [lstrip_by]. destruct (p c).
  - now exists (S k).
  - now exists 0%nat.
Qed.

Lemma rstrip_by_idem p s : rstrip_by p (rstrip_by p s) = rstrip_by p s.
Proof.
  induction s as [|c r IH]; [reflexivity|].
  cbn [rstrip_by]. destruct (is_empty (rstrip_by p r) && p c) eqn:E; [reflexivity|].
  cbn [rstrip_by]. rewrite IH, E. reflexivity.
Qed.

Lemma lstrip_by_head p s :
  match lstrip_by p s with
  | EmptyString => True
  | String c _ => p c = false
  end.
Proof.
  induction s as [|c r IH]; [exact I|].
  cbn [lstrip_by]. destruct (p c) eqn:E; [exact IH|exact E].
Qed.

Lemma rstrip_by_keeps_head p c r :
  p c = false -> exists r', rstrip_by p (String c r) = String c r'.
Proof.
  intros H. cbn [rstrip_by]. rewrite H, andb_false_r. eauto.
Qed.

Lemma strip_idem s : strip (strip s) = strip s.
Proof.
  unfold strip. pose proof (lstrip_by_head is_space s) as H.
  destruct (lstrip_by is_space s) as [|c r] eqn:E; [reflexivity|].
  destruct (rstrip_by_keeps_head is_space c r H) as [r' E'].
  rewrite E'. cbn [lstrip_by]. rewrite H. rewrite <- E'. apply rstrip_by_idem.
Qed.

(** ** Cleaning: no fence marker is left *)

Definition is_tick (c : ascii) : bool := Ascii.eqb backtick c.

(** The number of backticks a string starts with. *)
Definition ticks (s : string) : nat := run_length is_tick s.

Lemma ticks_cons c r : ticks (String c r) = if is_tick c then S (ticks r) else 0%nat.
Proof. reflexivity. Qed.

Lemma startswith_fence_ticks s : startswith fence s = (3 <=? ticks s)%nat.
Proof.
  destruct s as [|c1 [|c2 [|c3 r]]]; unfold fence; cbn [startswith];
    rewrite ?ticks_cons; unfold is_tick, backtick;
    repeat match goal with
           | |- context [Ascii.eqb "`" ?c] => destruct (Ascii.eqb "`" c)
           end; reflexivity.
Qed.

Lemma contains_cons p c r :
  contains p (String c r) = startswith p (String c r) || contains p r.
Proof. reflexivity. Qed.

Lemma startswith_app p a t : startswith p a = true -> startswith p (a ++ t) = true.
Proof.
  revert a. induction p as [|x p IH]; intros [|c a] H; simpl in *; try reflexivity;
    try discriminate.
  apply andb_prop in H. destruct H as [H1 H2]. now rewrite H1, (IH a H2).
Qed.

Lemma contains_app_l p a t : contains p a = true -> contains p (a ++ t) = true.
Proof.
  induction a as [|c a IH]; intros H.
  - simpl in H. rewrite orb_false_r in H. destruct p; [|discriminate].
    destruct t; reflexivity.
  - change (String c a ++ t) with (String c (a ++ t)).
    rewrite contains_cons in *. apply orb_prop in H. destruct H as [H|H].
    + pose proof (startswith_app p (String c a) t H) as K.
      change (String c a ++ t) with (String c (a ++ t)) in K. now rewrite K.
    + rewrite (IH H). apply orb_true_r.
Qed.

Lemma contains_drop p k s : contains p (drop k s) = true -> contains p s = true.
Proof.
  revert s. induction k as [|k IH]; intros [|c r] H; simpl in H; try exact H.
  rewrite contains_cons, (IH r H). apply orb_true_r.
Qed.

Lemma contains_rstrip p q s : contains p s = false -> contains p (rstrip_by q s) = false.
Proof.
  intros H. destruct (rstrip_by_prefix q s) as [t E].
  destruct (contains p (rstrip_by q s)) eqn:C; [|reflexivity].
  rewrite E, (contains_app_l p _ t C) in H. discriminate.
Qed.

Lemma contains_lstrip p q s : contains p s = false -> contains p (lstrip_by q s) = false.
Proof.
  intros H. destruct (lstrip_by_suffix q s) as [k E]. rewrite E.
  destruct (contains p (drop k s)) eqn:C; [|reflexivity].
  rewrite (contains_drop p k s C) in H. discriminate.
Qed.

Lemma contains_strip p s : contains p s = false -> contains p (strip s) = false.
Proof. intros H. unfold strip. now apply contains_rstrip, contains_lstrip. Qed.

Lemma m_fence_marker_spec s :
  m_fence_marker s = None /\ startswith fence s = false
  \/ (exists k, m_fence_marker s = Some (S k)) /\ startswith fence s = true.
Proof.
  unfold m_fence_marker. destruct (startswith fence s).
  - right. split; [|reflexivity].
    destruct (startswith_nocase "sql" (drop 3 s)); eauto.
  - now left.
Qed.

Lemma fence_markers_removed s :
  contains fence (re_sub m_fence_marker "" s) = false.
Proof.
  enough (H : contains fence (re_sub m_fence_marker "" s) = false
              /\ ((ticks s <= 2)%nat -> ticks (re_sub m_fence_marker "" s) = ticks s))
    by apply H.
  apply (re_sub_ind m_fence_marker ""
           (fun s out => contains fence out = false
                         /\ ((ticks s <= 2)%nat -> ticks out = ticks s))).
  - now split.
  - intros c r k out Hm [IH1 IH2]. change ("" ++ out) with out. split; [exact IH1|].
    intros Hticks.
    destruct (m_fence_marker_spec (String c r)) as [[E _]|[_ E]]; [congruence|].
    rewrite startswith_fence_ticks in E. apply Nat.leb_le in E. lia.
  - intros c r out Hm [IH1 IH2].
    assert (Hs : startswith fence (String c r) = false).
    { destruct (m_fence_marker_spec (String c r)) as [[_ E]|[[k E] _]]; [exact E|].
      destruct Hm as [Hm|Hm]; congruence. }
    rewrite startswith_fence_ticks in Hs. apply Nat.leb_gt in Hs.
    rewrite ticks_cons in Hs.
    assert (Ht : ticks (String c out) = ticks (String c r)).
    { rewrite !ticks_cons. destruct (is_tick c); [|reflexivity].
      rewrite IH2; [reflexivity|lia]. }
    split; [|intros _; exact Ht].
    rewrite contains_cons, IH1, orb_false_r, startswith_fence_ticks, Ht, ticks_cons.
    apply Nat.leb_gt. exact Hs.
Qed.

(** A substitution that matches only at characters other than the
    backtick and writes one such character joins no backticks. *)
Lemma re_sub_keeps_no_fence m x s :
  (forall c r n, m (String c r) = Some n -> is_tick c = false) ->
  is_tick x = false ->
  contains fence s = false ->
  contains fence (re_sub m (String x "") s) = false.
Proof.
  intros Hm Hx.
  enough (H : (ticks (re_sub m (String x "") s) <= ticks s)%nat
              /\ (contains fence s = false ->
                  contains fence (re_sub m (String x "") s) = false))
    by apply H.
  apply (re_sub_ind m (String x "")
           (fun s out => (ticks out <= ticks s)%nat
                         /\ (contains fence s = false -> contains fence out = false))).
  - split; [lia|auto].
  - intros c r k out E [IH1 IH2]. change (String x "" ++ out) with (String x out).
    split; [rewrite ticks_cons, Hx; lia|].
    intros Hs. rewrite contains_cons, startswith_fence_ticks, ticks_cons, Hx.
    cbn [Nat.leb orb]. apply IH2.
    destruct (contains fence (drop k r)) eqn:C; [|reflexivity].
    rewrite contains_cons, (contains_drop fence k r C), orb_true_r in Hs. discriminate.
  - intros c r out _ [IH1 IH2]. split.
    + rewrite !ticks_cons. destruct (is_tick c); lia.
    + intros Hs. rewrite contains_cons in Hs. apply orb_false_elim in Hs.
      destruct Hs as [Hs1 Hs2].
      rewrite contains_cons, (IH2 Hs2), orb_false_r.
      rewrite startswith_fence_ticks in *. apply Nat.leb_gt in Hs1. apply Nat.leb_gt.
      rewrite ticks_cons in *. destruct (is_tick c); lia.
Qed.

Lemma m_hspace_head c r n : m_hspace (String c r) = Some n -> is_hspace c = true.
Proof.
  unfold m_hspace. cbn [run_length]. destruct (is_hspace c); [reflexivity|discriminate].
Qed.

Lemma m_blank_lines_head c r n : m_blank_lines (String c r) = Some n -> c = nl.
Proof.
  unfold m_blank_lines. destruct (Ascii.eqb_spec c nl); [auto|discriminate].
Qed.

Lemma hspace_is_no_tick c : is_hspace c = true -> is_tick c = false.
Proof.
  unfold is_hspace. intros H. apply orb_prop in H.
  destruct H as [H|H]; apply Ascii.eqb_eq in H; subst; reflexivity.
Qed.

Lemma _clean_sql_no_fence sql : contains fence (_clean_sql sql) = false.
Proof.
  rewrite !_clean_sql_scan. unfold clean_scan. destruct (is_empty sql); [reflexivity|].
  apply contains_strip.
  apply re_sub_keeps_no_fence.
  { intros c r n H. apply m_blank_lines_head in H. now subst. }
  { reflexivity. }
  change " " with (String " "%char "").
  apply re_sub_keeps_no_fence.
  { intros c r n H. apply m_hspace_head in H. now apply hspace_is_no_tick. }
  { reflexivity. }
  apply contains_strip. unfold rstrip_chars. apply contains_rstrip.
  apply fence_markers_removed.
Qed.

(** ** Cleaning: trailing semicolons *)

Definition semicolons (n : nat) : string := repeat_char semicolon n.

Lemma semicolons_stripped n : all_chars (in_chars ";") (semicolons n) = true.
Proof. induction n as [|n IH]; [reflexivity|]. simpl. exact IH. Qed.

Lemma startswith_length p s : startswith p s = true -> (String.length p <= String.length s)%nat.
Proof.
  revert s. induction p as [|x p IH]; intros [|c s] H; simpl in *; try lia; try discriminate.
  apply andb_prop in H. destruct H as [_ H]. specialize (IH s H). lia.
Qed.

Lemma startswith_nocase_length p s :
  startswith_nocase p s = true -> (String.length p <= String.length s)%nat.
Proof.
  revert s. induction p as [|x p IH]; intros [|c s] H; simpl in *; try lia; try discriminate.
  apply andb_prop in H. destruct H as [_ H]. specialize (IH s H). lia.
Qed.

Lemma length_drop_eq k s : String.length (drop k s) = (String.length s - k)%nat.
Proof.
  revert s. induction k as [|k IH]; intros [|c r]; simpl; try lia. apply IH.
Qed.

Lemma drop_app k s t : (k <= String.length s)%nat -> drop k (s ++ t) = drop k s ++ t.
Proof.
  revert s. induction k as [|k IH]; intros [|c r] H; simpl in *; try reflexivity; try lia.
  apply IH. lia.
Qed.

Lemma m_fence_marker_length s n :
  m_fence_marker s = Some n -> (n <= String.length s)%nat.
Proof.
  unfold m_fence_marker. destruct (startswith fence s) eqn:E1; [|discriminate].
  apply startswith_length in E1. simpl in E1.
  destruct (startswith_nocase "sql" (drop 3 s)) eqn:E2; intros H; inversion H; subst.
  - apply startswith_nocase_length in E2. rewrite length_drop_eq in E2. simpl in E2. lia.
  - exact E1.
Qed.

Lemma startswith_fence_semicolons s n :
  startswith fence (s ++ semicolons n) = startswith fence s.
Proof.
  destruct s as [|c1 [|c2 [|c3 r]]]; destruct n as [|[|[|n]]]; cbn;
    repeat match goal with
           | |- context [Ascii.eqb "`" ?c] => destruct (Ascii.eqb "`" c)
           end; reflexivity.
Qed.

Lemma startswith_tag_semicolons s n :
  startswith_nocase "sql" (s ++ semicolons n) = startswith_nocase "sql" s.
Proof.
  destruct s as [|c1 [|c2 [|c3 r]]]; destruct n as [|[|[|n]]]; cbn;
    repeat match goal with
           | |- context [eqb_nocase ?a ?c] => destruct (eqb_nocase a c)
           end; reflexivity.
Qed.

Lemma m_fence_marker_semicolons s n :
  m_fence_marker (s ++ semicolons n) = m_fence_marker s.
Proof.
  unfold m_fence_marker. rewrite startswith_fence_semicolons.
  destruct (startswith fence s) eqn:E; [|reflexivity].
  apply startswith_length in E. simpl in E.
  rewrite drop_app by exact E. now rewrite startswith_tag_semicolons.
Qed.

Lemma semicolons_hold_no_fence n : matches_nowhere m_fence_marker (semicolons n) = true.
Proof. induction n as [|n IH]; [reflexivity|]. exact IH. Qed.

Lemma fence_removal_keeps_semicolons s n :
  re_sub m_fence_marker "" (s ++ semicolons n)
  = re_sub m_fence_marker "" s ++ semicolons n.
Proof.
  apply (re_sub_ind m_fence_marker ""
           (fun s out => re_sub m_fence_marker "" (s ++ semicolons n) = out ++ semicolons n)).
  - apply re_sub_no_match, semicolons_hold_no_fence.
  - intros c r k out E IH.
    change (String c r ++ semicolons n) with (String c (r ++ semicolons n)).
    rewrite re_sub_cons.
    change (String c (r ++ semicolons n)) with (String c r ++ semicolons n).
    rewrite m_fence_marker_semicolons, E.
    apply m_fence_marker_length in E. simpl in E.
    rewrite drop_app by lia. rewrite IH. reflexivity.
  - intros c r out E IH.
    change (String c r ++ semicolons n) with (String c (r ++ semicolons n)).
    rewrite re_sub_cons.
    change (String c (r ++ semicolons n)) with (String c r ++ semicolons n).
    rewrite m_fence_marker_semicolons.
    destruct E as [-> | ->]; rewrite IH; reflexivity.
Qed.

(** Every semicolon at the end of the text goes: a text and the same
    text followed by semicolons are cleaned to the same string. *)
Lemma _clean_sql_semicolons sql n :
  _clean_sql (sql ++ semicolons n) = _clean_sql sql.
Proof.
  rewrite !_clean_sql_scan. unfold clean_scan.
  rewrite fence_removal_keeps_semicolons.
  unfold rstrip_chars.
  rewrite (rstrip_by_app_all (in_chars ";") _ (semicolons n) (semicolons_stripped n)).
  destruct sql as [|c r]; [|reflexivity].
  destruct n; reflexivity.
Qed.

(** ** Cleaning: horizontal whitespace *)

Definition head_is (p : ascii -> bool) (s : string) : bool :=
  match s with
  | EmptyString => false
  | String c _ => p c
  end.

(** No tab, and no space or tab next to another. *)
Fixpoint collapsed (s : string) : bool :=
  match s with
  | EmptyString => true
  | String c r =>
      negb (Ascii.eqb c tab) && negb (is_hspace c && head_is is_hspace r) && collapsed r
  end.

Lemma collapsed_cons c r :
  collapsed (String c r)
  = negb (Ascii.eqb c tab) && negb (is_hspace c && head_is is_hspace r) && collapsed r.
Proof. reflexivity. Qed.

Lemma collapsed_drop k s : collapsed s = true -> collapsed (drop k s) = true.
Proof.
  revert s. induction k as [|k IH]; intros [|c r] H; simpl; auto.
  apply IH. rewrite collapsed_cons in H. now apply andb_prop in H.
Qed.

Lemma collapsed_app_l a t : collapsed (a ++ t) = true -> collapsed a = true.
Proof.
  induction a as [|c a IH]; [reflexivity|].
  change (String c a ++ t) with (String c (a ++ t)). rewrite !collapsed_cons.
  intros H. apply andb_prop in H. destruct H as [H H3].
  apply andb_prop in H. destruct H as [H1 H2].
  rewrite H1, (IH H3), andb_true_r. cbn [andb].
  destruct a as [|c' a]; [cbn [head_is]; now rewrite andb_false_r|exact H2].
Qed.

Lemma collapsed_strip s : collapsed s = true -> collapsed (strip s) = true.
Proof.
  intros H. unfold strip.
  destruct (lstrip_by_suffix is_space s) as [k E]. rewrite E.
  destruct (rstrip_by_prefix is_space (drop k s)) as [t Et].
  apply (collapsed_app_l _ t). rewrite <- Et. now apply collapsed_drop.
Qed.

Lemma run_length_drop p s : head_is p (drop (run_length p s) s) = false.
Proof.
  induction s as [|c r IH]; [reflexivity|].
  cbn [run_length]. destruct (p c) eqn:E; [exact IH|]. simpl. exact E.
Qed.

Lemma m_hspace_spec c r :
  (is_hspace c = false /\ m_hspace (String c r) = None)
  \/ (is_hspace c = true /\ m_hspace (String c r) = Some (S (run_length is_hspace r))).
Proof.
  unfold m_hspace. cbn [run_length]. destruct (is_hspace c); auto.
Qed.

Lemma hspace_collapsed s :
  collapsed (re_sub m_hspace " " s) = true.
Proof.
  enough (H : collapsed (re_sub m_hspace " " s) = true
              /\ head_is is_hspace (re_sub m_hspace " " s) = head_is is_hspace s)
    by apply H.
  apply (re_sub_ind m_hspace " "
           (fun s out => collapsed out = true
                         /\ head_is is_hspace out = head_is is_hspace s)).
  - now split.
  - intros c r k out E [IH1 IH2].
    destruct (m_hspace_spec c r) as [[_ E']|[Hc E']]; [congruence|].
    rewrite E in E'. inversion E'; subst k.
    rewrite run_length_drop in IH2.
    change (" " ++ out) with (String " "%char out).
    rewrite collapsed_cons, IH1, IH2. cbn [head_is]. now rewrite Hc.
  - intros c r out E [IH1 IH2].
    destruct (m_hspace_spec c r) as [[Hc _]|[_ E']];
      [|destruct E as [E|E]; congruence].
    rewrite collapsed_cons, IH1, Hc. cbn [head_is]. rewrite Hc.
    unfold is_hspace in Hc. apply orb_false_elim in Hc. destruct Hc as [_ Hc].
    now rewrite Hc.
Qed.

Lemma blank_sub_keeps_collapsed s :
  collapsed s = true -> collapsed (re_sub m_blank_lines (str_of nl) s) = true.
Proof.
  enough (H : (head_is is_hspace (re_sub m_blank_lines (str_of nl) s) = true ->
               head_is is_hspace s = true)
              /\ (collapsed s = true ->
                  collapsed (re_sub m_blank_lines (str_of nl) s) = true))
    by apply H.
  apply (re_sub_ind m_blank_lines (str_of nl)
           (fun s out => (head_is is_hspace out = true -> head_is is_hspace s = true)
                         /\ (collapsed s = true -> collapsed out = true))).
  - now split.
  - intros c r k out E [IH1 IH2].
    change (str_of nl ++ out) with (String nl out). split; [discriminate|].
    intros H. rewrite collapsed_cons in *. apply andb_prop in H. destruct H as [_ H].
    now rewrite (IH2 (collapsed_drop k r H)).
  - intros c r out _ [IH1 IH2]. split; [auto|].
    rewrite !collapsed_cons. intros H.
    apply andb_prop in H. destruct H as [H H3].
    apply andb_prop in H. destruct H as [H1 H2].
    rewrite H1, (IH2 H3), andb_true_r. cbn [andb].
    destruct (is_hspace c); [|reflexivity]. cbn [andb] in *.
    destruct (head_is is_hspace out); [|reflexivity].
    now rewrite (IH1 eq_refl) in H2.
Qed.

(** ** Cleaning: blank lines *)

Lemma ws_then_nl_cons c r :
  ws_then_nl (String c r)
  = if is_space c
    then match ws_then_nl r with
         | Some n => Some (S n)
         | None => if Ascii.eqb c nl then Some 1%nat else None
         end
    else None.
Proof. reflexivity. Qed.

(** The match of [\s*\n] is the longest: no newline ends the whitespace
    that follows it. *)
Lemma ws_then_nl_longest s n : ws_then_nl s = Some n -> ws_then_nl (drop n s) = None.
Proof.
  revert n. induction s as [|c r IH]; intros n; [discriminate|].
  rewrite ws_then_nl_cons. destruct (is_space c); [|discriminate].
  destruct (ws_then_nl r) as [m|] eqn:E.
  - intros H. inversion H; subst. simpl. now apply IH.
  - destruct (Ascii.eqb c nl); [|discriminate].
    intros H. inversion H; subst. exact E.
Qed.

Lemma ws_then_nl_app_none a t : ws_then_nl (a ++ t) = None -> ws_then_nl a = None.
Proof.
  induction a as [|c a IH]; [reflexivity|].
  change (String c a ++ t) with (String c (a ++ t)). rewrite !ws_then_nl_cons.
  destruct (is_space c); [|reflexivity].
  destruct (ws_then_nl (a ++ t)); [discriminate|].
  now rewrite IH.
Qed.

Lemma m_blank_lines_cons c r :
  m_blank_lines (String c r) = if Ascii.eqb c nl then option_map S (ws_then_nl r) else None.
Proof. reflexivity. Qed.

Lemma blank_free_app_l a t :
  matches_nowhere m_blank_lines (a ++ t) = true -> matches_nowhere m_blank_lines a = true.
Proof.
  induction a as [|c a IH]; [reflexivity|].
  change (String c a ++ t) with (String c (a ++ t)).
  rewrite !matches_nowhere_cons, !m_blank_lines_cons.
  destruct (Ascii.eqb c nl); [|exact IH].
  destruct (ws_then_nl (a ++ t)) eqn:E; [discriminate|].
  rewrite (ws_then_nl_app_none a t E). exact IH.
Qed.

Lemma blank_free_strip s :
  matches_nowhere m_blank_lines s = true ->
  matches_nowhere m_blank_lines (strip s) = true.
Proof.
  intros H. unfold strip.
  destruct (rstrip_by_prefix is_space (lstrip_by is_space s)) as [t Et].
  apply (blank_free_app_l _ t). rewrite <- Et. now apply matches_nowhere_lstrip.
Qed.

Lemma blank_lines_removed s :
  matches_nowhere m_blank_lines (re_sub m_blank_lines (str_of nl) s) = true.
Proof.
  enough (H : matches_nowhere m_blank_lines (re_sub m_blank_lines (str_of nl) s) = true
              /\ (ws_then_nl s = None ->
                  ws_then_nl (re_sub m_blank_lines (str_of nl) s) = None))
    by apply H.
  apply (re_sub_ind m_blank_lines (str_of nl)
           (fun s out => matches_nowhere m_blank_lines out = true
                         /\ (ws_then_nl s = None -> ws_then_nl out = None))).
  - now split.
  - intros c r k out E [IH1 IH2].
    change (str_of nl ++ out) with (String nl out).
    rewrite m_blank_lines_cons in E.
    destruct (Ascii.eqb_spec c nl) as [->|]; [|discriminate].
    destruct (ws_then_nl r) as [k'|] eqn:Er; [|discriminate].
    inversion E; subst k'. split.
    + rewrite matches_nowhere_cons, m_blank_lines_cons.
      rewrite (IH2 (ws_then_nl_longest r k Er)). exact IH1.
    + rewrite ws_then_nl_cons, Er. discriminate.
  - intros c r out E [IH1 IH2].
    rewrite m_blank_lines_cons in E. split.
    + rewrite matches_nowhere_cons, m_blank_lines_cons.
      destruct (Ascii.eqb c nl); [|exact IH1].
      destruct (ws_then_nl r); [destruct E; discriminate|].
      rewrite (IH2 eq_refl). exact IH1.
    + rewrite !ws_then_nl_cons. destruct (is_space c); [|reflexivity].
      destruct (ws_then_nl r); [discriminate|].
      now rewrite (IH2 eq_refl).
Qed.

(** ** Cleaning: a clean text is left alone *)

Lemma no_fence_matches_nowhere s :
  contains fence s = false -> matches_nowhere m_fence_marker s = true.
Proof.
  induction s as [|c r IH]; [reflexivity|].
  rewrite contains_cons, matches_nowhere_cons. intros H.
  apply orb_false_elim in H. destruct H as [H1 H2].
  destruct (m_fence_marker_spec (String c r)) as [[E _]|[_ E]]; [|congruence].
  rewrite E. now apply IH.
Qed.

Lemma run_length_head p s : head_is p s = false -> run_length p s = 0%nat.
Proof. destruct s as [|c r]; [reflexivity|]. simpl. now intros ->. Qed.

Lemma collapsed_fixed s : collapsed s = true -> re_sub m_hspace " " s = s.
Proof.
  induction s as [|c r IH]; [reflexivity|].
  rewrite collapsed_cons, re_sub_cons. intros H.
  apply andb_prop in H. destruct H as [H H3].
  apply andb_prop in H. destruct H as [H1 H2].
  destruct (m_hspace_spec c r) as [[Hc E]|[Hc E]]; rewrite E.
  - now rewrite (IH H3).
  - rewrite Hc in H2. cbn [andb] in H2. apply negb_true_iff in H2.
    rewrite (run_length_head _ _ H2). cbn [drop]. rewrite (IH H3).
    unfold is_hspace in Hc. apply negb_true_iff in H1. rewrite H1, orb_false_r in Hc.
    apply Ascii.eqb_eq in Hc. now subst.
Qed.

Lemma _clean_sql_fixed sql :
  contains fence sql = false ->
  rstrip_chars ";" sql = sql ->
  collapsed sql = true ->
  matches_nowhere m_blank_lines sql = true ->
  strip sql = sql ->
  _clean_sql sql = sql.
Proof.
  intros Hfence Hsemi Hcollapsed Hblank Hstrip.
  rewrite !_clean_sql_scan. unfold clean_scan. destruct sql as [|c r]; [reflexivity|]. cbn [is_empty].
  rewrite (re_sub_no_match m_fence_marker), Hsemi, Hstrip
    by now apply no_fence_matches_nowhere.
  rewrite collapsed_fixed by assumption.
  rewrite re_sub_no_match by assumption.
  exact Hstrip.
Qed.

(** ** Cleaning: what a fence marker takes with it

    A fence marker is three backticks and the tag [sql], in any case,
    when it follows them.  Only the marker goes: the text before it and
    the text after it stay and are cleaned on. *)

(** The text after three backticks, without the tag of the marker. *)
Definition untagged (s : string) : string :=
  if startswith_nocase "sql" s then drop 3 s else s.

Lemma fence_not_at c r : Ascii.eqb "`" c = false -> m_fence_marker (String c r) = None.
Proof. intros H. unfold m_fence_marker, fence. cbn [startswith]. now rewrite H. Qed.

Lemma fence_removal_after_plain_text before s :
  contains "`" before = false ->
  re_sub m_fence_marker "" (before ++ s) = before ++ re_sub m_fence_marker "" s.
Proof.
  induction before as [|c r IH]; intros H; [reflexivity|].
  rewrite contains_cons in H. apply orb_false_iff in H. destruct H as [Hc Hr].
  cbn [startswith] in Hc. rewrite andb_true_r in Hc.
  change (String c r ++ s) with (String c (r ++ s)).
  rewrite re_sub_cons, (fence_not_at c (r ++ s) Hc). now rewrite IH.
Qed.

Lemma fence_removal_marker s :
  re_sub m_fence_marker "" ("```" ++ s) = re_sub m_fence_marker "" (untagged s).
Proof.
  change ("```" ++ s) with (String "`" (String "`" (String "`" s))).
  rewrite re_sub_cons. unfold m_fence_marker, fence, untagged.
  cbn [startswith Ascii.eqb Bool.eqb andb drop].
  destruct (startswith_nocase "sql" s) eqn:E; cbn [drop append]; [|reflexivity].
  apply startswith_nocase_length in E.
  destruct s as [|c1 [|c2 [|c3 r]]]; simpl in E; try lia. reflexivity.
Qed.

Lemma startswith_fence_at_semicolon s y :
  startswith fence (s ++ String semicolon y) = startswith fence s.
Proof.
  destruct s as [|c1 [|c2 [|c3 r]]]; cbn;
    repeat match goal with
           | |- context [Ascii.eqb "`" ?c] => destruct (Ascii.eqb "`" c)
           end; reflexivity.
Qed.

Lemma startswith_tag_at_semicolon s y :
  startswith_nocase "sql" (s ++ String semicolon y) = startswith_nocase "sql" s.
Proof.
  destruct s as [|c1 [|c2 [|c3 r]]]; cbn;
    repeat match goal with
           | |- context [eqb_nocase ?a ?c] => destruct (eqb_nocase a c)
           end; reflexivity.
Qed.

Lemma m_fence_marker_at_semicolon s y :
  m_fence_marker (s ++ String semicolon y) = m_fence_marker s.
Proof.
  unfold m_fence_marker. rewrite startswith_fence_at_semicolon.
  destruct (startswith fence s) eqn:E; [|reflexivity].
  apply startswith_length in E. simpl in E.
  rewrite drop_app by exact E. now rewrite startswith_tag_at_semicolon.
Qed.

(** A semicolon separates: the markers before it and the markers after
    it are found apart. *)
Lemma fence_removal_at_semicolon s y :
  re_sub m_fence_marker "" (s ++ String semicolon y)
  = re_sub m_fence_marker "" s ++ re_sub m_fence_marker "" (String semicolon y).
Proof.
  apply (re_sub_ind m_fence_marker ""
           (fun s out => re_sub m_fence_marker "" (s ++ String semicolon y)
                         = out ++ re_sub m_fence_marker "" (String semicolon y))).
  - reflexivity.
  - intros c r k out E IH.
    change (String c r ++ String semicolon y) with (String c (r ++ String semicolon y)).
    rewrite re_sub_cons.
    change (String c (r ++ String semicolon y)) with (String c r ++ String semicolon y).
    rewrite m_fence_marker_at_semicolon, E.
    apply m_fence_marker_length in E. simpl in E.
    rewrite drop_app by lia. rewrite IH. reflexivity.
  - intros c r out E IH.
    change (String c r ++ String semicolon y) with (String c (r ++ String semicolon y)).
    rewrite re_sub_cons.
    change (String c (r ++ String semicolon y)) with (String c r ++ String semicolon y).
    rewrite m_fence_marker_at_semicolon.
    destruct E as [-> | ->]; rewrite IH; reflexivity.
Qed.

Lemma fence_removal_after_semicolons n :
  re_sub m_fence_marker "" (semicolons n ++ "```") = semicolons n.
Proof.
  induction n as [|n IH]; [reflexivity|].
  change (semicolons (S n) ++ "```") with (String semicolon (semicolons n ++ "```")).
  rewrite re_sub_cons, fence_not_at by reflexivity. now rewrite IH.
Qed.

(** The steps after the fence removal see its result only. *)
Lemma clean_scan_after_fence_removal a b :
  re_sub m_fence_marker "" a = re_sub m_fence_marker "" b -> clean_scan a = clean_scan b.
Proof.
  unfold clean_scan. intros E.
  destruct a as [|x a], b as [|y b]; cbn [is_empty]; cbv zeta;
    [reflexivity|rewrite <- E; reflexivity|rewrite E; reflexivity|now rewrite E].
Qed.

(** Only the marker goes. *)
Lemma _clean_sql_marker before after :
  contains "`" before = false ->
  _clean_sql (before ++ "```" ++ after) = _clean_sql (before ++ untagged after).
Proof.
  intros H. rewrite !_clean_sql_scan. apply clean_scan_after_fence_removal.
  rewrite (fence_removal_after_plain_text before ("```" ++ after) H).
  rewrite (fence_removal_after_plain_text before (untagged after) H).
  now rewrite fence_removal_marker.
Qed.

(** The semicolons that end the text once the closing fence is gone are
    stripped. *)
Lemma _clean_sql_semicolons_in_fence sql n :
  _clean_sql (sql ++ semicolons (S n) ++ "```") = _clean_sql sql.
Proof.
  rewrite <- (_clean_sql_semicolons sql (S n)).
  rewrite !_clean_sql_scan. apply clean_scan_after_fence_removal.
  change (semicolons (S n) ++ "```") with (String semicolon (semicolons n ++ "```")).
  rewrite fence_removal_at_semicolon.
  change (String semicolon (semicolons n ++ "```")) with (semicolons (S n) ++ "```").
  rewrite fence_removal_after_semicolons. symmetry. apply fence_removal_keeps_semicolons.
Qed.

(** ** The cleaning step as the specification words it

    Strip the fence markers, strip a single trailing semicolon, collapse
    runs of spaces and tabs to one space and runs of blank lines to one
    blank line, trim. *)

Fixpoint strip_one_terminator (s : string) : string :=
  match s with
  | EmptyString => EmptyString
  | String c EmptyString => if Ascii.eqb c semicolon then EmptyString else s
  | String c r => String c (strip_one_terminator r)
  end.

Definition clean_sql_as_specified (sql : string) : string :=
  let sql := re_sub m_fence_marker "" sql in
  let sql := strip_one_terminator sql in
  let sql := re_sub m_hspace " " sql in
  let sql := re_sub m_blank_lines (String nl (String nl "")) sql in
  strip sql.

(** C6, counterexample.  Two semicolons end the text: the code strips
    both, not one.  Two blank lines separate two lines: the code leaves
    no blank line, not one. *)
Lemma clean_sql_not_as_specified :
  _clean_sql "SELECT 1;;" = "SELECT 1"
  /\ clean_sql_as_specified "SELECT 1;;" = "SELECT 1;"
  /\ _clean_sql (lines ["SELECT 1"; ""; ""; "FROM t"]) = lines ["SELECT 1"; "FROM t"]
  /\ clean_sql_as_specified (lines ["SELECT 1"; ""; ""; "FROM t"])
     = lines ["SELECT 1"; ""; "FROM t"].
Proof. vm_compute. repeat split. Qed.

(** ** The cleaning step as the code has it, in the same words

    Delete every fence marker; strip every semicolon that ends the text
    then, and trim; replace every run of spaces and tabs by one space and
    every newline, whitespace, newline by one newline; trim. *)

Definition clean_sql_as_amended (sql : string) : string :=
  let sql := re_sub m_fence_marker "" sql in
  let sql := rstrip_by (Ascii.eqb semicolon) sql in
  let sql := strip sql in
  let sql := re_sub m_hspace " " sql in
  let sql := re_sub m_blank_lines (String nl "") sql in
  strip sql.

Lemma in_semicolon c : in_chars ";" c = Ascii.eqb semicolon c.
Proof. unfold in_chars. cbn. rewrite Ascii.eqb_sym. apply orb_false_r. Qed.

Lemma rstrip_by_ext p q s : (forall c, p c = q c) -> rstrip_by p s = rstrip_by q s.
Proof.
  intros H. induction s as [|c r IH]; [reflexivity|].
  cbn [rstrip_by]. now rewrite IH, H.
Qed.

Lemma _clean_sql_as_amended sql : _clean_sql sql = clean_sql_as_amended sql.
Proof.
  rewrite _clean_sql_scan. unfold clean_scan, clean_sql_as_amended, rstrip_chars.
  destruct sql as [|c r]; [reflexivity|]. cbn [is_empty]. cbv zeta.
  now rewrite (rstrip_by_ext _ _ _ in_semicolon).
Qed.

(** C6, as the code has it.  For every input the cleaning step is the
    step worded above: fence markers deleted, every trailing semicolon
    stripped, trimmed, runs of spaces and tabs collapsed to one space,
    every newline, whitespace, newline replaced by one newline, trimmed.
    In particular: the cleaned text holds no fence marker; only the
    marker goes, the text before three backticks and the text after
    them, without the tag, is cleaned as if the marker was not there;
    every semicolon at the end of the input is stripped (the input
    followed by any number of semicolons is cleaned to the same text),
    also the semicolons that end the text only once a closing fence is
    gone; no tab is left and no space or tab stands next to another; no
    newline is followed by whitespace and another newline, so no blank
    line is left; the text is trimmed.  A text that is in that form
    already and does not end in a semicolon is returned as it is. *)
Theorem clean_sql_effect :
  forall sql : string,
    _clean_sql sql = clean_sql_as_amended sql
    /\ contains "```" (_clean_sql sql) = false
    /\ (forall before,
           contains "`" before = false ->
           _clean_sql (before ++ "```" ++ sql) = _clean_sql (before ++ untagged sql))
    /\ (forall n, _clean_sql (sql ++ semicolons n) = _clean_sql sql)
    /\ (forall n, _clean_sql (sql ++ semicolons (S n) ++ "```") = _clean_sql sql)
    /\ collapsed (_clean_sql sql) = true
    /\ matches_nowhere m_blank_lines (_clean_sql sql) = true
    /\ strip (_clean_sql sql) = _clean_sql sql
    /\ (contains "```" sql = false ->
        rstrip_chars ";" sql = sql ->
        collapsed sql = true ->
        matches_nowhere m_blank_lines sql = true ->
        strip sql = sql ->
        _clean_sql sql = sql).
Proof.
  intros sql. split; [apply _clean_sql_as_amended|].
  split; [apply _clean_sql_no_fence|].
  split; [intros before H; now apply _clean_sql_marker|].
  split; [intros n; apply _clean_sql_semicolons|].
  split; [intros n; apply _clean_sql_semicolons_in_fence|].
  split; [|split; [|split]].
  - rewrite !_clean_sql_scan. unfold clean_scan. destruct (is_empty sql); [reflexivity|].
    apply collapsed_strip, blank_sub_keeps_collapsed, hspace_collapsed.
  - rewrite !_clean_sql_scan. unfold clean_scan. destruct (is_empty sql); [reflexivity|].
    apply blank_free_strip, blank_lines_removed.
  - rewrite !_clean_sql_scan. unfold clean_scan. destruct (is_empty sql); [reflexivity|]. apply strip_idem.
  - apply _clean_sql_fixed.
Qed.

Lemma clean_sql_effect_witness :
  _clean_sql ("SELECT 1" ++ semicolons 2) = _clean_sql "SELECT 1"
  /\ _clean_sql "SELECT 1" = "SELECT 1"
  /\ _clean_sql ("Query: " ++ "```" ++ "SQL SELECT 1;```")
     = _clean_sql ("Query: " ++ " SELECT 1;```").
Proof.
  destruct (clean_sql_effect "SELECT 1") as (_ & _ & _ & Hsemi & _ & _ & _ & _ & Hfixed).
  split; [apply Hsemi|]. split; [apply Hfixed; reflexivity|].
  destruct (clean_sql_effect "SQL SELECT 1;```") as (_ & _ & Hmarker & _).
  apply (Hmarker "Query: "). reflexivity.
Defined.

(** * Further properties of the agents *)

(** ** Quoted text reads back as the text

    A string literal of SQL ends at the first quote that is not doubled,
    and two quotes in its body stand for one.  [literal_value] reads a
    body by that rule; a quote that stands alone has no reading. *)

Fixpoint literal_value (body : string) : option string :=
  match body with
  | EmptyString => Some EmptyString
  | String c r =>
      if Ascii.eqb c quote
      then match r with
           | String c' r' =>
               if Ascii.eqb c' quote then option_map (String quote) (literal_value r') else None
           | EmptyString => None
           end
      else option_map (String c) (literal_value r)
  end.

Lemma _escape_sql_string_cons c r :
  _escape_sql_string (String c r)
  = if Ascii.eqb c quote
    then String quote (String quote (_escape_sql_string r))
    else String c (_escape_sql_string r).
Proof.
  unfold _escape_sql_string, replace. rewrite re_sub_cons.
  cbn [startswith str_of String.length].
  rewrite Ascii.eqb_sym. destruct (Ascii.eqb c quote); reflexivity.
Qed.

(** X1.  Escaping doubles every single quote and changes nothing else:
    read as the body of a SQL string literal, the escaped text has no
    quote standing alone, so it cannot end the literal early, and it
    reads back as exactly the text that was escaped. *)
Theorem escaped_text_reads_back :
  forall text : string, literal_value (_escape_sql_string text) = Some text.
Proof.
  induction text as [|c r IH]; [reflexivity|].
  rewrite _escape_sql_string_cons.
  destruct (Ascii.eqb c quote) eqn:E.
  - apply Ascii.eqb_eq in E. subst c.
    cbn [literal_value]. rewrite Ascii.eqb_refl, IH. reflexivity.
  - cbn [literal_value]. rewrite E, IH. reflexivity.
Qed.

(** ** The cleaned error message ([validator.py]) *)

Definition not_nl (c : ascii) : bool := negb (Ascii.eqb c nl).

Lemma all_chars_no_newline s : all_chars not_nl s = true -> contains (str_of nl) s = false.
Proof.
  induction s as [|c r IH]; [reflexivity|].
  cbn [all_chars]. intros H. apply andb_prop in H. destruct H as [Hc Hr].
  rewrite contains_cons, (IH Hr). cbn [startswith str_of].
  unfold not_nl in Hc. apply negb_true_iff in Hc.
  rewrite Ascii.eqb_sym, Hc. reflexivity.
Qed.

Lemma all_chars_app_l p a t : all_chars p (a ++ t) = true -> all_chars p a = true.
Proof.
  induction a as [|c a IH]; [reflexivity|].
  simpl. intros H. apply andb_prop in H. destruct H as [Hc Ha].
  now rewrite Hc, IH.
Qed.

Lemma all_chars_drop p k s : all_chars p s = true -> all_chars p (drop k s) = true.
Proof.
  revert s. induction k as [|k IH]; intros [|c r] H; simpl; auto.
  simpl in H. apply andb_prop in H. now apply IH.
Qed.

Lemma all_chars_take p k s : all_chars p s = true -> all_chars p (take k s) = true.
Proof.
  revert s. induction k as [|k IH]; intros [|c r] H; simpl; auto.
  simpl in H. apply andb_prop in H. destruct H as [Hc Hr]. now rewrite Hc, IH.
Qed.

Lemma all_chars_strip p s : all_chars p s = true -> all_chars p (strip s) = true.
Proof.
  intros H. unfold strip.
  destruct (lstrip_by_suffix is_space s) as [k ->].
  destruct (rstrip_by_prefix is_space (drop k s)) as [t E].
  apply (all_chars_app_l p _ t). rewrite <- E. now apply all_chars_drop.
Qed.

Lemma split_on_pieces sep s :
  Forall (fun w => all_chars (fun c => negb (Ascii.eqb c sep)) w = true) (split_on sep s).
Proof.
  induction s as [|c r IH]; [now repeat constructor|].
  cbn [split_on]. destruct (split_on sep r) as [|w ws]; [now repeat constructor|].
  inversion IH as [|? ? Hw Hws]; subst.
  destruct (Ascii.eqb c sep) eqn:E.
  - constructor; [reflexivity|]. now constructor.
  - constructor; [|exact Hws]. cbn [all_chars]. now rewrite E, Hw.
Qed.

Lemma split_on_not_nil sep s : split_on sep s <> [].
Proof.
  destruct s as [|c r]; [discriminate|].
  cbn [split_on]. destruct (split_on sep r); [discriminate|].
  destruct (Ascii.eqb c sep); discriminate.
Qed.

Lemma drop_drop j k s : drop k (drop j s) = drop (j + k) s.
Proof.
  revert s. induction j as [|j IH]; intros s; [reflexivity|].
  destruct s as [|c r]; [now destruct k|]. apply IH.
Qed.

Lemma drop_all s : drop (String.length s) s = "".
Proof. induction s as [|c r IH]; [reflexivity|exact IH]. Qed.

Lemma strip_empty s : strip s = "" <-> all_chars is_space s = true.
Proof.
  split.
  - induction s as [|c r IH]; [reflexivity|].
    unfold strip. cbn [lstrip_by all_chars]. destruct (is_space c) eqn:E.
    + intros H. now rewrite (IH H).
    + intros H. destruct (rstrip_by_keeps_head is_space c r E) as [r' E'].
      rewrite E' in H. discriminate.
  - intros H. unfold strip.
    rewrite <- (append_nil_r s), (lstrip_by_all _ _ _ H). reflexivity.
Qed.

(** Lines that are all blank make a text that is all whitespace, and the
    other way round. *)
Lemma blank_lines_whitespace s :
  Forall (fun line => strip line = "") (split_on nl s) <-> all_chars is_space s = true.
Proof.
  induction s as [|c r IH]; [split; [reflexivity|now repeat constructor]|].
  cbn [split_on all_chars]. pose proof (split_on_not_nil nl r) as Hne.
  destruct (split_on nl r) as [|w ws]; [contradiction|].
  destruct IH as [IH1 IH2].
  destruct (Ascii.eqb c nl) eqn:E.
  - apply Ascii.eqb_eq in E. subst c. split.
    + intros H. inversion H as [|? ? _ Hws]; subst. now rewrite (IH1 Hws).
    + intros H. apply andb_prop in H. destruct H as [_ H]. constructor; [reflexivity|auto].
  - split.
    + intros H. inversion H as [|? ? Hw Hws]; subst.
      apply strip_empty in Hw. cbn [all_chars] in Hw.
      apply andb_prop in Hw. destruct Hw as [Hc Hw]. rewrite Hc. cbn [andb].
      apply IH1. constructor; [now apply strip_empty|exact Hws].
    + intros H. apply andb_prop in H. destruct H as [Hc H].
      specialize (IH2 H). inversion IH2 as [|? ? Hw Hws]; subst.
      constructor; [|exact Hws].
      apply strip_empty. cbn [all_chars]. apply strip_empty in Hw.
      now rewrite Hw, Hc.
Qed.

Lemma space_is_not_e c : is_space c = true -> Ascii.eqb "e" (lower_char c) = false.
Proof.
  destruct c as [[] [] [] [] [] [] [] []]; intros H; try reflexivity;
    vm_compute in H; discriminate.
Qed.

Lemma whitespace_names_no_error s :
  all_chars is_space s = true -> contains "error" (lower s) = false.
Proof.
  induction s as [|c r IH]; [reflexivity|].
  cbn [all_chars lower]. intros H. apply andb_prop in H. destruct H as [Hc Hr].
  rewrite contains_cons, (IH Hr). cbn [startswith].
  now rewrite (space_is_not_e c Hc).
Qed.

(** The loop over [prefixes_to_remove] cuts characters off the front. *)
Lemma prefixes_cut prefixes s :
  exists k,
    fold_left (fun cleaned prefix =>
                 if startswith prefix cleaned
                 then drop (String.length prefix) cleaned else cleaned)
              prefixes s
    = drop k s.
Proof.
  revert s. induction prefixes as [|p ps IH]; intros s; [now exists 0%nat|].
  cbn [fold_left]. destruct (startswith p s).
  - destruct (IH (drop (String.length p) s)) as [k ->].
    rewrite drop_drop. eauto.
  - apply IH.
Qed.

(** The message is cut out of one line of the error text. *)
Lemma _extract_error_message_line error_text :
  error_text <> "" ->
  exists line k,
    In line (split_on nl error_text)
    /\ _extract_error_message error_text = drop k (strip line).
Proof.
  intros Hne. unfold _extract_error_message.
  assert (Hi : is_empty error_text = false) by now destruct error_text.
  rewrite Hi.
  destruct (find (fun line => contains "error" (lower line)) (split_on nl error_text))
    as [line|] eqn:E1.
  - apply find_some in E1. destruct E1 as [Hin _].
    destruct (prefixes_cut error_prefixes (strip line)) as [k Hk].
    exists line, k. split; [exact Hin|exact Hk].
  - destruct (find (fun line => negb (is_empty (strip line))) (split_on nl error_text))
      as [line|] eqn:E2.
    + apply find_some in E2. destruct E2 as [Hin _]. now exists line, 0%nat.
    + assert (Hblank : all_chars is_space error_text = true).
      { apply blank_lines_whitespace. apply Forall_forall. intros line Hin.
        pose proof (find_none _ _ E2 line Hin) as H. cbn beta in H.
        apply negb_false_iff in H. now destruct (strip line). }
      pose proof (split_on_not_nil nl error_text) as Hnil.
      destruct (split_on nl error_text) as [|line rest] eqn:El; [contradiction|].
      exists line, (String.length (strip line)). split; [now left|].
      rewrite drop_all. apply strip_empty. now apply all_chars_take.
Qed.

(** X2.  The message cut out of an error text is one line: whatever the
    text, the message holds no newline.  (It is taken from a single line
    of the text, so a description that runs over several lines is cut to
    the line that names the error.) *)
Theorem error_message_is_one_line :
  forall error_text : string,
    contains (str_of nl) (_extract_error_message error_text) = false.
Proof.
  intros error_text. destruct error_text as [|c r] eqn:E; [reflexivity|]. rewrite <- E.
  destruct (_extract_error_message_line error_text) as (line & k & Hin & ->);
    [rewrite E; discriminate|].
  apply all_chars_no_newline, all_chars_drop, all_chars_strip.
  pose proof (split_on_pieces nl error_text) as H.
  rewrite Forall_forall in H. exact (H line Hin).
Qed.

Lemma startswith_split p s : startswith p s = true -> s = p ++ drop (String.length p) s.
Proof.
  revert s. induction p as [|a p IH]; intros s H; [reflexivity|].
  destruct s as [|b s]; [discriminate|]. cbn [startswith] in H.
  apply andb_prop in H. destruct H as [Hab Hp]. apply Ascii.eqb_eq in Hab. subst b.
  simpl. now rewrite <- (IH s Hp).
Qed.

Lemma rstrip_by_empty p t : rstrip_by p t = "" -> all_chars p t = true.
Proof.
  induction t as [|c r IH]; [reflexivity|].
  cbn [rstrip_by all_chars].
  destruct (rstrip_by p r) as [|c' r']; cbn [is_empty andb].
  - destruct (p c); [intros _; now rewrite IH|discriminate].
  - discriminate.
Qed.

Lemma append_inv_head (a b c : string) : a ++ b = a ++ c -> b = c.
Proof. induction a as [|x a IH]; simpl; [auto|]. intros H. inversion H. auto. Qed.

Lemma length_append (a b : string) :
  String.length (a ++ b) = (String.length a + String.length b)%nat.
Proof. induction a as [|c a IH]; simpl; [reflexivity|now rewrite IH]. Qed.

Lemma length_rstrip_by p s : (String.length (rstrip_by p s) <= String.length s)%nat.
Proof.
  destruct (rstrip_by_prefix p s) as [t E]. rewrite E at 2.
  rewrite length_append. lia.
Qed.

(** A text that does not end in whitespace, cut after a prefix that
    does, is not empty and does not end in whitespace. *)
Lemma cut_after_prefix p s :
  rstrip_by is_space p <> p ->
  rstrip_by is_space s = s ->
  startswith p s = true ->
  drop (String.length p) s <> ""
  /\ rstrip_by is_space (drop (String.length p) s) = drop (String.length p) s.
Proof.
  intros Hp Hs Hstart. pose proof (startswith_split p s Hstart) as E.
  remember (drop (String.length p) s) as t eqn:Et. clear Et.
  assert (Ht : rstrip_by is_space t <> "").
  { intros H. apply rstrip_by_empty in H.
    rewrite E, (rstrip_by_app_all _ _ _ H) in Hs.
    pose proof (length_rstrip_by is_space p) as Hlen.
    rewrite Hs, length_append in Hlen.
    destruct t as [|c t]; [|simpl in Hlen; lia].
    rewrite append_nil_r in Hs. contradiction. }
  split.
  - intros ->. contradiction.
  - rewrite E, (rstrip_by_app _ _ _ Ht) in Hs. now apply append_inv_head in Hs.
Qed.

Lemma prefixes_leave_text prefixes s :
  Forall (fun p => rstrip_by is_space p <> p) prefixes ->
  s <> "" ->
  rstrip_by is_space s = s ->
  fold_left (fun cleaned prefix =>
               if startswith prefix cleaned
               then drop (String.length prefix) cleaned else cleaned)
            prefixes s
  <> "".
Proof.
  intros Hps. revert s. induction Hps as [|p ps Hp _ IH]; intros s Hne Hs; [exact Hne|].
  cbn [fold_left]. destruct (startswith p s) eqn:E.
  - destruct (cut_after_prefix p s Hp Hs E) as [H1 H2]. now apply IH.
  - now apply IH.
Qed.

Lemma error_prefixes_end_in_space :
  Forall (fun p => rstrip_by is_space p <> p) error_prefixes.
Proof. repeat constructor; discriminate. Qed.

(** X3.  The message is empty exactly when the error text is not empty
    and holds nothing but whitespace.  An error text with a visible
    character always gives a message with text in it, and the empty
    error text gives the fixed message for a missing error. *)
Theorem error_message_empty_only_for_whitespace :
  forall error_text : string,
    is_empty (_extract_error_message error_text)
    = negb (is_empty error_text) && all_chars is_space error_text.
Proof.
  intros error_text. destruct error_text as [|c r] eqn:E; [reflexivity|].
  rewrite <- E. assert (Hi : is_empty error_text = false) by now rewrite E.
  rewrite Hi. cbn [negb andb]. unfold _extract_error_message. rewrite Hi.
  destruct (find (fun line => contains "error" (lower line)) (split_on nl error_text))
    as [line|] eqn:E1.
  - apply find_some in E1. destruct E1 as [Hin Herr].
    assert (Hline : strip line <> "").
    { intros H. apply strip_empty in H.
      rewrite (whitespace_names_no_error line H) in Herr. discriminate. }
    assert (Hws : all_chars is_space error_text = false).
    { destruct (all_chars is_space error_text) eqn:Hws; [|reflexivity].
      apply blank_lines_whitespace in Hws. rewrite Forall_forall in Hws.
      now specialize (Hws line Hin). }
    rewrite Hws.
    pose proof (prefixes_leave_text error_prefixes (strip line)
                  error_prefixes_end_in_space Hline (rstrip_by_idem _ _)) as H.
    now destruct (fold_left _ error_prefixes (strip line)).
  - destruct (find (fun line => negb (is_empty (strip line))) (split_on nl error_text))
      as [line|] eqn:E2.
    + apply find_some in E2. destruct E2 as [Hin Hline].
      assert (Hws : all_chars is_space error_text = false).
      { destruct (all_chars is_space error_text) eqn:Hws; [|reflexivity].
        apply blank_lines_whitespace in Hws. rewrite Forall_forall in Hws.
        rewrite (Hws line Hin) in Hline. discriminate. }
      rewrite Hws. now apply negb_true_iff in Hline.
    + assert (Hblank : all_chars is_space error_text = true).
      { apply blank_lines_whitespace. apply Forall_forall. intros line Hin.
        pose proof (find_none _ _ E2 line Hin) as H. cbn beta in H.
        apply negb_false_iff in H. now destruct (strip line). }
      rewrite Hblank.
      assert (H : strip (take 200 error_text) = "")
        by now apply strip_empty, all_chars_take.
      now rewrite H.
Qed.

(** ** The passes of the retry loop, one by one

    [pass st step d]: a pass from the state [st] ends in [step] and
    leaves the events [d] after the attempt number it prints.  The five
    cases are the five ways through the body of the loop. *)

Section Attempts.

Context {World DataFrame : Type}.
Variable build_prompt : string -> SchemaContext -> list GoldenExample -> string.
Variable session : Session World DataFrame.
Variable question : string.
Variable schema_context : SchemaContext.
Variable max_retries : Z.

(** The SQL of the next pass and the events of the regeneration: the
    generator is called with the enriched question, and an empty answer
    keeps the SQL that failed. *)
Definition regenerated (error_message previous_sql new_sql : string) (d : Trace) : Prop :=
  exists w t generated w',
    generate_sql build_prompt session
                 (enriched_question question error_message previous_sql)
                 schema_context [] (w, t)
    = (generated, (w', (t ++ d)%list))
    /\ new_sql = (if is_empty generated then previous_sql else generated).

Inductive pass (st : RetryState) : Step DataFrame -> Trace -> Prop :=
| pass_success w w1 w2 rows :
    explain session (current_sql st) w = (Returned tt, w1) ->
    run session (current_sql st) w1 = (Returned rows, w2) ->
    pass st (Return (current_sql st) (Success rows))
         [Explain (current_sql st); Run (current_sql st)]
| pass_invalid w w1 e :
    explain session (current_sql st) w = (Raised e, w1) ->
    (attempt st <? max_retries)%Z = false ->
    pass st (Return (current_sql st) (Failure (_extract_error_message e)))
         [Explain (current_sql st)]
| pass_invalid_retry w w1 e new_sql d :
    explain session (current_sql st) w = (Raised e, w1) ->
    (attempt st <? max_retries)%Z = true ->
    regenerated (_extract_error_message e) (current_sql st) new_sql d ->
    pass st (Continue {| attempt := attempt st + 1;
                         last_error := Some (_extract_error_message e);
                         current_sql := new_sql |})
         (Explain (current_sql st) :: d)
| pass_failed w w1 w2 e :
    explain session (current_sql st) w = (Returned tt, w1) ->
    run session (current_sql st) w1 = (Raised e, w2) ->
    (attempt st <? max_retries)%Z = false ->
    pass st (Return (current_sql st)
                    (Failure ("Execution error: " ++ _extract_error_message e)))
         [Explain (current_sql st); Run (current_sql st)]
| pass_failed_retry w w1 w2 e new_sql d :
    explain session (current_sql st) w = (Returned tt, w1) ->
    run session (current_sql st) w1 = (Raised e, w2) ->
    (attempt st <? max_retries)%Z = true ->
    regenerated (_extract_error_message e) (current_sql st) new_sql d ->
    pass st (Continue {| attempt := attempt st + 1;
                         last_error := Some ("Execution error: " ++ _extract_error_message e);
                         current_sql := new_sql |})
         (Explain (current_sql st) :: Run (current_sql st) :: d).

(** The passes from a state to the value returned, and the events they
    leave. *)
Inductive attempts : RetryState -> string * ExecutionOutcome DataFrame -> Trace -> Prop :=
| attempts_last st final_sql result d :
    pass st (Return final_sql result) d ->
    attempts st (final_sql, result) (PrintAttempt (attempt st + 1) :: d)
| attempts_more st st' d result d' :
    pass st (Continue st') d ->
    attempts st' result d' ->
    attempts st result (PrintAttempt (attempt st + 1) :: d ++ d')%list.

Lemma retry_regenerates error_message previous_sql w t :
  exists new_sql w' d,
    _retry_with_error_feedback build_prompt session question schema_context
                               error_message previous_sql (w, t)
    = (new_sql, (w', (t ++ d)%list))
    /\ regenerated error_message previous_sql new_sql d.
Proof.
  destruct (generate_sql_traced build_prompt session
              (enriched_question question error_message previous_sql) schema_context [] w)
    as (generated & w' & d & _ & E).
  rewrite _retry_with_error_feedback_result. cbv zeta. rewrite (E t). cbn [fst snd].
  eexists _, w', d. split; [reflexivity|].
  exists w, t, generated, w'. split; [apply E|reflexivity].
Qed.

Lemma iteration_is_pass st w t :
  exists step w' d,
    iteration build_prompt session question schema_context max_retries st (w, t)
    = (step, (w', (t ++ PrintAttempt (attempt st + 1) :: d)%list))
    /\ pass st step d.
Proof.
  unfold iteration, _validate_sql, _execute_sql.
  unfold bind at 1, emit. cbn [fst snd].
  unfold bind at 1. rewrite bind_call. unfold ret at 1.
  destruct (explain session (current_sql st) w) as [[e|[]] w1] eqn:Ex; cbn [fst snd].
  - destruct (attempt st <? max_retries)%Z eqn:Hlt.
    + unfold bind. match goal with
      | |- context [_retry_with_error_feedback _ _ _ _ ?err ?prev (?w1, ?t1)] =>
          destruct (retry_regenerates err prev w1 t1) as (new_sql & w2 & d & E & Hd)
      end.
      rewrite E. unfold ret.
      eexists _, w2, (Explain (current_sql st) :: d)%list. split.
      * now rewrite <- !app_assoc.
      * now apply (pass_invalid_retry st w w1).
    + unfold ret. eexists _, w1, [Explain (current_sql st)]. split.
      * now rewrite <- !app_assoc.
      * now apply (pass_invalid st w w1).
  - unfold bind at 1. rewrite bind_call. unfold ret at 1.
    destruct (run session (current_sql st) w1) as [[e|rows] w2] eqn:Er; cbn [fst snd].
    + destruct (attempt st <? max_retries)%Z eqn:Hlt.
      * unfold bind. match goal with
        | |- context [_retry_with_error_feedback _ _ _ _ ?err ?prev (?w1, ?t1)] =>
            destruct (retry_regenerates err prev w1 t1) as (new_sql & w3 & d & E & Hd)
        end.
        rewrite E. unfold ret.
        eexists _, w3, (Explain (current_sql st) :: Run (current_sql st) :: d)%list. split.
        -- now rewrite <- !app_assoc.
        -- now apply (pass_failed_retry st w w1 w2).
      * unfold ret. eexists _, w2, [Explain (current_sql st); Run (current_sql st)]. split.
        -- now rewrite <- !app_assoc.
        -- now apply (pass_failed st w w1 w2).
    + unfold ret. eexists _, w2, [Explain (current_sql st); Run (current_sql st)]. split.
      * now rewrite <- !app_assoc.
      * now apply (pass_success st w w1 w2).
Qed.

(** A pass that continues had a retry left. *)
Lemma pass_continues st st' d :
  pass st (Continue st') d ->
  (attempt st < max_retries)%Z /\ attempt st' = (attempt st + 1)%Z.
Proof.
  intros H. inversion H; subst; cbn [attempt];
    match goal with H : (_ <? _)%Z = true |- _ => apply Z.ltb_lt in H end; auto.
Qed.

(** From a state that may still attempt, the loop makes its passes and
    returns from inside one of them: the return after the loop is not
    reached. *)
Lemma retry_loop_attempts fuel :
  forall st w t,
    (attempt st <= max_retries)%Z ->
    (passes_left max_retries st <= fuel)%nat ->
    exists result w' d,
      retry_loop build_prompt fuel session question schema_context max_retries st (w, t)
      = (Some result, (w', (t ++ d)%list))
      /\ attempts st result d.
Proof.
  induction fuel as [|fuel IH]; intros st w t Hle Hfuel.
  - unfold passes_left in Hfuel. lia.
  - cbn [retry_loop]. apply Z.leb_le in Hle. rewrite Hle. apply Z.leb_le in Hle.
    destruct (iteration_is_pass st w t) as (step & w1 & d1 & E1 & Hpass).
    unfold bind. rewrite E1. destruct step as [st'|final_sql result].
    + destruct (pass_continues st st' d1 Hpass) as [Hlt Hnext].
      destruct (IH st' w1 (t ++ PrintAttempt (attempt st + 1) :: d1)%list)
        as (result & w2 & d2 & E2 & Hrest).
      { lia. }
      { unfold passes_left in *. lia. }
      exists result, w2, (PrintAttempt (attempt st + 1) :: d1 ++ d2)%list. split.
      * rewrite E2. now rewrite <- app_assoc.
      * now apply (attempts_more st st').
    + exists (final_sql, result), w1, (PrintAttempt (attempt st + 1) :: d1)%list.
      split; [reflexivity|]. now apply attempts_last.
Qed.

End Attempts.

(** Every [Run] stands directly after the [Explain] of the same SQL. *)
Fixpoint validated_before_run (t : Trace) : bool :=
  match t with
  | [] => true
  | Run _ :: _ => false
  | Explain validated :: Run executed :: rest =>
      String.eqb validated executed && validated_before_run rest
  | _ :: rest => validated_before_run rest
  end.

(** The SQL texts sent to the warehouse are not blank. *)
Definition sends_sql (e : Event) : Prop :=
  match e with
  | Explain sql | Run sql => blank sql = false
  | _ => True
  end.

Lemma count_cons p e (t : Trace) :
  count p (e :: t) = ((if p e then 1 else 0) + count p t)%nat.
Proof. unfold count. cbn [filter]. now destruct (p e). Qed.

Section AttemptInvariants.

Context {World DataFrame : Type}.
Variable build_prompt : string -> SchemaContext -> list GoldenExample -> string.
Variable session : Session World DataFrame.
Variable question : string.
Variable schema_context : SchemaContext.
Variable max_retries : Z.

Local Abbreviation regenerated := (regenerated build_prompt session question schema_context).
Local Abbreviation pass := (pass build_prompt session question schema_context max_retries).
Local Abbreviation attempts :=
  (attempts build_prompt session question schema_context max_retries).

Lemma regenerated_events error_message previous_sql new_sql d :
  regenerated error_message previous_sql new_sql d ->
  d = [] \/ exists prompt, d = [Complete prompt].
Proof.
  intros (w & t & generated & w' & E & _). unfold generate_sql in E.
  destruct (blank _).
  { left. injection E as Hg Hw Ht. rewrite <- (app_nil_r t) in Ht at 1.
    now apply app_inv_head in Ht. }
  destruct (is_nil schema_context).
  { left. injection E as Hg Hw Ht. rewrite <- (app_nil_r t) in Ht at 1.
    now apply app_inv_head in Ht. }
  cbv zeta in E. rewrite bind_call in E. unfold ret in E.
  right. injection E as Hg Hw Ht. apply app_inv_head in Ht. eauto.
Qed.

Lemma regenerated_not_blank error_message previous_sql new_sql d :
  regenerated error_message previous_sql new_sql d ->
  new_sql = previous_sql \/ blank new_sql = false.
Proof.
  intros (w & t & generated & w' & E & ->).
  pose proof (generate_sql_blank_is_empty build_prompt session
                (enriched_question question error_message previous_sql)
                schema_context [] (w, t)) as H.
  rewrite E in H. cbn [fst] in H.
  destruct generated as [|c r]; [now left|]. right. cbn [is_empty].
  destruct (blank (String c r)); [|reflexivity]. now specialize (H eq_refl).
Qed.

Lemma regenerated_no_schema error_message previous_sql new_sql d :
  is_nil schema_context = true ->
  regenerated error_message previous_sql new_sql d ->
  d = [] /\ new_sql = previous_sql.
Proof.
  intros Hs (w & t & generated & w' & E & ->). unfold generate_sql in E.
  rewrite Hs in E.
  assert (E' : ("", (w, t)) = (generated, (w', (t ++ d)%list)))
    by (destruct (blank _); exact E).
  injection E' as Hg Hw Ht. subst generated.
  rewrite <- (app_nil_r t) in Ht at 1. apply app_inv_head in Ht. now split.
Qed.

Lemma attempts_head st result d :
  attempts st result d -> exists d0, d = PrintAttempt (attempt st + 1) :: d0.
Proof. intros H. inversion H; subst; eauto. Qed.

Lemma attempts_validated st result d :
  attempts st result d -> validated_before_run d = true.
Proof.
  induction 1 as [st final_sql result d Hpass|st st' d result d' Hpass Hrest IH].
  - inversion Hpass; subst; cbn [validated_before_run]; now rewrite ?String.eqb_refl.
  - destruct (attempts_head _ _ _ Hrest) as [d0 ->].
    inversion Hpass; subst;
      match goal with H : regenerated _ _ _ _ |- _ =>
        destruct (regenerated_events _ _ _ _ H) as [->|[prompt ->]] end;
      cbn [validated_before_run app] in *; now rewrite ?String.eqb_refl.
Qed.

(** A regeneration needs a retry, and every pass explains first. *)
Lemma attempts_completions st result d :
  attempts st result d ->
  (count is_completion d <= Z.to_nat (max_retries - attempt st))%nat
  /\ (count is_completion d < count is_explain d)%nat.
Proof.
  induction 1 as [st final_sql result d Hpass|st st' d result d' Hpass Hrest [IH1 IH2]].
  - inversion Hpass; subst; rewrite !count_cons; cbn; lia.
  - destruct (pass_continues _ _ _ _ _ _ _ _ Hpass) as [Hlt Hnext].
    rewrite Hnext in IH1.
    inversion Hpass; subst;
      match goal with H : regenerated _ _ _ _ |- _ =>
        destruct (regenerated_events _ _ _ _ H) as [->|[prompt ->]] end;
      rewrite ?count_cons; cbn [app is_completion is_explain];
      rewrite ?count_cons; cbn [is_completion is_explain]; lia.
Qed.

Lemma attempts_no_schema st result d :
  schema_context = [] ->
  attempts st result d ->
  count is_completion d = 0%nat /\ fst result = current_sql st.
Proof.
  intros Hs. assert (Hn : is_nil schema_context = true) by now rewrite Hs.
  clear Hs.
  induction 1 as [st final_sql result d Hpass|st st' d result d' Hpass Hrest [IH1 IH2]].
  - inversion Hpass; subst; rewrite !count_cons; cbn; auto.
  - inversion Hpass; subst;
      match goal with H : regenerated _ _ _ _ |- _ =>
        destruct (regenerated_no_schema _ _ _ _ Hn H) as [-> ->] end;
      cbn [current_sql] in IH2; rewrite ?count_cons; cbn [app is_completion];
      rewrite ?count_cons; cbn [is_completion]; split; try lia; exact IH2.
Qed.

Lemma attempts_send_sql st result d :
  blank (current_sql st) = false ->
  attempts st result d ->
  Forall sends_sql d /\ blank (fst result) = false.
Proof.
  intros Hb H. revert Hb.
  induction H as [st final_sql result d Hpass|st st' d result d' Hpass Hrest IH]; intros Hb.
  - inversion Hpass; subst; cbn [fst]; split; auto; repeat constructor; exact Hb.
  - assert (Hnext : blank (current_sql st') = false).
    { inversion Hpass; subst; cbn [current_sql];
        match goal with H : regenerated _ _ _ _ |- _ =>
          destruct (regenerated_not_blank _ _ _ _ H) as [->|Hn] end; assumption. }
    destruct (IH Hnext) as [IH1 IH2]. split; [|exact IH2].
    constructor; [exact I|]. apply Forall_app. split; [|exact IH1].
    inversion Hpass; subst;
      match goal with H : regenerated _ _ _ _ |- _ =>
        destruct (regenerated_events _ _ _ _ H) as [->|[prompt ->]] end;
      repeat constructor; exact Hb.
Qed.

(** The value returned is that of the last pass: the events end with
    the explain, and the run when there was one, of the SQL returned. *)
Lemma attempts_end st final_sql result d :
  attempts st (final_sql, result) d ->
  match result with
  | Success _ => exists d0, d = (d0 ++ [Explain final_sql; Run final_sql])%list
  | Failure _ =>
      exists d0, d = (d0 ++ [Explain final_sql])%list
                 \/ d = (d0 ++ [Explain final_sql; Run final_sql])%list
  end.
Proof.
  remember (final_sql, result) as r eqn:Er. intros H. revert final_sql result Er.
  induction H as [st f res d Hpass|st st' d res d' Hpass Hrest IH];
    intros final_sql result Er.
  - inversion Er; subst. inversion Hpass; subst.
    + now exists [PrintAttempt (attempt st + 1)].
    + exists [PrintAttempt (attempt st + 1)]. now left.
    + exists [PrintAttempt (attempt st + 1)]. now right.
  - specialize (IH final_sql result Er). destruct result.
    + destruct IH as [d0 ->].
      exists (PrintAttempt (attempt st + 1) :: d ++ d0)%list.
      now rewrite app_comm_cons, app_assoc.
    + destruct IH as [d0 [-> | ->]];
        exists (PrintAttempt (attempt st + 1) :: d ++ d0)%list; [left|right];
        now rewrite app_comm_cons, app_assoc.
Qed.

(** A failure carries the cleaned text of an error that the explain or
    the run of the SQL returned has raised. *)
Lemma attempts_failure st final_sql message d :
  attempts st (final_sql, Failure message) d ->
  exists e w,
    (fst (explain session final_sql w) = Raised e
     /\ message = _extract_error_message e)
    \/ (fst (run session final_sql w) = Raised e
        /\ message = "Execution error: " ++ _extract_error_message e).
Proof.
  remember (final_sql, Failure message) as r eqn:Er. intros H. revert Er.
  induction H as [st f res d Hpass|st st' d res d' Hpass Hrest IH]; intros Er.
  - inversion Er; subst. inversion Hpass; subst.
    + match goal with H : explain _ _ ?w = _ |- _ => exists e, w; left; now rewrite H end.
    + match goal with H : run _ _ ?w = _ |- _ => exists e, w; right; now rewrite H end.
  - now apply IH.
Qed.

(** Without a retry left there is one pass. *)
Lemma attempts_single st final_sql result d :
  (max_retries <= attempt st)%Z ->
  attempts st (final_sql, result) d ->
  final_sql = current_sql st
  /\ (d = [PrintAttempt (attempt st + 1); Explain final_sql]
      \/ d = [PrintAttempt (attempt st + 1); Explain final_sql; Run final_sql]).
Proof.
  intros Hle H. inversion H as [? ? ? ? Hpass|? ? ? ? ? Hpass Hrest]; subst.
  - inversion Hpass; subst; auto.
  - destruct (pass_continues _ _ _ _ _ _ _ _ Hpass) as [Hlt _]. lia.
Qed.

End AttemptInvariants.

(** A call with SQL that is not blank makes the passes of the loop from
    the first attempt; a negative [max_retries] counts as zero. *)
Lemma validate_and_execute_attempts {World DataFrame : Type}
      (build_prompt : string -> SchemaContext -> list GoldenExample -> string)
      (session : Session World DataFrame) (sql question : string)
      (schema_context : SchemaContext) (N : Z) (w : World) :
  blank sql = false ->
  exists final_sql outcome w' t,
    Agent.run_from
      (validate_and_execute build_prompt session sql question schema_context N) w
    = (Some (final_sql, outcome), (w', t))
    /\ attempts build_prompt session question schema_context
                (if (N <? 0)%Z then 0%Z else N) (initial_state sql) (final_sql, outcome) t.
Proof.
  intros Hb. unfold Agent.run_from, validate_and_execute. rewrite Hb.
  set (max_retries := if (N <? 0)%Z then 0%Z else N).
  assert (Hmax : (0 <= max_retries)%Z).
  { unfold max_retries. destruct (N <? 0)%Z eqn:E; [lia|]. apply Z.ltb_ge in E. lia. }
  destruct (retry_loop_attempts build_prompt session question schema_context max_retries
              (S (Z.to_nat max_retries)) (initial_state sql) w [])
    as ([final_sql outcome] & w' & d & E & H).
  { cbn [initial_state attempt]. lia. }
  { unfold passes_left. cbn [initial_state attempt]. lia. }
  exists final_sql, outcome, w', d. split; [exact E|exact H].
Qed.

(** ** The trace replayed against the session

    Every event but the printed attempt number is one call of an
    operation of the session, which takes the world and leaves the next
    one.  Replayed from the world a call started in, the trace gives the
    world each of its events was made in, and with it what the operation
    answered there. *)

Section Replay.

Context {World DataFrame : Type}.
Variable session : Session World DataFrame.

Definition world_after (e : Event) (w : World) : World :=
  match e with
  | Search question search_limit => snd (search_preview session question search_limit w)
  | KeywordSearch keywords row_limit => snd (keyword_query session keywords row_limit w)
  | FetchDescriptions names => snd (descriptions_of session names w)
  | FetchCatalog names => snd (catalog_columns_of session names w)
  | FullCatalog => snd (catalog_columns session w)
  | Complete prompt => snd (cortex_complete session prompt w)
  | Explain sql => snd (explain session sql w)
  | Run sql => snd (run session sql w)
  | PrintAttempt _ => w
  end.

Definition world_along (w : World) (t : Trace) : World :=
  fold_left (fun w e => world_after e w) t w.

(** What the EXPLAIN of [sql] in the world [w] leaves to run: [sql] when
    it returned, nothing when it raised. *)
Definition passed_by_explain (sql : string) (w : World) : option string :=
  match fst (explain session sql w) with
  | Returned _ => Some sql
  | Raised _ => None
  end.

(** Every [Run] stands directly after an [Explain] of the same SQL that
    returned in the world it was made in.  [passed] is the SQL that the
    event before has validated, if it has. *)
Fixpoint runs_validated (passed : option string) (w : World) (t : Trace) : bool :=
  match t with
  | [] => true
  | e :: rest =>
      match e with
      | Explain sql => runs_validated (passed_by_explain sql w) (world_after e w) rest
      | Run sql =>
          match passed with
          | Some validated =>
              String.eqb validated sql && runs_validated None (world_after e w) rest
          | None => false
          end
      | _ => runs_validated None (world_after e w) rest
      end
  end.

Lemma world_along_app w d d' :
  world_along w (d ++ d') = world_along (world_along w d) d'.
Proof. apply fold_left_app. Qed.

Variable build_prompt : string -> SchemaContext -> list GoldenExample -> string.
Variable question : string.
Variable schema_context : SchemaContext.
Variable max_retries : Z.

(** [replayed w d w']: the events [d], made from the world [w], leave
    the world [w'] and validate nothing that is still to run. *)
Definition replayed (w : World) (d : Trace) (w' : World) : Prop :=
  world_along w d = w'
  /\ forall rest, runs_validated None w (d ++ rest) = runs_validated None w' rest.

Lemma replayed_nil w : replayed w [] w.
Proof. split; reflexivity. Qed.

Lemma replayed_app w d w1 d' w2 :
  replayed w d w1 -> replayed w1 d' w2 -> replayed w (d ++ d') w2.
Proof.
  intros [E1 H1] [E2 H2]. split.
  - now rewrite world_along_app, E1.
  - intros rest. now rewrite <- app_assoc, H1, H2.
Qed.

Lemma generate_sql_replayed asked golden_examples w t :
  exists generated w' d,
    generate_sql build_prompt session asked schema_context golden_examples (w, t)
    = (generated, (w', (t ++ d)%list))
    /\ replayed w d w'.
Proof.
  unfold generate_sql.
  destruct (blank asked).
  { exists "", w, []. rewrite app_nil_r. split; [reflexivity|apply replayed_nil]. }
  destruct (is_nil schema_context).
  { exists "", w, []. rewrite app_nil_r. split; [reflexivity|apply replayed_nil]. }
  cbv zeta. rewrite bind_call. unfold ret.
  eexists _, _, [Complete _]. split; [reflexivity|].
  split; reflexivity.
Qed.

Lemma retry_replayed error_message previous_sql w t :
  exists new_sql w' d,
    _retry_with_error_feedback build_prompt session question schema_context
                               error_message previous_sql (w, t)
    = (new_sql, (w', (t ++ d)%list))
    /\ replayed w d w'.
Proof.
  destruct (generate_sql_replayed (enriched_question question error_message previous_sql)
                                  [] w t) as (generated & w' & d & E & H).
  rewrite _retry_with_error_feedback_result. cbv zeta. rewrite E. cbn [fst snd].
  eexists _, w', d. split; [reflexivity|exact H].
Qed.

(** One pass of the loop: the attempt number, the EXPLAIN, the run when
    the EXPLAIN returned, the regeneration when a retry is left. *)
Lemma iteration_replayed st w t :
  exists step w' d,
    iteration build_prompt session question schema_context max_retries st (w, t)
    = (step, (w', (t ++ d)%list))
    /\ world_along w d = w'
    /\ forall passed rest, runs_validated passed w (d ++ rest) = runs_validated None w' rest.
Proof.
  unfold iteration, _validate_sql, _execute_sql.
  unfold bind at 1, emit. cbn [fst snd].
  unfold bind at 1. rewrite bind_call. unfold ret at 1.
  destruct (explain session (current_sql st) w) as [[e|[]] w1] eqn:Ex; cbn [fst snd].
  - assert (Hw : forall passed d rest,
               runs_validated passed w
                 ((PrintAttempt (attempt st + 1) :: Explain (current_sql st) :: d) ++ rest)
               = runs_validated None w1 (d ++ rest)).
    { intros passed d rest. cbn [app runs_validated world_after].
      unfold passed_by_explain. now rewrite Ex. }
    assert (Ha : forall d, world_along w (PrintAttempt (attempt st + 1)
                                           :: Explain (current_sql st) :: d)
                           = world_along w1 d).
    { intros d. unfold world_along. cbn [fold_left world_after]. now rewrite Ex. }
    destruct (attempt st <? max_retries)%Z eqn:Hlt.
    + unfold bind. match goal with
      | |- context [_retry_with_error_feedback _ _ _ _ ?err ?prev (?w1, ?t1)] =>
          destruct (retry_replayed err prev w1 t1) as (new_sql & w2 & d & E & Hd1 & Hd2)
      end.
      rewrite E. unfold ret.
      eexists _, w2, (PrintAttempt (attempt st + 1) :: Explain (current_sql st) :: d)%list.
      split; [now rewrite <- !app_assoc|]. split; [now rewrite Ha|].
      intros passed rest. now rewrite Hw, Hd2.
    + unfold ret.
      eexists _, w1, [PrintAttempt (attempt st + 1); Explain (current_sql st)].
      split; [now rewrite <- !app_assoc|]. split; [now rewrite Ha|].
      intros passed rest. now rewrite Hw.
  - unfold bind at 1. rewrite bind_call. unfold ret at 1.
    destruct (run session (current_sql st) w1) as [ran w2] eqn:Er; cbn [fst snd].
    assert (Hw : forall passed d rest,
               runs_validated passed w
                 ((PrintAttempt (attempt st + 1) :: Explain (current_sql st)
                     :: Run (current_sql st) :: d) ++ rest)
               = runs_validated None w2 (d ++ rest)).
    { intros passed d rest. cbn [app runs_validated world_after].
      unfold passed_by_explain. rewrite Ex. cbn [fst snd].
      now rewrite Er, String.eqb_refl. }
    assert (Ha : forall d, world_along w (PrintAttempt (attempt st + 1)
                                           :: Explain (current_sql st)
                                           :: Run (current_sql st) :: d)
                           = world_along w2 d).
    { intros d. unfold world_along. cbn [fold_left world_after]. rewrite Ex. cbn [snd].
      now rewrite Er. }
    destruct ran as [e|rows].
    + destruct (attempt st <? max_retries)%Z eqn:Hlt.
      * unfold bind. match goal with
        | |- context [_retry_with_error_feedback _ _ _ _ ?err ?prev (?w1, ?t1)] =>
            destruct (retry_replayed err prev w1 t1) as (new_sql & w3 & d & E & Hd1 & Hd2)
        end.
        rewrite E. unfold ret.
        eexists _, w3, (PrintAttempt (attempt st + 1) :: Explain (current_sql st)
                          :: Run (current_sql st) :: d)%list.
        split; [now rewrite <- !app_assoc|]. split; [now rewrite Ha|].
        intros passed rest. now rewrite Hw, Hd2.
      * unfold ret.
        eexists _, w2, [PrintAttempt (attempt st + 1); Explain (current_sql st);
                        Run (current_sql st)].
        split; [now rewrite <- !app_assoc|]. split; [now rewrite Ha|].
        intros passed rest. now rewrite Hw.
    + unfold ret.
      eexists _, w2, [PrintAttempt (attempt st + 1); Explain (current_sql st);
                      Run (current_sql st)].
      split; [now rewrite <- !app_assoc|]. split; [now rewrite Ha|].
      intros passed rest. now rewrite Hw.
Qed.

Lemma retry_loop_replayed fuel :
  forall st w t,
    exists result w' d,
      retry_loop build_prompt fuel session question schema_context max_retries st (w, t)
      = (result, (w', (t ++ d)%list))
      /\ world_along w d = w'
      /\ runs_validated None w d = true.
Proof.
  induction fuel as [|fuel IH]; intros st w t.
  - cbn [retry_loop]. destruct (attempt st <=? max_retries)%Z;
      eexists _, w, []; rewrite app_nil_r; repeat split.
  - cbn [retry_loop]. destruct (attempt st <=? max_retries)%Z.
    + destruct (iteration_replayed st w t) as (step & w1 & d1 & E1 & Ha1 & Hv1).
      unfold bind. rewrite E1. destruct step as [st'|final_sql result].
      * destruct (IH st' w1 (t ++ d1)%list) as (result & w2 & d2 & E2 & Ha2 & Hv2).
        exists result, w2, (d1 ++ d2)%list. split; [now rewrite E2, <- app_assoc|].
        split; [now rewrite world_along_app, Ha1|]. now rewrite Hv1.
      * exists (Some (final_sql, result)), w1, d1. split; [reflexivity|].
        split; [exact Ha1|]. rewrite <- (app_nil_r d1). now rewrite Hv1.
    + eexists _, w, []. rewrite app_nil_r. repeat split.
Qed.

End Replay.

(** A statement run after an EXPLAIN that raised stands after an
    [Explain] of its text all the same; the replay tells the two apart. *)
Example run_after_raised_explain :
  let raising :=
    Script.warehouse (fun _ => Script.unavailable)
                     (fun _ _ => Raised "invalid identifier") (fun _ => Returned tt) in
  let returning :=
    Script.warehouse (fun _ => Script.unavailable)
                     (fun _ _ => Returned tt) (fun _ => Returned tt) in
  let t := [PrintAttempt 1; Explain "SELECT X"; Run "SELECT X"] in
  validated_before_run t = true
  /\ runs_validated raising None 0%nat t = false
  /\ runs_validated returning None 0%nat t = true
  /\ runs_validated returning None 0%nat [PrintAttempt 1; Explain "SELECT X"; Run "SELECT Y"]
     = false
  /\ world_along returning 0%nat t = 2%nat.
Proof. vm_compute. repeat split. Qed.

(** X4.  Validation comes before execution.  In the trace of any call of
    [validate_and_execute], every [Run] event stands directly after an
    [Explain] event of the same SQL text, and that EXPLAIN returned: when
    the trace is replayed against the session from the world the call
    started in, which ends in the world the call leaves, the EXPLAIN
    before each [Run] raised nothing in the world it was made in.  No
    statement is executed that has not just passed validation. *)
Theorem run_only_after_explain :
  forall (World DataFrame : Type)
         (build_prompt : string -> SchemaContext -> list GoldenExample -> string)
         (session : Session World DataFrame) (sql question : string)
         (schema_context : SchemaContext) (N : Z) (w : World),
    let call := validate_and_execute build_prompt session sql question schema_context N in
    validated_before_run (Agent.trace_of call w) = true
    /\ runs_validated session None w (Agent.trace_of call w) = true
    /\ world_along session w (Agent.trace_of call w) = fst (snd (Agent.run_from call w)).
Proof.
  intros World DataFrame build_prompt session sql question schema N w. cbv zeta.
  split.
  - destruct (blank sql) eqn:Hb.
    + unfold Agent.trace_of, Agent.run_from. now rewrite validate_and_execute_blank.
    + destruct (validate_and_execute_attempts build_prompt session sql question schema N w Hb)
        as (final_sql & outcome & w' & t & E & H).
      unfold Agent.trace_of. rewrite E. cbn [snd].
      exact (attempts_validated _ _ _ _ _ _ _ _ H).
  - unfold Agent.trace_of, Agent.run_from, validate_and_execute.
    destruct (blank sql); [now split|].
    destruct (retry_loop_replayed session build_prompt question schema
                (if (N <? 0)%Z then 0%Z else N)
                (S (Z.to_nat (if (N <? 0)%Z then 0%Z else N))) (initial_state sql) w [])
      as (result & w' & d & E & Ha & Hv).
    cbv zeta. rewrite E. cbn [fst snd app]. now split.
Qed.

(** X5.  No blank SQL reaches the warehouse.  In the trace of any call
    of [validate_and_execute], the SQL text of every [Explain] and of
    every [Run] is not blank: a blank candidate is turned down before
    the loop, and a blank regeneration is replaced by the SQL that
    failed. *)
Theorem no_blank_sql_is_sent :
  forall (World DataFrame : Type)
         (build_prompt : string -> SchemaContext -> list GoldenExample -> string)
         (session : Session World DataFrame) (sql question : string)
         (schema_context : SchemaContext) (N : Z) (w : World),
    Forall sends_sql
      (Agent.trace_of
         (validate_and_execute build_prompt session sql question schema_context N) w).
Proof.
  intros World DataFrame build_prompt session sql question schema N w.
  destruct (blank sql) eqn:Hb.
  - unfold Agent.trace_of, Agent.run_from. rewrite validate_and_execute_blank by exact Hb.
    constructor.
  - destruct (validate_and_execute_attempts build_prompt session sql question schema N w Hb)
      as (final_sql & outcome & w' & t & E & H).
    unfold Agent.trace_of. rewrite E. cbn [snd].
    now apply (attempts_send_sql _ _ _ _ _ (initial_state sql) _ _ Hb H).
Qed.

(** X6.  Regenerations are bounded by the retries.  In the trace of any
    call of [validate_and_execute] with [max_retries = N], there are at
    most [N] completion requests (none for [N <= 0]).  For a candidate
    that is not blank there are strictly fewer completion requests than
    explain calls: the SQL of the last attempt is never regenerated.  For
    a blank candidate there is neither an explain call nor a completion
    request. *)
Theorem regenerations_bounded :
  forall (World DataFrame : Type)
         (build_prompt : string -> SchemaContext -> list GoldenExample -> string)
         (session : Session World DataFrame) (sql question : string)
         (schema_context : SchemaContext) (N : Z) (w : World),
    let t := Agent.trace_of
               (validate_and_execute build_prompt session sql question schema_context N) w in
    (count is_completion t <= Z.to_nat N)%nat
    /\ (if blank sql
        then count is_explain t = 0%nat /\ count is_completion t = 0%nat
        else (count is_completion t < count is_explain t)%nat).
Proof.
  intros World DataFrame build_prompt session sql question schema N w.
  destruct (blank sql) eqn:Hb.
  - unfold Agent.trace_of, Agent.run_from. rewrite validate_and_execute_blank by exact Hb.
    cbn. repeat split. lia.
  - destruct (validate_and_execute_attempts build_prompt session sql question schema N w Hb)
      as (final_sql & outcome & w' & t & E & H).
    unfold Agent.trace_of. rewrite E. cbn [snd].
    destruct (attempts_completions _ _ _ _ _ _ _ _ H) as [H1 H2].
    cbn [initial_state attempt] in H1. cbv zeta. split; [|exact H2].
    destruct (N <? 0)%Z eqn:HN; [apply Z.ltb_lt in HN|apply Z.ltb_ge in HN]; lia.
Qed.

(** X7.  Without a schema context the retries cannot change the SQL.
    With the empty schema context, whatever [max_retries] is, no
    completion request is made and the SQL returned is the SQL that was
    passed in: every retry validates the same text again. *)
Theorem retries_without_schema_keep_sql :
  forall (World DataFrame : Type)
         (build_prompt : string -> SchemaContext -> list GoldenExample -> string)
         (session : Session World DataFrame) (sql question : string) (N : Z) (w : World),
    (exists outcome,
        Agent.result_of (validate_and_execute build_prompt session sql question [] N) w
        = Some (sql, outcome))
    /\ count is_completion
             (Agent.trace_of (validate_and_execute build_prompt session sql question [] N) w)
       = 0%nat.
Proof.
  intros World DataFrame build_prompt session sql question N w.
  destruct (blank sql) eqn:Hb.
  - unfold Agent.result_of, Agent.trace_of, Agent.run_from.
    rewrite validate_and_execute_blank by exact Hb. cbn. eauto.
  - destruct (validate_and_execute_attempts build_prompt session sql question [] N w Hb)
      as (final_sql & outcome & w' & t & E & H).
    unfold Agent.result_of, Agent.trace_of. rewrite E. cbn [fst snd].
    destruct (attempts_no_schema _ _ _ _ _ _ _ _ eq_refl H) as [H1 H2].
    cbn [fst initial_state current_sql] in H2. subst final_sql. eauto.
Qed.

(** X8.  The SQL returned is the SQL of the last attempt.  For a
    candidate that is not blank, the trace ends with the [Explain] of the
    SQL returned, followed by its [Run] when the result is a success; a
    failure ends with the [Explain] or with the [Explain] and the [Run]
    of the SQL returned. *)
Theorem final_sql_is_last_attempt :
  forall (World DataFrame : Type)
         (build_prompt : string -> SchemaContext -> list GoldenExample -> string)
         (session : Session World DataFrame) (sql question : string)
         (schema_context : SchemaContext) (N : Z) (w : World),
    blank sql = false ->
    exists final_sql outcome w' t,
      Agent.run_from
        (validate_and_execute build_prompt session sql question schema_context N) w
      = (Some (final_sql, outcome), (w', t))
      /\ match outcome with
         | Success _ => exists t0, t = (t0 ++ [Explain final_sql; Run final_sql])%list
         | Failure _ =>
             exists t0, t = (t0 ++ [Explain final_sql])%list
                        \/ t = (t0 ++ [Explain final_sql; Run final_sql])%list
         end.
Proof.
  intros World DataFrame build_prompt session sql question schema N w Hb.
  destruct (validate_and_execute_attempts build_prompt session sql question schema N w Hb)
    as (final_sql & outcome & w' & t & E & H).
  exists final_sql, outcome, w', t. split; [exact E|].
  exact (attempts_end _ _ _ _ _ _ _ _ _ H).
Qed.

Lemma final_sql_is_last_attempt_witness :
  let session :=
    Script.warehouse (fun _ => Returned [Some "SELECT ORDER_ID FROM ORDERS;"])
                     (fun _ sql => if String.eqb sql "SELECT ORDER_ID FROM ORDERS"
                                   then Returned tt
                                   else Raised "SQL compilation error: invalid identifier 'X'")
                     (fun _ => Returned tt) in
  blank "SELECT X FROM ORDERS" = false
  /\ Agent.result_of
       (validate_and_execute Script.prompt session "SELECT X FROM ORDERS"
                             "How many orders?" orders_only 2) 0%nat
     = Some ("SELECT ORDER_ID FROM ORDERS", Success tt)
  /\ exists final_sql outcome w' t,
      Agent.run_from
        (validate_and_execute Script.prompt session "SELECT X FROM ORDERS"
                              "How many orders?" orders_only 2) 0%nat
      = (Some (final_sql, outcome), (w', t))
      /\ match outcome with
         | Success _ => exists t0, t = (t0 ++ [Explain final_sql; Run final_sql])%list
         | Failure _ =>
             exists t0, t = (t0 ++ [Explain final_sql])%list
                        \/ t = (t0 ++ [Explain final_sql; Run final_sql])%list
         end.
Proof.
  intros session. split; [reflexivity|]. split; [vm_compute; reflexivity|].
  apply (final_sql_is_last_attempt nat unit Script.prompt session "SELECT X FROM ORDERS"
                                   "How many orders?" orders_only 2 0%nat).
  reflexivity.
Defined.

(** X9.  A failure reports an error that was raised.  For a candidate
    that is not blank, a failure message is the cleaned text of an error
    that EXPLAIN raised on the SQL returned, or [Execution error: ]
    followed by the cleaned text of an error that running the SQL
    returned raised.  The message of the return after the loop
    ([Unknown error occurred during validation]) is never produced. *)
Theorem failure_reports_raised_error :
  forall (World DataFrame : Type)
         (build_prompt : string -> SchemaContext -> list GoldenExample -> string)
         (session : Session World DataFrame) (sql question : string)
         (schema_context : SchemaContext) (N : Z) (w : World)
         (final_sql message : string),
    blank sql = false ->
    Agent.result_of
      (validate_and_execute build_prompt session sql question schema_context N) w
    = Some (final_sql, Failure message) ->
    exists e w0,
      (fst (explain session final_sql w0) = Raised e
       /\ message = _extract_error_message e)
      \/ (fst (run session final_sql w0) = Raised e
          /\ message = "Execution error: " ++ _extract_error_message e).
Proof.
  intros World DataFrame build_prompt session sql question schema N w final_sql message Hb Hr.
  destruct (validate_and_execute_attempts build_prompt session sql question schema N w Hb)
    as (final_sql' & outcome & w' & t & E & H).
  unfold Agent.result_of in Hr. rewrite E in Hr. cbn [fst] in Hr.
  injection Hr as -> ->.
  exact (attempts_failure _ _ _ _ _ _ _ _ _ H).
Qed.

Lemma failure_reports_raised_error_witness :
  let session :=
    Script.warehouse (fun _ => Returned [Some "SELECT ORDER_ID FROM ORDERS;"])
                     (fun _ _ => Returned tt)
                     (fun _ => Raised "Error: Numeric value 'x' is not recognized") in
  blank "SELECT X FROM ORDERS" = false
  /\ Agent.result_of
       (validate_and_execute Script.prompt session "SELECT X FROM ORDERS"
                             "How many orders?" orders_only 1) 0%nat
     = Some ("SELECT ORDER_ID FROM ORDERS",
             Failure "Execution error: Numeric value 'x' is not recognized")
  /\ exists e w0,
      (fst (explain session "SELECT ORDER_ID FROM ORDERS" w0) = Raised e
       /\ "Execution error: Numeric value 'x' is not recognized" = _extract_error_message e)
      \/ (fst (run session "SELECT ORDER_ID FROM ORDERS" w0) = Raised e
          /\ "Execution error: Numeric value 'x' is not recognized"
             = "Execution error: " ++ _extract_error_message e).
Proof.
  intros session. split; [reflexivity|]. split; [vm_compute; reflexivity|].
  apply (failure_reports_raised_error nat unit Script.prompt session "SELECT X FROM ORDERS"
                                      "How many orders?" orders_only 1 0%nat).
  - reflexivity.
  - vm_compute. reflexivity.
Defined.

(** X10.  No retries, one attempt.  With [max_retries <= 0] (a negative
    value counts as zero) and a candidate that is not blank, there is
    one pass: the candidate is explained once, run at most once and
    returned as it is, and no completion request is made. *)
Theorem no_retries_one_attempt :
  forall (World DataFrame : Type)
         (build_prompt : string -> SchemaContext -> list GoldenExample -> string)
         (session : Session World DataFrame) (sql question : string)
         (schema_context : SchemaContext) (N : Z) (w : World),
    blank sql = false ->
    (N <= 0)%Z ->
    exists outcome w' t,
      Agent.run_from
        (validate_and_execute build_prompt session sql question schema_context N) w
      = (Some (sql, outcome), (w', t))
      /\ (t = [PrintAttempt 1; Explain sql] \/ t = [PrintAttempt 1; Explain sql; Run sql]).
Proof.
  intros World DataFrame build_prompt session sql question schema N w Hb HN.
  destruct (validate_and_execute_attempts build_prompt session sql question schema N w Hb)
    as (final_sql & outcome & w' & t & E & H).
  apply attempts_single in H.
  - destruct H as [-> H]. cbn [initial_state attempt current_sql] in *.
    exists outcome, w', t. split; [exact E|exact H].
  - cbn [initial_state attempt]. destruct (N <? 0)%Z eqn:E0; [lia|].
    apply Z.ltb_ge in E0. lia.
Qed.

Lemma no_retries_one_attempt_witness :
  let session :=
    Script.warehouse (fun _ => Returned [Some "SELECT ORDER_ID FROM ORDERS;"])
                     (fun _ _ => Raised "SQL compilation error: invalid identifier 'X'")
                     (fun _ => Returned tt) in
  blank "SELECT X FROM ORDERS" = false
  /\ (-1 <= 0)%Z
  /\ exists outcome w' t,
      Agent.run_from
        (validate_and_execute Script.prompt session "SELECT X FROM ORDERS"
                              "How many orders?" orders_only (-1)) 0%nat
      = (Some ("SELECT X FROM ORDERS", outcome), (w', t))
      /\ (t = [PrintAttempt 1; Explain "SELECT X FROM ORDERS"]
          \/ t = [PrintAttempt 1; Explain "SELECT X FROM ORDERS"; Run "SELECT X FROM ORDERS"]).
Proof.
  intros session. split; [reflexivity|]. split; [lia|].
  apply (no_retries_one_attempt nat unit Script.prompt session "SELECT X FROM ORDERS"
                                "How many orders?" orders_only (-1) 0%nat).
  - reflexivity.
  - lia.
Defined.

(** ** What the generator returns *)

(** Fence-free, collapsed, without blank line, trimmed. *)
Definition clean_form (sql : string) : Prop :=
  contains "```" sql = false
  /\ collapsed sql = true
  /\ matches_nowhere m_blank_lines sql = true
  /\ strip sql = sql.

Lemma _clean_sql_clean_form sql : clean_form (_clean_sql sql).
Proof.
  split; [apply _clean_sql_no_fence|].
  rewrite !_clean_sql_scan. unfold clean_scan.
  destruct (is_empty sql); [now repeat split|].
  split; [|split].
  - apply collapsed_strip, blank_sub_keeps_collapsed, hspace_collapsed.
  - apply blank_free_strip, blank_lines_removed.
  - apply strip_idem.
Qed.

(** Every way through [_extract_sql] ends in the cleaning step. *)
Lemma _extract_sql_cleaned response_text :
  exists sql, _extract_sql response_text = _clean_sql sql.
Proof.
  unfold _extract_sql. destruct (is_empty response_text); [now exists ""|].
  destruct (search_group1 CODE_FENCE (strip response_text)); [eauto|].
  destruct (search_from_start SQL_START (strip response_text)); eauto.
Qed.

(** X11.  What the generator returns is clean.  Whatever the session
    answers, the text returned by [generate_sql] holds no code fence,
    no tab, no two adjacent spaces, no blank line, and no whitespace at
    its ends; so it is either the empty string or a text that is not
    blank. *)
Theorem generate_sql_returns_clean_sql :
  forall (World DataFrame : Type)
         (build_prompt : string -> SchemaContext -> list GoldenExample -> string)
         (session : Session World DataFrame) (question : string)
         (schema_context : SchemaContext) (golden_examples : list GoldenExample)
         (w : World),
    let sql := Agent.result_of
                 (generate_sql build_prompt session question schema_context golden_examples) w in
    clean_form sql /\ blank sql = is_empty sql.
Proof.
  intros World DataFrame build_prompt session question schema golden w. cbv zeta.
  assert (Hform : clean_form
                    (Agent.result_of
                       (generate_sql build_prompt session question schema golden) w)).
  { unfold Agent.result_of, Agent.run_from, generate_sql.
    destruct (blank question); [now repeat split|].
    destruct (is_nil schema); [now repeat split|].
    cbv zeta. rewrite bind_call. unfold ret. cbn [fst snd].
    destruct (fst (cortex_complete session (build_prompt question schema golden) w))
      as [msg|[|[generated_text|] others]]; try (now repeat split).
    destruct (blank generated_text); [now repeat split|].
    destruct (blank (_extract_sql generated_text)); [now repeat split|].
    destruct (_extract_sql_cleaned generated_text) as [sql ->].
    apply _clean_sql_clean_form. }
  split; [exact Hform|].
  destruct Hform as (_ & _ & _ & Hstrip). unfold blank. rewrite Hstrip.
  apply orb_diag.
Qed.

(** ** The keywords of the keyword tier ([schema_linker.py]) *)

Lemma lower_char_space c : is_space (lower_char c) = is_space c.
Proof. destruct c as [[] [] [] [] [] [] [] []]; reflexivity. Qed.

Lemma lower_whitespace s : all_chars is_space (lower s) = all_chars is_space s.
Proof.
  induction s as [|c r IH]; [reflexivity|].
  cbn [lower all_chars]. now rewrite lower_char_space, IH.
Qed.

Lemma split_ws_aux_not_nil cur s :
  cur <> None \/ all_chars is_space s = false -> split_ws_aux cur s <> [].
Proof.
  revert cur. induction s as [|c r IH]; intros cur H; cbn [split_ws_aux].
  - destruct cur; [discriminate|]. destruct H as [H|H]; [contradiction|discriminate].
  - destruct (is_space c) eqn:E.
    + destruct cur; [discriminate|]. apply IH. right.
      destruct H as [H|H]; [contradiction|]. cbn [all_chars] in H. now rewrite E in H.
    + apply IH. left. discriminate.
Qed.

Lemma not_blank_has_text s : blank s = false -> all_chars is_space s = false.
Proof.
  intros H. destruct (all_chars is_space s) eqn:E; [|reflexivity].
  now rewrite (blank_whitespace s E) in H.
Qed.

Lemma is_nil_false {A} (l : list A) : is_nil l = false -> l <> [].
Proof. now destruct l. Qed.

(** X12.  A question that is not blank always gives keywords.  The
    keyword tier searches with at least one and at most ten keywords:
    when the filters for length and stopwords leave nothing, the words of
    the question themselves are used, so the list of ILIKE conditions is
    never empty. *)
Theorem keywords_of_question :
  forall question : string,
    blank question = false ->
    keywords_of question <> [] /\ (length (keywords_of question) <= 10)%nat.
Proof.
  intros question Hb. split; [|apply firstn_le_length].
  unfold keywords_of.
  set (raw_words := map _ (split_ws (lower question))).
  assert (Hraw : raw_words <> []).
  { unfold raw_words, split_ws.
    pose proof (split_ws_aux_not_nil None (lower question)) as H.
    rewrite lower_whitespace in H.
    specialize (H (or_intror (not_blank_has_text question Hb))).
    now destruct (split_ws_aux None (lower question)). }
  set (k1 := filter _ raw_words). set (k2 := filter longer_than_3 raw_words).
  assert (H : (if is_nil (if is_nil k1 then k2 else k1) then raw_words
               else if is_nil k1 then k2 else k1) <> []).
  { destruct (is_nil (if is_nil k1 then k2 else k1)) eqn:E; [exact Hraw|].
    now apply is_nil_false. }
  now destruct (if is_nil (if is_nil k1 then k2 else k1) then raw_words
                else if is_nil k1 then k2 else k1).
Qed.

Lemma keywords_of_question_witness :
  blank "How many orders?" = false
  /\ keywords_of "How many orders?" = ["orders"]
  /\ keywords_of "How many orders?" <> []
  /\ (length (keywords_of "How many orders?") <= 10)%nat.
Proof.
  split; [reflexivity|]. split; [reflexivity|].
  apply (keywords_of_question "How many orders?"). reflexivity.
Defined.

(** ** The requests of the schema linker ([schema_linker.py]) *)

(** X13.  Where the dataset filter holds.  When a call of [link_schema]
    makes no metadata fetch (no fetch by name and no read of the full
    catalog), the excluded table [SUPERSTORE_SALES] is not in its
    result: what the semantic search returns and what the keyword query
    matches is always filtered. *)
Theorem excluded_table_absent_without_fetch :
  forall (World DataFrame : Type) (session : Session World DataFrame)
         (question : string) (limit : Z) (w : World),
    existsb is_metadata_fetch (Agent.trace_of (link_schema session question limit) w) = false ->
    ~ In EXCLUDED_TABLE (names_of (Agent.result_of (link_schema session question limit) w)).
Proof.
  intros World DataFrame session question limit w Hnone Hin.
  apply excluded_table_comes_with_a_fetch in Hin. congruence.
Qed.

Lemma excluded_table_absent_without_fetch_witness :
  let hit table column score :=
    {| hit_table_name := Some table; hit_column_name := Some column;
       hit_description := None; hit_data_type := None;
       hit_synonyms := None; hit_score := Some score |} in
  let session :=
    Script.linker
      (Returned [Some [ hit "ORDERS" "ORDER_ID" 0.25%float;
                        hit "SUPERSTORE_SALES" "SALES" 0.75%float;
                        hit "CUSTOMERS" "CITY" 0.5%float ]])
      Script.unavailable Script.unavailable Script.unavailable Script.unavailable in
  existsb is_metadata_fetch (Agent.trace_of (link_schema session "orders by city" 5) 0%nat)
  = false
  /\ names_of (Agent.result_of (link_schema session "orders by city" 5) 0%nat)
     = ["CUSTOMERS"; "ORDERS"]
  /\ ~ In EXCLUDED_TABLE
          (names_of (Agent.result_of (link_schema session "orders by city" 5) 0%nat)).
Proof.
  intros hit session. split; [vm_compute; reflexivity|]. split; [vm_compute; reflexivity|].
  apply (excluded_table_absent_without_fetch nat unit session "orders by city" 5 0%nat).
  vm_compute. reflexivity.
Defined.

(** [within n c]: from every world, [c] appends at most [n] events. *)
Section Within.

Context {World : Type}.

Definition within {A} (n : nat) (c : M World A) : Prop :=
  forall w, exists a w' d,
    (length d <= n)%nat /\ forall t, c (w, t) = (a, (w', (t ++ d)%list)).

Lemma within_ret {A} n (a : A) : within n (ret a).
Proof.
  intros w. exists a, w, []. split; [simpl; lia|].
  intros t. unfold ret. now rewrite app_nil_r.
Qed.

Lemma within_call {A} n e (op : World -> A * World) : within (S n) (call e op).
Proof.
  intros w. exists (fst (op w)), (snd (op w)), [e]. split; [simpl; lia|].
  intros t. unfold call. simpl. now destruct (op w).
Qed.

Lemma within_bind {A B} n m (c : M World A) (k : A -> M World B) :
  within n c -> (forall a, within m (k a)) -> within (n + m) (bind c k).
Proof.
  intros Hc Hk w.
  destruct (Hc w) as (a & w1 & d1 & Hd1 & E1).
  destruct (Hk a w1) as (b & w2 & d2 & Hd2 & E2).
  exists b, w2, (d1 ++ d2)%list. split.
  - rewrite length_app. lia.
  - intros t. unfold bind. rewrite E1, E2. now rewrite app_assoc.
Qed.

End Within.

Section Requests.

Context {World DataFrame : Type}.
Variable session : Session World DataFrame.

Lemma _fetch_tables_by_name_within names : within 2 (_fetch_tables_by_name session names).
Proof.
  unfold _fetch_tables_by_name. destruct (is_nil names); [apply within_ret|].
  apply (within_bind 1 1); [apply within_call|]. intros described.
  assert (Raw : within 1 (raw <- call (FetchCatalog names)
                                      (catalog_columns_of session names) ;;
                          match raw with
                          | Returned rows => ret (group_columns 0.3 (map catalog_column rows))
                          | Raised _ => ret []
                          end)).
  { apply (within_bind 1 0); [apply within_call|]. intros [msg|rows]; apply within_ret. }
  destruct described as [msg|[|row rows]]; try exact Raw. apply within_ret.
Qed.

Lemma _get_all_tables_within limit : within 2 (_get_all_tables session limit).
Proof.
  unfold _get_all_tables. apply (within_bind 1 1); [apply within_call|].
  intros [msg|rows]; apply within_ret.
Qed.

Lemma _fallback_keyword_search_within question limit :
  within 3 (_fallback_keyword_search session question limit).
Proof.
  unfold _fallback_keyword_search. cbv zeta.
  apply (within_bind 1 2); [apply within_call|].
  intros [msg|[|row rows]]; try apply _get_all_tables_within.
  unfold _supplement_related_tables. cbv zeta.
  destruct (is_nil _); [apply within_ret|].
  apply (within_bind 2 0); [apply _fetch_tables_by_name_within|].
  intros partner_tables. apply within_ret.
Qed.

End Requests.

(** X14.  At most four requests.  A call of [link_schema] sends at most
    four requests to the warehouse (the search, the keyword query and
    two metadata queries), and it sends none exactly when the question
    is blank. *)
Theorem link_schema_sends_at_most_four_requests :
  forall (World DataFrame : Type) (session : Session World DataFrame)
         (question : string) (limit : Z) (w : World),
    let t := Agent.trace_of (link_schema session question limit) w in
    (length t <= 4)%nat /\ is_nil t = blank question.
Proof.
  intros World DataFrame session question limit w. cbv zeta.
  unfold Agent.trace_of, Agent.run_from, link_schema.
  destruct (blank question); [split; [simpl; lia|reflexivity]|].
  cbv zeta. rewrite bind_call. cbn [app].
  set (L := if (limit <? 1)%Z then 5%Z else limit).
  destruct (search_preview session question (L * 10) w) as [found w1]. cbn [fst snd].
  assert (Fallback :
            let t := snd (snd (_fallback_keyword_search session question L
                                 (w1, [Search question (L * 10)]))) in
            (length t <= 4)%nat /\ is_nil t = false).
  { destruct (_fallback_keyword_search_within session question L w1)
      as (a & w2 & d & Hd & E).
    cbv zeta. rewrite E. cbn [snd app length is_nil]. split; [lia|reflexivity]. }
  destruct found as [msg|[|[[|item results]|] docs]];
    try (unfold ret; cbn [snd length is_nil]; split; [lia|reflexivity]).
  destruct (contains "does not exist" (lower msg)
            && contains "schema_search_service" (lower msg)); [exact Fallback|].
  destruct (contains "table_descriptions" (lower msg)); [|exact Fallback].
  unfold ret. cbn [snd length is_nil]. split; [lia|reflexivity].
Qed.

(** ** Size of the result and names in it *)

Definition is_name_fetch (e : Event) : bool :=
  match e with
  | FetchDescriptions _ | FetchCatalog _ => true
  | _ => false
  end.

Lemma upsert_NoDup {V} k init (f : V -> V) d :
  NoDup (map fst d) -> NoDup (map fst (upsert k init f d)).
Proof.
  induction d as [|[k0 v] d IH]; simpl; intros H.
  - constructor; [intros []|constructor].
  - destruct (String.eqb_spec k k0) as [->|Hne]; simpl; [exact H|].
    inversion H; subst. constructor; [|auto].
    rewrite upsert_keys. intros [E|Hin]; [congruence|contradiction].
Qed.

Lemma insert_desc_In {A K} ltb (key : A -> K) x l y :
  In y (insert_desc ltb key x l) <-> y = x \/ In y l.
Proof.
  induction l as [|z l IH]; simpl; [intuition|].
  destruct (ltb (key x) (key z)); simpl; [rewrite IH|]; intuition.
Qed.

Lemma sort_desc_In {A K} ltb (key : A -> K) l y :
  In y (sort_desc ltb key l) <-> In y l.
Proof.
  induction l as [|x l IH]; simpl; [reflexivity|].
  rewrite insert_desc_In, IH. intuition.
Qed.

Lemma insert_desc_NoDup {A K B} (g : A -> B) ltb (key : A -> K) x l :
  NoDup (map g (x :: l)) -> NoDup (map g (insert_desc ltb key x l)).
Proof.
  induction l as [|y l IH]; intros H; [exact H|].
  cbn [insert_desc]. destruct (ltb (key x) (key y)); [|exact H].
  cbn [map] in *. inversion H as [|? ? Hx Hrest]; subst.
  inversion Hrest as [|? ? Hy Hl]; subst.
  constructor.
  - intros Hin. apply in_map_iff in Hin. destruct Hin as (z & Ez & Hz).
    apply insert_desc_In in Hz. destruct Hz as [->|Hz].
    + apply Hx. left. now symmetry.
    + apply Hy. rewrite <- Ez. now apply in_map.
  - apply IH. constructor; [|exact Hl]. intros Hin. apply Hx. now right.
Qed.

Lemma sort_desc_NoDup {A K B} (g : A -> B) ltb (key : A -> K) l :
  NoDup (map g l) -> NoDup (map g (sort_desc ltb key l)).
Proof.
  induction l as [|x l IH]; intros H; [exact H|].
  cbn [sort_desc fold_right]. apply insert_desc_NoDup.
  cbn [map] in *. inversion H as [|? ? Hx Hl]; subst.
  constructor; [|now apply IH].
  intros Hin. apply Hx. apply in_map_iff in Hin. destruct Hin as (z & Ez & Hz).
  apply sort_desc_In in Hz. rewrite <- Ez. now apply in_map.
Qed.

Lemma NoDup_map_filter {A B} (g : A -> B) p l :
  NoDup (map g l) -> NoDup (map g (filter p l)).
Proof.
  induction l as [|x l IH]; intros H; [exact H|].
  cbn [map filter] in *. inversion H as [|? ? Hx Hl]; subst.
  destruct (p x); [|auto]. cbn [map]. constructor; [|auto].
  intros Hin. apply Hx. apply in_map_iff in Hin. destruct Hin as (z & Ez & Hz).
  apply filter_In in Hz. rewrite <- Ez. now apply in_map.
Qed.

Lemma NoDup_map_firstn {A B} (g : A -> B) n l :
  NoDup (map g l) -> NoDup (map g (firstn n l)).
Proof.
  revert l. induction n as [|n IH]; intros [|x l] H; cbn [firstn map] in *;
    try constructor.
  - inversion H as [|? ? Hx Hl]; subst. intros Hin. apply Hx.
    apply in_map_iff in Hin. destruct Hin as (z & Ez & Hz).
    apply firstn_incl in Hz. rewrite <- Ez. now apply in_map.
  - inversion H; subst. now apply IH.
Qed.

Lemma group_columns_NoDup score rows : NoDup (names_of (group_columns score rows)).
Proof.
  unfold names_of, group_columns. rewrite map_map. cbn [table_name].
  apply (fold_left_invariant (fun d => NoDup (map fst d))); [constructor|].
  intros d row Hd. now apply upsert_NoDup.
Qed.

Lemma keyword_tables_NoDup rows : NoDup (map fst (keyword_tables rows)).
Proof.
  unfold keyword_tables.
  apply (fold_left_invariant (fun d => NoDup (map fst d))); [constructor|].
  intros d row Hd. now apply upsert_NoDup.
Qed.

Lemma search_tables_NoDup results : NoDup (map fst (search_tables results)).
Proof.
  unfold search_tables.
  apply (fold_left_invariant (fun d => NoDup (map fst d))); [constructor|].
  intros d row Hd. now apply upsert_NoDup.
Qed.

(** At most [limit] tables, and no name twice. *)
Definition bounded_result (limit : Z) (tables : SchemaContext) : Prop :=
  (length tables <= Z.to_nat limit)%nat /\ NoDup (names_of tables).

Lemma semantic_tables_bounded limit results :
  bounded_result limit
    (slice_to limit
       (_filter_dataset_mixing
          (sort_desc PrimFloat.ltb relevance_score
                     (map search_context (search_tables results))))).
Proof.
  split; [apply firstn_le_length|].
  unfold names_of, slice_to, _filter_dataset_mixing.
  apply NoDup_map_firstn, NoDup_map_filter, sort_desc_NoDup.
  rewrite map_map. cbn [table_name search_context]. apply search_tables_NoDup.
Qed.

Lemma direct_matches_bounded limit rows :
  bounded_result limit (direct_matches limit rows).
Proof.
  unfold direct_matches. split.
  - unfold _filter_dataset_mixing, slice_to.
    etransitivity; [apply filter_length_le|apply firstn_le_length].
  - unfold names_of, slice_to, _filter_dataset_mixing.
    apply NoDup_map_filter, NoDup_map_firstn.
    rewrite map_map. cbn [table_name keyword_context].
    apply sort_desc_NoDup, keyword_tables_NoDup.
Qed.

Section Bounded.

Context {World DataFrame : Type}.
Variable session : Session World DataFrame.

Lemma _get_all_tables_bounded limit s :
  bounded_result limit (fst (_get_all_tables session limit s)).
Proof.
  destruct s as [w t]. unfold _get_all_tables. rewrite bind_call.
  destruct (fst (catalog_columns session w)) as [msg|rows]; unfold ret; cbn [fst].
  - split; [simpl; lia|constructor].
  - split; [apply firstn_le_length|].
    unfold names_of, slice_to. apply NoDup_map_firstn, group_columns_NoDup.
Qed.

(** The keyword tier stays within the limit unless it fetches a partner
    by name. *)
Lemma _fallback_keyword_search_bounded question limit w t :
  bounded_result limit (fst (_fallback_keyword_search session question limit (w, t)))
  \/ existsb is_name_fetch
             (snd (snd (_fallback_keyword_search session question limit (w, t)))) = true.
Proof.
  unfold _fallback_keyword_search. cbv zeta. rewrite bind_call.
  destruct (keyword_query session (keywords_of question) (limit * 15) w) as [found w1].
  cbn [fst snd].
  destruct found as [msg|[|row rows]]; try (left; apply _get_all_tables_bounded).
  fold (direct_matches limit (row :: rows)).
  unfold _supplement_related_tables. cbv zeta.
  destruct (needed_partners (direct_matches limit (row :: rows))) as [|n ns] eqn:En.
  - left. cbn [is_nil]. unfold ret. cbn [fst]. apply direct_matches_bounded.
  - right. cbn [is_nil]. unfold bind.
    match goal with
    | |- context [_fetch_tables_by_name session (n :: ns) (?w', ?t')] =>
        destruct (_fetch_tables_by_name_trace session (n :: ns) w' t') as [d E];
          [discriminate|];
        destruct (_fetch_tables_by_name session (n :: ns) (w', t')) as [partners [w2 t2]]
    end.
    cbn [snd] in E. unfold ret. cbn [snd]. rewrite E.
    apply existsb_app_r. reflexivity.
Qed.

Lemma link_schema_bounded question limit w :
  bounded_result (coerced_limit limit)
                 (Agent.result_of (link_schema session question limit) w)
  \/ existsb is_name_fetch (Agent.trace_of (link_schema session question limit) w) = true.
Proof.
  assert (Hnil : bounded_result (coerced_limit limit) []).
  { split; [simpl; lia|constructor]. }
  unfold Agent.result_of, Agent.trace_of, Agent.run_from, link_schema.
  destruct (blank question); [now left|].
  cbv zeta. fold (coerced_limit limit). rewrite bind_call. cbn [app].
  destruct (search_preview session question (coerced_limit limit * 10) w) as [found w1].
  cbn [fst snd].
  destruct found as [msg|[|[[|item results]|] docs]]; try (now left).
  - destruct (contains "does not exist" (lower msg)
              && contains "schema_search_service" (lower msg));
      [apply _fallback_keyword_search_bounded|].
    destruct (contains "table_descriptions" (lower msg)); [now left|].
    apply _fallback_keyword_search_bounded.
  - left. unfold ret. cbn [fst]. apply semantic_tables_bounded.
Qed.

End Bounded.

(** X15.  Within the limit unless a partner is fetched.  When a call of
    [link_schema] fetches no table by name, its result has at most
    [limit] tables ([5] for a limit below [1]) and no table name occurs
    in it twice.  Only the supplementation of join partners can take the
    result beyond the limit. *)
Theorem link_schema_within_limit_without_partner :
  forall (World DataFrame : Type) (session : Session World DataFrame)
         (question : string) (limit : Z) (w : World),
    existsb is_name_fetch (Agent.trace_of (link_schema session question limit) w) = false ->
    (length (Agent.result_of (link_schema session question limit) w)
     <= Z.to_nat (coerced_limit limit))%nat
    /\ NoDup (names_of (Agent.result_of (link_schema session question limit) w)).
Proof.
  intros World DataFrame session question limit w Hnone.
  destruct (link_schema_bounded session question limit w) as [H|H]; [exact H|congruence].
Qed.

Lemma link_schema_within_limit_without_partner_witness :
  let session :=
    Script.linker Script.unavailable (Returned []) Script.unavailable Script.unavailable
                  (Returned Script.raw_catalog) in
  existsb is_name_fetch (Agent.trace_of (link_schema session "How many orders?" 3) 0%nat)
  = false
  /\ names_of (Agent.result_of (link_schema session "How many orders?" 3) 0%nat)
     = ["CUSTOMERS"; "GEOLOCATION"; "ORDERS"]
  /\ (length (Agent.result_of (link_schema session "How many orders?" 3) 0%nat)
      <= Z.to_nat (coerced_limit 3))%nat
  /\ NoDup (names_of (Agent.result_of (link_schema session "How many orders?" 3) 0%nat)).
Proof.
  intros session. split; [vm_compute; reflexivity|]. split; [vm_compute; reflexivity|].
  apply (link_schema_within_limit_without_partner nat unit session "How many orders?" 3 0%nat).
  vm_compute. reflexivity.
Defined.

(** ** Supplementation *)

Lemma needed_partners_cases tables :
  needed_partners tables = []
  \/ exists partner,
      needed_partners tables = [partner]
      /\ (partner = "ORDERS" \/ partner = "CUSTOMERS")
      /\ ~ In partner (names_of tables).
Proof.
  pose proof (needed_partners_at_most_one tables) as Hlen.
  destruct (needed_partners_sound tables) as [_ Hin].
  destruct (needed_partners tables) as [|partner [|b rest]]; [now left| |simpl in Hlen; lia].
  right. exists partner. split; [reflexivity|].
  destruct (Hin partner (or_introl eq_refl)) as (Habsent & t & _ & Hfk).
  split; [|exact Habsent].
  apply fk_partners_cases in Hfk. destruct Hfk as [[-> _]|[-> _]]; auto.
Qed.

(** X16.  Supplementation keeps the tables and asks for one partner.
    When no partner is missing, [_supplement_related_tables] returns the
    tables it was given and calls nothing.  Otherwise exactly one table
    is missing, [ORDERS] or [CUSTOMERS], which is not among the tables
    given (the partner of a partner is not fetched in the same call):
    the result is the tables given, in their order, followed by what
    [_fetch_tables_by_name] returns for that one name in the same world,
    and the world and the events are those of that fetch, the
    description query alone when it returned rows, the description
    query and the catalog query otherwise. *)
Theorem supplement_keeps_tables_and_asks_one_partner :
  forall (World DataFrame : Type) (session : Session World DataFrame)
         (tables : SchemaContext) (limit : Z) (w : World),
    (needed_partners tables = []
     /\ Agent.run_from (_supplement_related_tables session tables limit) w
        = (tables, (w, [])))
    \/ exists partner,
        needed_partners tables = [partner]
        /\ (partner = "ORDERS" \/ partner = "CUSTOMERS")
        /\ ~ In partner (names_of tables)
        /\ Agent.run_from (_supplement_related_tables session tables limit) w
           = ((tables ++ Agent.result_of (_fetch_tables_by_name session [partner]) w)%list,
              snd (Agent.run_from (_fetch_tables_by_name session [partner]) w))
        /\ Agent.trace_of (_fetch_tables_by_name session [partner]) w
           = match fst (descriptions_of session [partner] w) with
             | Returned (_ :: _) => [FetchDescriptions [partner]]
             | _ => [FetchDescriptions [partner]; FetchCatalog [partner]]
             end.
Proof.
  intros World DataFrame session tables limit w.
  unfold Agent.run_from, _supplement_related_tables. cbv zeta.
  destruct (needed_partners_cases tables) as [E|(partner & E & Hp & Habsent)]; rewrite E.
  - left. split; reflexivity.
  - right. exists partner. split; [reflexivity|]. split; [exact Hp|]. split; [exact Habsent|].
    cbn [is_nil]. unfold Agent.result_of, Agent.trace_of, Agent.run_from, bind.
    destruct (_fetch_tables_by_name session [partner] (w, [])) as [partner_tables s] eqn:Ef.
    split; [reflexivity|].
    unfold _fetch_tables_by_name in Ef. cbn [is_nil] in Ef. rewrite bind_call in Ef.
    cbn [app] in Ef.
    destruct (descriptions_of session [partner] w) as [described w1]. cbn [fst snd] in *.
    assert (Raw : snd (snd ((raw <- call (FetchCatalog [partner])
                                         (catalog_columns_of session [partner]) ;;
                             match raw with
                             | Returned rows => ret (group_columns 0.3 (map catalog_column rows))
                             | Raised _ => ret []
                             end) (w1, [FetchDescriptions [partner]])))
                  = [FetchDescriptions [partner]; FetchCatalog [partner]]).
    { rewrite bind_call. cbn [app].
      now destruct (fst (catalog_columns_of session [partner] w1)). }
    destruct described as [msg|[|row rows]].
    + now rewrite Ef in Raw.
    + now rewrite Ef in Raw.
    + unfold ret in Ef. now injection Ef as _ <-.
Qed.

(** ** Grouping rows by table *)

(** The (table, column) pairs a dictionary of tables holds. *)
Definition entries {V} (d : list (string * list V)) : list (string * V) :=
  flat_map (fun kv => map (pair (fst kv)) (snd kv)) d.

Lemma upsert_entries {V} k (c : V) d x :
  In x (entries (upsert k [] (fun cols => (cols ++ [c])%list) d))
  <-> x = (k, c) \/ In x (entries d).
Proof.
  induction d as [|[k0 cols] d IH]; cbn [upsert entries flat_map fst snd map app].
  - cbn [In]. intuition.
  - destruct (String.eqb_spec k k0) as [->|Hne]; cbn [entries flat_map fst snd].
    + rewrite !in_app_iff, map_app, in_app_iff. cbn [map In]. fold (entries d). intuition.
    + rewrite !in_app_iff. fold (entries d) in *.
      fold (entries (upsert k [] (fun cols => (cols ++ [c])%list) d)).
      rewrite IH. intuition.
Qed.

Lemma upsert_entries_length {V} k (c : V) d :
  length (entries (upsert k [] (fun cols => (cols ++ [c])%list) d))
  = S (length (entries d)).
Proof.
  induction d as [|[k0 cols] d IH]; cbn [upsert entries flat_map fst snd map app];
    [reflexivity|].
  destruct (String.eqb k k0); cbn [entries flat_map fst snd].
  - rewrite !length_app, !length_map, length_app. simpl. lia.
  - fold (entries d) in *. fold (entries (upsert k [] (fun cols => (cols ++ [c])%list) d)).
    rewrite !length_app, IH. lia.
Qed.

Lemma grouped_entries {V} (rows : list (string * V)) d x :
  In x (entries (fold_left (fun d row => upsert (fst row) [] (fun cols => (cols ++ [snd row])%list) d)
                           rows d))
  <-> In x (entries d) \/ In x rows.
Proof.
  revert d. induction rows as [|[k c] rows IH]; intros d; cbn [fold_left In fst snd].
  - intuition.
  - rewrite IH, upsert_entries. intuition.
Qed.

Lemma grouped_entries_length {V} (rows : list (string * V)) d :
  length (entries (fold_left (fun d row => upsert (fst row) [] (fun cols => (cols ++ [snd row])%list) d)
                             rows d))
  = (length (entries d) + length rows)%nat.
Proof.
  revert d. induction rows as [|[k c] rows IH]; intros d; cbn [fold_left fst snd length].
  - lia.
  - rewrite IH, upsert_entries_length. lia.
Qed.

Lemma entries_In {V} (d : list (string * list V)) name (c : V) :
  In (name, c) (entries d) <-> exists kv, In kv d /\ fst kv = name /\ In c (snd kv).
Proof.
  unfold entries. rewrite in_flat_map. split.
  - intros (kv & Hkv & Hin). apply in_map_iff in Hin. destruct Hin as (c' & E & Hc).
    inversion E; subst. eauto.
  - intros (kv & Hkv & <- & Hc). exists kv. split; [exact Hkv|]. now apply in_map.
Qed.

(** X17.  Grouping loses no column.  The loop that groups the rows of a
    metadata query by table (in [_fetch_tables_by_name] and in
    [_get_all_tables]) puts the column of every row under the table
    named in that row and nowhere else: a column is listed under a table
    exactly when a row pairs them, the tables have as many columns
    together as there are rows, every table has the score of the tier,
    and no table name occurs twice. *)
Theorem grouping_keeps_every_column :
  forall (score : float) (rows : list (string * ColumnDescriptor)),
    (forall name column,
        In (name, column) rows
        <-> exists t, In t (group_columns score rows)
                      /\ table_name t = name /\ In column (columns t))
    /\ length (concat (map columns (group_columns score rows))) = length rows
    /\ Forall (fun t => relevance_score t = score) (group_columns score rows)
    /\ NoDup (names_of (group_columns score rows)).
Proof.
  intros score rows.
  set (d := fold_left (fun d row => upsert (fst row) [] (fun cols => (cols ++ [snd row])%list) d)
                      rows []).
  assert (Hd : group_columns score rows
               = map (fun kv => {| table_name := fst kv; columns := snd kv;
                                   relevance_score := score |}) d) by reflexivity.
  split; [|split; [|split]].
  - intros name column. rewrite Hd.
    transitivity (In (name, column) (entries d)).
    + unfold d. rewrite grouped_entries. cbn [entries flat_map In]. intuition.
    + rewrite entries_In. split.
      * intros (kv & Hkv & Hn & Hc). eexists. split; [apply in_map, Hkv|]. now split.
      * intros (t & Ht & Hn & Hc). apply in_map_iff in Ht. destruct Ht as (kv & <- & Hkv).
        eauto.
  - rewrite Hd, map_map. cbn [columns].
    pose proof (grouped_entries_length rows []) as H. fold d in H. cbn in H. rewrite <- H.
    unfold entries. rewrite flat_map_concat_map, !length_concat, !map_map.
    f_equal. apply map_ext. intros kv. now rewrite length_map.
  - rewrite Hd. apply Forall_map. now apply Forall_forall.
  - apply group_columns_NoDup.
Qed.

(** ** Extraction of a statement from a fenced block *)

Definition not_tick (c : ascii) : bool := negb (Ascii.eqb c backtick).

Lemma no_tick_chars s : contains (str_of backtick) s = false -> all_chars not_tick s = true.
Proof.
  induction s as [|c r IH]; [reflexivity|].
  rewrite contains_cons. cbn [startswith str_of all_chars]. intros H.
  apply orb_false_elim in H. destruct H as [Hc Hr]. rewrite andb_true_r in Hc.
  unfold not_tick. rewrite Ascii.eqb_sym, Hc. now apply IH.
Qed.

Lemma no_tick_no_fence s : all_chars not_tick s = true -> contains fence s = false.
Proof.
  induction s as [|c r IH]; [reflexivity|].
  cbn [all_chars]. intros H. apply andb_prop in H. destruct H as [Hc Hr].
  rewrite contains_cons, (IH Hr). unfold fence. cbn [startswith].
  unfold not_tick in Hc. apply negb_true_iff in Hc.
  fold backtick. rewrite Ascii.eqb_sym, Hc. reflexivity.
Qed.

Lemma all_chars_app p a b :
  all_chars p (a ++ b) = all_chars p a && all_chars p b.
Proof.
  induction a as [|c a IH]; [reflexivity|].
  simpl. now rewrite IH, andb_assoc.
Qed.

Lemma lstrip_by_app p a b : lstrip_by p b = b -> lstrip_by p (a ++ b) = lstrip_by p a ++ b.
Proof.
  intros Hb. induction a as [|c a IH]; [exact Hb|].
  simpl. destruct (p c); [exact IH|reflexivity].
Qed.

Lemma rstrip_by_app_kept p a b :
  rstrip_by p a = a -> a <> "" -> rstrip_by p (a ++ b) = a ++ rstrip_by p b.
Proof.
  intros Ha Hne. destruct (rstrip_by p b) as [|c r] eqn:E.
  - apply rstrip_by_empty in E. rewrite (rstrip_by_app_all _ _ _ E), Ha.
    now rewrite append_nil_r.
  - rewrite <- E. apply rstrip_by_app. rewrite E. discriminate.
Qed.

(** The tail of a text that does not end in whitespace does not end in
    whitespace, unless it is empty. *)
Lemma rstrip_by_tail p c r :
  rstrip_by p (String c r) = String c r -> r <> "" -> rstrip_by p r = r.
Proof.
  cbn [rstrip_by]. intros H Hne.
  destruct (is_empty (rstrip_by p r) && p c) eqn:E; [discriminate|].
  now inversion H as [Hr]; rewrite Hr.
Qed.

Lemma rstrip_by_last p c : rstrip_by p (String c "") = String c "" -> p c = false.
Proof. cbn [rstrip_by is_empty andb]. now destruct (p c). Qed.

(** A text without backtick that does not end in whitespace does not
    close the fence, whatever follows it. *)
Lemma closes_fence_statement t rest :
  t <> "" ->
  all_chars not_tick t = true ->
  rstrip_by is_space t = t ->
  closes_fence (t ++ rest) = false.
Proof.
  induction t as [|c r IH]; intros Hne Htick Hend; [contradiction|].
  cbn [all_chars] in Htick. apply andb_prop in Htick. destruct Htick as [Hc Hr].
  change (String c r ++ rest) with (String c (r ++ rest)). cbn [closes_fence].
  assert (Hf : startswith fence (String c (r ++ rest)) = false).
  { unfold fence. cbn [startswith]. unfold not_tick in Hc. apply negb_true_iff in Hc.
    fold backtick. now rewrite Ascii.eqb_sym, Hc. }
  rewrite Hf, orb_false_r.
  destruct r as [|c' r'].
  - now rewrite (rstrip_by_last _ _ Hend).
  - rewrite IH; [apply andb_false_r|discriminate|exact Hr|].
    apply (rstrip_by_tail _ c); [exact Hend|discriminate].
Qed.

Lemma lazy_group_statement body rest :
  all_chars not_tick body = true ->
  rstrip_by is_space body = body ->
  closes_fence rest = true ->
  lazy_group (body ++ rest) = Some body.
Proof.
  intros Htick Hend Hrest. induction body as [|c r IH].
  - now apply lazy_group_closed.
  - change (String c r ++ rest) with (String c (r ++ rest)).
    rewrite lazy_group_step.
    + cbn [all_chars] in Htick. apply andb_prop in Htick. destruct Htick as [_ Hr].
      destruct r as [|c' r'].
      * cbn [append]. now rewrite (lazy_group_closed _ Hrest).
      * rewrite IH; [reflexivity|exact Hr|].
        apply (rstrip_by_tail _ c); [exact Hend|discriminate].
    + change (String c (r ++ rest)) with (String c r ++ rest).
      apply closes_fence_statement; [discriminate|exact Htick|exact Hend].
Qed.

Lemma ws_group_statement body rest :
  lstrip_by is_space body = body ->
  body <> "" ->
  ws_group (body ++ rest) = lazy_group (body ++ rest).
Proof.
  intros Hstart Hne. destruct body as [|c r]; [contradiction|].
  pose proof (lstrip_by_head is_space (String c r)) as H. rewrite Hstart in H.
  change (String c r ++ rest) with (String c (r ++ rest)). cbn [ws_group].
  now rewrite H.
Qed.

Lemma search_code_fence_skip pre s :
  all_chars not_tick pre = true -> search_code_fence (pre ++ s) = search_code_fence s.
Proof.
  induction pre as [|c r IH]; intros H; [reflexivity|].
  cbn [all_chars] in H. apply andb_prop in H. destruct H as [Hc Hr].
  change (String c r ++ s) with (String c (r ++ s)). cbn [search_code_fence].
  assert (M : m_code_fence (String c (r ++ s)) = None).
  { unfold m_code_fence, fence. cbn [startswith].
    unfold not_tick in Hc. apply negb_true_iff in Hc.
    fold backtick. now rewrite Ascii.eqb_sym, Hc. }
  rewrite M. now apply IH.
Qed.

Lemma search_code_fence_head s g : m_code_fence s = Some g -> search_code_fence s = Some g.
Proof. intros H. destruct s; cbn [search_code_fence]; now rewrite H. Qed.

Lemma strip_around_fence pre mid post :
  strip (pre ++ fence ++ mid ++ fence ++ post)
  = lstrip_by is_space pre ++ fence ++ mid ++ fence ++ rstrip_by is_space post.
Proof.
  unfold strip. rewrite lstrip_by_app by reflexivity.
  set (pre' := lstrip_by is_space pre).
  replace (pre' ++ fence ++ mid ++ fence ++ post)
    with ((pre' ++ fence ++ mid ++ fence) ++ post) by (now rewrite !append_assoc).
  rewrite rstrip_by_app_kept.
  - now rewrite !append_assoc.
  - replace (pre' ++ fence ++ mid ++ fence) with ((pre' ++ fence ++ mid) ++ fence)
      by (now rewrite !append_assoc).
    apply rstrip_by_app. discriminate.
  - destruct pre'; discriminate.
Qed.

Lemma length_lstrip_by p s : (String.length (lstrip_by p s) <= String.length s)%nat.
Proof. destruct (lstrip_by_suffix p s) as [k ->]. apply length_drop. Qed.

Lemma strip_fixed_start s : strip s = s -> lstrip_by is_space s = s.
Proof.
  destruct s as [|c r]; [reflexivity|]. unfold strip. cbn [lstrip_by].
  destruct (is_space c); [|reflexivity]. intros H.
  pose proof (length_rstrip_by is_space (lstrip_by is_space r)) as H1.
  pose proof (length_lstrip_by is_space r) as H2.
  rewrite H in H1. simpl in H1. lia.
Qed.

Lemma strip_fixed_end s : strip s = s -> rstrip_by is_space s = s.
Proof. intros H. rewrite <- H at 1. unfold strip. rewrite rstrip_by_idem. exact H. Qed.

Lemma rstrip_by_none p s : all_chars (fun c => negb (p c)) s = true -> rstrip_by p s = s.
Proof.
  induction s as [|c r IH]; [reflexivity|].
  cbn [all_chars rstrip_by]. intros H. apply andb_prop in H. destruct H as [Hc Hr].
  apply negb_true_iff in Hc. now rewrite (IH Hr), Hc, andb_false_r.
Qed.

Lemma semicolons_visible n : all_chars (fun c => negb (is_space c)) (semicolons n) = true.
Proof. induction n as [|n IH]; [reflexivity|exact IH]. Qed.

Lemma semicolons_no_tick n : all_chars not_tick (semicolons n) = true.
Proof. induction n as [|n IH]; [reflexivity|exact IH]. Qed.

Lemma rstrip_terminated sql n :
  strip sql = sql -> rstrip_by is_space (sql ++ semicolons n) = sql ++ semicolons n.
Proof.
  intros H. destruct n as [|n].
  - cbn [semicolons repeat_char]. rewrite append_nil_r. now apply strip_fixed_end.
  - pose proof (rstrip_by_none is_space _ (semicolons_visible (S n))) as E.
    rewrite rstrip_by_app; rewrite E; [reflexivity|discriminate].
Qed.

Lemma strip_terminated sql n :
  strip sql = sql -> strip (sql ++ semicolons n) = sql ++ semicolons n.
Proof.
  intros H. unfold strip. rewrite lstrip_by_app.
  - rewrite (strip_fixed_start sql H). now apply rstrip_terminated.
  - destruct n; reflexivity.
Qed.

(** A statement as the generator is to return it: not empty, without
    backtick, without semicolon at its end, and in the form the cleaning
    step leaves. *)
Definition statement (sql : string) : Prop :=
  sql <> ""
  /\ contains "`" sql = false
  /\ rstrip_chars ";" sql = sql
  /\ collapsed sql = true
  /\ matches_nowhere m_blank_lines sql = true
  /\ strip sql = sql.

(** X18.  A statement comes back out of its fenced block.  The response
    holds a fenced block: any text without backtick, the opening fence
    followed by the tag [sql] (in any case) or by whitespace, the
    statement, any number of semicolons, optional whitespace, the
    closing fence, and any text at all.  Then [_extract_sql] returns the
    statement, character for character, whatever the statement is. *)
Theorem extract_fenced_statement :
  forall (pre tag ws2 sql : string) (n : nat) (ws3 post : string),
    contains "`" pre = false ->
    lower tag = "sql" \/ (tag = "" /\ ws2 <> "") ->
    all_chars is_space ws2 = true ->
    all_chars is_space ws3 = true ->
    statement sql ->
    _extract_sql (pre ++ "```" ++ tag ++ ws2 ++ sql ++ semicolons n ++ ws3 ++ "```" ++ post)
    = sql.
Proof.
  intros pre tag ws2 sql n ws3 post Hpre Htag H2 H3
         (Hne & Htick & Hsemi & Hcollapsed & Hblank & Hstrip).
  fold fence.
  apply no_tick_chars in Htick.
  set (body := sql ++ semicolons n).
  replace (pre ++ fence ++ tag ++ ws2 ++ sql ++ semicolons n ++ ws3 ++ fence ++ post)
    with (pre ++ fence ++ (tag ++ ws2 ++ body ++ ws3) ++ fence ++ post)
    by (unfold body; now rewrite !append_assoc).
  unfold _extract_sql.
  replace (is_empty (pre ++ fence ++ (tag ++ ws2 ++ body ++ ws3) ++ fence ++ post))
    with false by (now destruct pre).
  rewrite strip_around_fence, search_code_fence_scan.
  rewrite search_code_fence_skip
    by (apply no_tick_chars, contains_lstrip; exact Hpre).
  set (rest := ws3 ++ fence ++ rstrip_by is_space post).
  assert (Hbody_tick : all_chars not_tick body = true).
  { unfold body. now rewrite all_chars_app, Htick, semicolons_no_tick. }
  assert (Hbody_end : rstrip_by is_space body = body) by now apply rstrip_terminated.
  assert (Hbody_start : lstrip_by is_space body = body).
  { unfold body. rewrite lstrip_by_app; [now rewrite (strip_fixed_start sql Hstrip)|].
    destruct n; reflexivity. }
  assert (Hbody_ne : body <> "").
  { unfold body. destruct sql; [contradiction|discriminate]. }
  assert (G : ws_group (ws2 ++ body ++ rest) = Some body).
  { apply ws_group_after_whitespace; [exact H2|].
    rewrite ws_group_statement by assumption.
    apply lazy_group_statement; try assumption.
    unfold rest. now apply closes_fence_after_whitespace. }
  assert (M : search_code_fence
                (fence ++ (tag ++ ws2 ++ body ++ ws3) ++ fence ++ rstrip_by is_space post)
              = Some body).
  { apply search_code_fence_head. rewrite !append_assoc. fold rest.
    rewrite m_code_fence_open. destruct Htag as [Htag|[-> Hws2]].
    - destruct (tag_is_matched tag (ws2 ++ body ++ rest) Htag) as [E1 E2].
      now rewrite E1, E2, G.
    - change ("" ++ ?x) with x.
      assert (E : startswith_nocase "sql" (ws2 ++ body ++ rest) = false).
      { destruct ws2 as [|c ws2]; [contradiction|].
        simpl in H2. apply andb_prop in H2. destruct H2 as [Hc _].
        simpl. now rewrite (space_is_not_s c Hc). }
      now rewrite E. }
  rewrite M. unfold body.
  rewrite strip_terminated by exact Hstrip.
  rewrite _clean_sql_semicolons.
  apply _clean_sql_fixed; try assumption.
  now apply no_tick_no_fence.
Qed.

Lemma extract_fenced_statement_witness :
  let sql := lines ["SELECT c.CITY, COUNT(*) AS n"; "FROM ANALYTICS_COPILOT.RAW.CUSTOMERS c";
                    "GROUP BY c.CITY"] in
  statement sql
  /\ _extract_sql (lines ["Here is the query:"; "```sql"; sql ++ ";"; "```";
                          "It counts the customers of each city."])
     = sql.
Proof.
  intros sql.
  assert (Hs : statement sql) by (repeat split; discriminate).
  split; [exact Hs|].
  apply (extract_fenced_statement
           ("Here is the query:" ++ str_of nl) "sql" (str_of nl) sql 1 (str_of nl)
           (str_of nl ++ "It counts the customers of each city."));
    try reflexivity; [now left|exact Hs].
Defined.

(** ** Extraction of a statement that stands alone *)

Definition SQL_KEYWORDS : list string := ["SELECT"; "WITH"; "INSERT"; "UPDATE"; "DELETE"].

(** The text begins with one of the keywords, in any case, as a word of
    its own. *)
Definition starts_with_keyword (sql : string) : bool :=
  existsb (fun kw => startswith_nocase kw sql
                     && negb (head_is_word (drop (String.length kw) sql)))
          SQL_KEYWORDS.

(** A character that matches the letter without regard to case is a
    character of a word. *)
Definition wordy (a : ascii) : Prop := forall c, eqb_nocase a c = true -> is_word c = true.

Ltac wordy_letter :=
  intros c; destruct c as [[] [] [] [] [] [] [] []]; intros H;
  try reflexivity; discriminate H.

Lemma wordy_letters :
  Forall wordy (list_ascii_of_string "SELECTWIHNRUPDA").
Proof. repeat constructor; wordy_letter. Qed.

Fixpoint last_is_word (t : string) : bool :=
  match t with
  | EmptyString => false
  | String c EmptyString => is_word c
  | String _ r => last_is_word r
  end.

Lemma prev_word_advance_over t cu :
  t <> "" -> prev_word (advance_over t cu) = last_is_word t.
Proof.
  revert cu. induction t as [|c r IH]; intros cu Hne; [contradiction|].
  destruct r as [|c' r']; [reflexivity|].
  change (advance_over (String c (String c' r')) cu)
    with (advance_over (String c' r') (advance c cu)).
  rewrite IH by discriminate. reflexivity.
Qed.

Lemma keyword_taken kw s :
  Forall wordy (list_ascii_of_string kw) ->
  kw <> "" ->
  startswith_nocase kw s = true ->
  head_is_word s = true
  /\ take (String.length kw) s <> ""
  /\ last_is_word (take (String.length kw) s) = true.
Proof.
  revert s. induction kw as [|a kw IH]; intros s Hw Hne Hs; [contradiction|].
  destruct s as [|c s]; [discriminate|]. cbn [startswith_nocase] in Hs.
  apply andb_prop in Hs. destruct Hs as [Hac Hs].
  cbn [list_ascii_of_string] in Hw. inversion Hw as [|? ? Ha Hkw]; subst.
  split; [exact (Ha c Hac)|]. split; [discriminate|].
  cbn [String.length take]. destruct kw as [|b kw].
  - cbn [String.length take last_is_word]. exact (Ha c Hac).
  - destruct (IH s Hkw) as (_ & Hne' & Hlast); [discriminate|exact Hs|].
    cbn [last_is_word]. destruct (take (String.length (String b kw)) s) eqn:E;
      [contradiction|exact Hlast].
Qed.

(** What is left of [SQL_START] after the first boundary and inside the
    group: the boundary after the keyword, then success. *)
Definition after_keyword (cu0 : cursor) (s0 : string) : continuation (A := cursor) :=
  fun cu' s' =>
    backtrack Boundary
              {| pos := pos cu'; prev_word := prev_word cu';
                 group1 := Some (take (pos cu' - pos cu0) s0) |} s'
              (fun cu _ => Some cu).

Lemma keyword_matches kw cu s :
  Forall wordy (list_ascii_of_string kw) ->
  kw <> "" ->
  startswith_nocase kw s = true ->
  head_is_word (drop (String.length kw) s) = false ->
  backtrack (lit_nocase kw) cu s (after_keyword cu s) <> None.
Proof.
  intros Hw Hne Hs Hb. rewrite run_lit_nocase, Hs.
  destruct (keyword_taken kw s Hw Hne Hs) as (_ & Ht & Hlast).
  unfold after_keyword. cbn [backtrack prev_word].
  rewrite prev_word_advance_over by exact Ht. rewrite Hlast, Hb. discriminate.
Qed.

Lemma alt_left {A} a b cu s (k : continuation (A := A)) :
  backtrack a cu s k <> None -> backtrack (Alt a b) cu s k <> None.
Proof. cbn [backtrack]. now destruct (backtrack a cu s k). Qed.

Lemma alt_right {A} a b cu s (k : continuation (A := A)) :
  backtrack b cu s k <> None -> backtrack (Alt a b) cu s k <> None.
Proof. cbn [backtrack]. destruct (backtrack a cu s k); [discriminate|auto]. Qed.

Lemma sql_start_at_head prev s :
  prev = false ->
  starts_with_keyword s = true ->
  match_at SQL_START prev s <> None.
Proof.
  intros -> H. unfold starts_with_keyword, SQL_KEYWORDS in H. cbn [existsb] in H.
  assert (Hhead : forall kw,
             Forall wordy (list_ascii_of_string kw) -> kw <> "" ->
             startswith_nocase kw s = true -> head_is_word s = true).
  { intros kw Hw Hne Hs. now destruct (keyword_taken kw s Hw Hne Hs). }
  assert (W : forall kw, In kw SQL_KEYWORDS -> Forall wordy (list_ascii_of_string kw)).
  { pose proof wordy_letters as L. cbn [list_ascii_of_string] in L.
    intros kw [<-|[<-|[<-|[<-|[<-|[]]]]]]; cbn [list_ascii_of_string];
      repeat match goal with
             | |- Forall _ [] => constructor
             | |- Forall _ (_ :: _) => constructor
             | |- wordy ?a =>
                 let H := fresh in
                 assert (H := L); rewrite Forall_forall in H; apply H; cbn; tauto
             end. }
  assert (Step : forall kw,
             In kw SQL_KEYWORDS ->
             startswith_nocase kw s && negb (head_is_word (drop (String.length kw) s)) = true ->
             head_is_word s = true
             /\ backtrack (lit_nocase kw) (start false) s (after_keyword (start false) s) <> None).
  { intros kw Hin Hkw. apply andb_prop in Hkw. destruct Hkw as [Hs Hb].
    apply negb_true_iff in Hb.
    assert (Hne : kw <> "") by (destruct Hin as [<-|[<-|[<-|[<-|[<-|[]]]]]]; discriminate).
    split; [now apply (Hhead kw (W kw Hin) Hne)|].
    now apply keyword_matches; [apply W| | |]. }
  unfold match_at, SQL_START. rewrite backtrack_seq. cbn [backtrack start prev_word].
  fold (start false).
  change (fun cu' s' =>
            (if xorb (prev_word cu') (head_is_word s')
             then Some {| pos := pos cu'; prev_word := prev_word cu';
                          group1 := Some (take (pos cu' - pos (start false)) s) |}
             else None))
    with (after_keyword (start false) s).
  repeat match type of H with
         | (?x || ?y) = true =>
             apply orb_prop in H; destruct H as [H|H]
         end.
  all: try discriminate.
  all: match goal with
       | H : startswith_nocase ?kw _ && _ = true |- _ =>
           destruct (Step kw ltac:(cbn; tauto) H) as [Hh Hm]
       end;
    rewrite Hh; cbn [xorb];
    repeat match goal with
           | |- match ?x with Some _ => _ | None => _ end <> None =>
               destruct x; [discriminate|]; try congruence
           end.
Qed.

Lemma search_code_fence_none s : all_chars not_tick s = true -> search_code_fence s = None.
Proof.
  intros H. rewrite <- (append_nil_r s), search_code_fence_skip by exact H. reflexivity.
Qed.

Lemma search_from_start_head r s :
  match_at r false s <> None -> search_from_start r s = Some s.
Proof.
  unfold search_from_start. intros H.
  destruct s; cbn [search]; destruct (match_at r false _); congruence.
Qed.

Lemma double_newline_is_blank t x :
  m_blank_lines t = None -> startswith (String nl (String nl x)) t = false.
Proof.
  destruct t as [|c1 [|c2 r]]; try reflexivity.
  - cbn [startswith]. now rewrite andb_false_r.
  - cbn [m_blank_lines ws_then_nl startswith].
    rewrite (Ascii.eqb_sym nl c1), (Ascii.eqb_sym nl c2).
    destruct (Ascii.eqb c1 nl); [|reflexivity].
    destruct (Ascii.eqb c2 nl) eqn:E2; [|reflexivity].
    apply Ascii.eqb_eq in E2. subst c2. change (is_space nl) with true. cbn [andb].
    now destruct (ws_then_nl r).
Qed.

Lemma paragraph_is_blank t : m_blank_lines t = None -> match_length PARAGRAPH t = None.
Proof.
  intros H. pose proof (double_newline_is_blank t "" H) as S.
  destruct t as [|c1 [|c2 [|c3 r]]]; try reflexivity;
    cbn [startswith] in S; rewrite (Ascii.eqb_sym nl c1) in S;
    unfold match_length, match_at, PARAGRAPH; cbn [backtrack]; unfold is_nl.
  - now destruct (Ascii.eqb c1 nl).
  - rewrite (Ascii.eqb_sym nl c2) in S.
    destruct (Ascii.eqb c1 nl); [|reflexivity].
    destruct (Ascii.eqb c2 nl); [discriminate|reflexivity].
  - rewrite (Ascii.eqb_sym nl c2) in S.
    destruct (Ascii.eqb c1 nl); [|reflexivity].
    destruct (Ascii.eqb c2 nl); [discriminate|reflexivity].
Qed.

Lemma before_match_none m m' s :
  (forall t, m t = None -> m' t = None) ->
  matches_nowhere m s = true -> before_match m' s = s.
Proof.
  intros Hm. induction s as [|c r IH]; intros H.
  - cbn [before_match]. rewrite Hm; [reflexivity|].
    cbn [matches_nowhere] in H. now destruct (m "").
  - rewrite matches_nowhere_cons in H. cbn [before_match].
    destruct (m (String c r)) eqn:E; [discriminate|].
    now rewrite (Hm _ E), (IH H).
Qed.

Lemma before_none sep s :
  (forall t, m_blank_lines t = None -> startswith sep t = false) ->
  matches_nowhere m_blank_lines s = true -> before sep s = s.
Proof.
  intros Hsep. induction s as [|c r IH]; intros H.
  - cbn [before]. now rewrite Hsep.
  - rewrite matches_nowhere_cons in H. cbn [before].
    destruct (m_blank_lines (String c r)) eqn:E; [discriminate|].
    now rewrite (Hsep _ E), (IH H).
Qed.

(** X19.  A statement that stands alone comes back unchanged.  When the
    response is nothing but a statement that begins with [SELECT],
    [WITH], [INSERT], [UPDATE] or [DELETE] (in any case, as a word of its
    own), [_extract_sql] returns the response as it is: nothing is cut
    at its start, at a line break or at its end. *)
Theorem extract_plain_statement :
  forall sql : string,
    statement sql ->
    starts_with_keyword sql = true ->
    _extract_sql sql = sql.
Proof.
  intros sql (Hne & Htick & Hsemi & Hcollapsed & Hblank & Hstrip) Hkw.
  apply no_tick_chars in Htick.
  unfold _extract_sql.
  replace (is_empty sql) with false by (now destruct sql).
  rewrite Hstrip, search_code_fence_scan, (search_code_fence_none sql Htick).
  rewrite (search_from_start_head SQL_START sql (sql_start_at_head false sql eq_refl Hkw)).
  rewrite Hstrip.
  rewrite (before_match_none m_blank_lines (match_length PARAGRAPH) sql paragraph_is_blank Hblank).
  rewrite (before_none (String nl (String nl "Note:")) sql)
    by (try exact Hblank; intros t; apply double_newline_is_blank).
  rewrite (before_none (String nl (String nl "Explanation:")) sql)
    by (try exact Hblank; intros t; apply double_newline_is_blank).
  apply _clean_sql_fixed; try assumption.
  now apply no_tick_no_fence.
Qed.

Lemma extract_plain_statement_witness :
  let sql := lines ["select o.ORDER_STATUS, COUNT(*) AS n"; "FROM ANALYTICS_COPILOT.RAW.ORDERS o";
                    "GROUP BY o.ORDER_STATUS"] in
  statement sql /\ starts_with_keyword sql = true /\ _extract_sql sql = sql.
Proof.
  intros sql.
  assert (Hs : statement sql) by (repeat split; discriminate).
  split; [exact Hs|]. split; [reflexivity|].
  apply (extract_plain_statement sql Hs). reflexivity.
Defined.

(** * The pipeline as the evaluation script runs it *)

Definition is_linker_request (e : Event) : bool :=
  match e with
  | Search _ _ | KeywordSearch _ _ | FetchDescriptions _ | FetchCatalog _ | FullCatalog => true
  | _ => false
  end.

(** The events of one call of the linker, and of one call of the
    generator. *)
Definition linker_events (d : Trace) : Prop :=
  Forall (fun e => is_linker_request e = true) d /\ (length d <= 4)%nat.

Definition generator_events (d : Trace) : Prop :=
  Forall (fun e => is_completion e = true) d /\ (length d <= 1)%nat.

Lemma traced_within {World A} P n (c : M World A) :
  traced P c -> within n c ->
  forall w, exists a w' d,
    (Forall P d /\ (length d <= n)%nat) /\ forall t, c (w, t) = (a, (w', (t ++ d)%list)).
Proof.
  intros Ht Hw w.
  destruct (Ht w) as (a & w1 & d1 & Hd1 & E1).
  destruct (Hw w) as (a' & w2 & d2 & Hd2 & E2).
  pose proof (E1 []) as E. rewrite (E2 []) in E. cbn [app] in E.
  injection E as _ _ E. subst d2. exists a, w1, d1. auto.
Qed.

Section PipelineEvents.

Context {World DataFrame : Type}.
Variable build_prompt : string -> SchemaContext -> list GoldenExample -> string.
Variable session : Session World DataFrame.

Lemma metadata_fetch_is_linker_request e :
  is_metadata_fetch e = true -> is_linker_request e = true.
Proof. now destruct e. Qed.

Lemma link_schema_traced question limit :
  traced (fun e => is_linker_request e = true) (link_schema session question limit).
Proof.
  assert (Fallback : forall q l,
             traced (fun e => is_linker_request e = true)
                    (_fallback_keyword_search session q l)).
  { intros q l. unfold _fallback_keyword_search. cbv zeta.
    apply traced_bind; [now apply traced_call|]. intros found.
    apply (traced_weaken (fun e => is_metadata_fetch e = true));
      [apply metadata_fetch_is_linker_request|].
    destruct found as [msg|[|row rows]].
    - apply _get_all_tables_traced.
    - apply _get_all_tables_traced.
    - apply _supplement_related_tables_traced. }
  unfold link_schema. destruct (blank question); [apply traced_ret|].
  cbv zeta. apply traced_bind; [now apply traced_call|]. intros found.
  destruct found as [msg|[|[[|item results]|] docs]]; try apply traced_ret.
  destruct (_ && _); [apply Fallback|].
  destruct (contains _ _); [apply traced_ret|apply Fallback].
Qed.

Lemma link_schema_within question limit : within 4 (link_schema session question limit).
Proof.
  unfold link_schema. destruct (blank question); [apply within_ret|].
  cbv zeta. apply (within_bind 1 3); [apply within_call|]. intros found.
  destruct found as [msg|[|[[|item results]|] docs]]; try apply within_ret.
  destruct (_ && _); [apply _fallback_keyword_search_within|].
  destruct (contains _ _); [apply within_ret|apply _fallback_keyword_search_within].
Qed.

Lemma generate_sql_within question schema_context golden_examples :
  within 1 (generate_sql build_prompt session question schema_context golden_examples).
Proof.
  unfold generate_sql. destruct (blank question); [apply within_ret|].
  destruct (is_nil schema_context); [apply within_ret|].
  cbv zeta. apply (within_bind 1 0); [apply within_call|]. intros result. apply within_ret.
Qed.

Lemma link_schema_events question limit w :
  exists linked w' d,
    linker_events d
    /\ forall t, link_schema session question limit (w, t) = (linked, (w', (t ++ d)%list)).
Proof.
  apply (traced_within _ 4); [apply link_schema_traced|apply link_schema_within].
Qed.

(** Without a completion request the generator returns the empty
    string. *)
Lemma generate_sql_events question schema_context golden_examples w :
  exists sql w' d,
    generator_events d
    /\ (d = [] -> sql = "")
    /\ forall t, generate_sql build_prompt session question schema_context golden_examples (w, t)
                 = (sql, (w', (t ++ d)%list)).
Proof.
  destruct (traced_within _ 1 _
              (generate_sql_traced build_prompt session question schema_context golden_examples)
              (generate_sql_within question schema_context golden_examples) w)
    as (sql & w' & d & Hd & E).
  exists sql, w', d. split; [exact Hd|]. split; [|exact E].
  intros ->. specialize (E []). cbn [app] in E. revert E. unfold generate_sql.
  destruct (blank question); [now intros [= <- _]|].
  destruct (is_nil schema_context); [now intros [= <- _]|].
  cbv zeta. rewrite bind_call. unfold ret. cbn [app]. intros E. discriminate E.
Qed.

(** From any world and trace: a candidate that is not blank goes through
    the passes of the loop. *)
Lemma validate_and_execute_from sql question schema_context N w t :
  blank sql = false ->
  exists final_sql outcome w' d,
    validate_and_execute build_prompt session sql question schema_context N (w, t)
    = (Some (final_sql, outcome), (w', (t ++ d)%list))
    /\ attempts build_prompt session question schema_context
                (if (N <? 0)%Z then 0%Z else N) (initial_state sql) (final_sql, outcome) d.
Proof.
  intros Hb. unfold validate_and_execute. rewrite Hb.
  set (max_retries := if (N <? 0)%Z then 0%Z else N).
  assert (Hmax : (0 <= max_retries)%Z).
  { unfold max_retries. destruct (N <? 0)%Z eqn:E; [lia|]. apply Z.ltb_ge in E. lia. }
  destruct (retry_loop_attempts build_prompt session question schema_context max_retries
              (S (Z.to_nat max_retries)) (initial_state sql) w t)
    as ([final_sql outcome] & w' & d & E & H).
  { cbn [initial_state attempt]. lia. }
  { unfold passes_left. cbn [initial_state attempt]. lia. }
  exists final_sql, outcome, w', d. split; [exact E|exact H].
Qed.

(** Every pass explains once and runs at most once. *)
Lemma attempts_counts question schema_context max_retries st result d :
  (attempt st <= max_retries)%Z ->
  attempts build_prompt session question schema_context max_retries st result d ->
  (count is_explain d <= Z.to_nat (max_retries + 1 - attempt st))%nat
  /\ (count is_run d <= count is_explain d)%nat
  /\ count is_linker_request d = 0%nat.
Proof.
  intros Hle H. revert Hle.
  induction H as [st final_sql result d Hpass|st st' d result d' Hpass Hrest IH]; intros Hle.
  - inversion Hpass; subst; rewrite !count_cons; cbn; lia.
  - destruct (pass_continues _ _ _ _ _ _ _ _ Hpass) as [Hlt Hnext].
    destruct IH as (IH1 & IH2 & IH3); [lia|].
    rewrite Hnext in IH1.
    inversion Hpass; subst;
      match goal with H : regenerated _ _ _ _ _ _ _ _ |- _ =>
        destruct (regenerated_events _ _ _ _ _ _ _ _ H) as [->|[prompt ->]] end;
      rewrite ?count_cons; cbn [app is_run is_explain is_linker_request];
      rewrite ?count_cons; cbn [is_run is_explain is_linker_request]; lia.
Qed.

End PipelineEvents.

Definition is_success {DataFrame} (outcome : ExecutionOutcome DataFrame) : bool :=
  match outcome with Success _ => true | Failure _ => false end.

Definition message_of {DataFrame} (outcome : ExecutionOutcome DataFrame) : option string :=
  match outcome with Success _ => None | Failure message => Some message end.

Section QuestionRun.

Context {World DataFrame : Type}.
Variable build_prompt : string -> SchemaContext -> list GoldenExample -> string.
Variable time_time : World -> float * World.
Variable session : Session World DataFrame.
Variable i : Z.
Variable query : Evaluate.GoldenQuery.

(** The three ways through the body of the evaluation loop: the result
    recorded and the events left. *)
Inductive question_run : Evaluate.Result -> Trace -> Prop :=
| run_no_tables d latency :
    linker_events d ->
    question_run
      (Evaluate.recorded i query [] "" false latency (Some Evaluate.no_tables_message)) d
| run_no_sql linked d g latency :
    linked <> [] -> linker_events d -> generator_events g ->
    question_run
      (Evaluate.recorded i query linked "" false latency (Some Evaluate.no_sql_message))
      (d ++ g)%list
| run_validated linked d g sql final_sql outcome v latency :
    linked <> [] -> linker_events d -> generator_events g -> g <> [] ->
    blank sql = false ->
    attempts build_prompt session (Evaluate.query_question query) linked 3
             (initial_state sql) (final_sql, outcome) v ->
    question_run
      (Evaluate.recorded i query linked final_sql (is_success outcome) latency
                         (message_of outcome))
      (d ++ g ++ v)%list.

Lemma now_reads w t :
  Evaluate.now time_time (w, t) = (fst (time_time w), (snd (time_time w), t)).
Proof. unfold Evaluate.now. cbn [fst snd]. now destruct (time_time w). Qed.

Lemma evaluate_question_run w t :
  exists result w' d,
    Evaluate.evaluate_question build_prompt time_time session i query (w, t)
    = (result, (w', (t ++ d)%list))
    /\ question_run result d.
Proof.
  unfold Evaluate.evaluate_question. unfold bind at 1. rewrite now_reads.
  set (start_time := fst (time_time w)). set (w0 := snd (time_time w)).
  destruct (link_schema_events session (Evaluate.query_question query) 5 w0)
    as (linked & w1 & d & Hd & El).
  unfold bind at 1. rewrite El.
  destruct linked as [|table tables].
  - cbn [is_nil]. unfold bind, ret. rewrite now_reads.
    eexists _, _, d. split; [reflexivity|]. now apply run_no_tables.
  - cbn [is_nil].
    destruct (generate_sql_events build_prompt session (Evaluate.query_question query)
                                  (table :: tables) [] w1)
      as (sql & w2 & g & Hg & Hsilent & Eg).
    unfold bind at 1. rewrite Eg.
    destruct (blank sql) eqn:Hb.
    + unfold bind, ret. rewrite now_reads.
      eexists _, _, (d ++ g)%list. split; [now rewrite app_assoc|].
      apply run_no_sql; [discriminate|exact Hd|exact Hg].
    + destruct (validate_and_execute_from build_prompt session sql
                  (Evaluate.query_question query) (table :: tables) 3 w2
                  ((t ++ d) ++ g)%list Hb)
        as (final_sql & outcome & w3 & v & Ev & Hv).
      unfold bind at 1. rewrite Ev. unfold bind, ret. rewrite now_reads.
      exists (Evaluate.recorded i query (table :: tables) final_sql (is_success outcome)
                (PrimFloat.sub (fst (time_time w3)) start_time) (message_of outcome)),
        (snd (time_time w3)), (d ++ g ++ v)%list.
      split.
      * rewrite !app_assoc. now destruct outcome.
      * apply (run_validated (table :: tables) d g sql); try assumption; [discriminate|].
        intros Hnil. rewrite (Hsilent Hnil) in Hb. discriminate Hb.
Qed.

End QuestionRun.

Lemma count_none p q (d : Trace) :
  (forall e, p e = true -> q e = false) ->
  Forall (fun e => p e = true) d -> count q d = 0%nat.
Proof.
  intros Hpq. induction 1 as [|e d He Hd IH]; [reflexivity|].
  rewrite count_cons, (Hpq e He), IH. reflexivity.
Qed.

Lemma count_le_length p (d : Trace) : (count p d <= length d)%nat.
Proof. unfold count. apply filter_length_le. Qed.

Section QuestionFacts.

Context {World DataFrame : Type}.
Variable build_prompt : string -> SchemaContext -> list GoldenExample -> string.
Variable session : Session World DataFrame.
Variable i : Z.
Variable query : Evaluate.GoldenQuery.

Local Abbreviation question_run := (question_run build_prompt session i query).

Lemma question_run_fields r d :
  question_run r d ->
  Evaluate.question r = Evaluate.query_question query
  /\ Evaluate.difficulty r = Evaluate.query_difficulty query.
Proof. intros H. inversion H; subst; now split. Qed.

Lemma question_run_success r d :
  question_run r d ->
  Evaluate.success r = true ->
  Evaluate.error_message r = None
  /\ blank (Evaluate.generated_sql r) = false
  /\ Evaluate.schema_context r <> []
  /\ exists d0,
      d = (d0 ++ [Explain (Evaluate.generated_sql r); Run (Evaluate.generated_sql r)])%list.
Proof.
  intros H. inversion H as [| |linked dl g sql final_sql outcome v latency
                                Hlinked Hd Hg Hgne Hb Hv]; subst;
    cbn [Evaluate.recorded Evaluate.success Evaluate.error_message
         Evaluate.generated_sql Evaluate.schema_context]; try discriminate.
  intros Hs. destruct outcome as [rows|message]; [|discriminate]. cbn [message_of].
  split; [reflexivity|]. split; [|split].
  - now destruct (attempts_send_sql _ _ _ _ _ (initial_state sql) _ _ Hb Hv).
  - destruct linked; [contradiction|discriminate].
  - destruct (attempts_end _ _ _ _ _ _ _ _ _ Hv) as [d0 ->].
    exists (dl ++ g ++ d0)%list. now rewrite !app_assoc.
Qed.

Lemma question_run_counts r d :
  question_run r d ->
  (count is_linker_request d <= 4)%nat
  /\ (count is_completion d <= 4)%nat
  /\ (count is_explain d <= 4)%nat
  /\ (count is_run d <= count is_explain d)%nat
  /\ (count is_explain d <= 4 * count is_completion d)%nat.
Proof.
  assert (L : forall dl, linker_events dl ->
                         (count is_linker_request dl <= 4)%nat
                         /\ count is_completion dl = 0%nat
                         /\ count is_explain dl = 0%nat /\ count is_run dl = 0%nat).
  { intros dl [Hall Hlen]. split; [pose proof (count_le_length is_linker_request dl); lia|].
    repeat split; apply (count_none is_linker_request); try exact Hall;
      intros e; now destruct e. }
  assert (G : forall g, generator_events g ->
                        count is_linker_request g = 0%nat
                        /\ (count is_completion g <= 1)%nat
                        /\ count is_explain g = 0%nat /\ count is_run g = 0%nat).
  { intros g [Hall Hlen].
    split; [apply (count_none is_completion); [intros e; now destruct e|exact Hall]|].
    split; [pose proof (count_le_length is_completion g); lia|].
    split; apply (count_none is_completion); try exact Hall; intros e; now destruct e. }
  intros H. inversion H as [dl latency Hd|linked dl g latency Hlinked Hd Hg
                            |linked dl g sql final_sql outcome v latency
                               Hlinked Hd Hg Hgne Hb Hv]; subst.
  - destruct (L _ Hd) as (L1 & L2 & L3 & L4). lia.
  - destruct (L _ Hd) as (L1 & L2 & L3 & L4). destruct (G _ Hg) as (G1 & G2 & G3 & G4).
    rewrite !count_app. lia.
  - destruct (L _ Hd) as (L1 & L2 & L3 & L4). destruct (G _ Hg) as (G1 & G2 & G3 & G4).
    destruct (attempts_completions _ _ _ _ _ _ _ _ Hv) as [C1 C2].
    assert (Hle : (attempt (initial_state sql) <= 3)%Z) by (cbn; lia).
    destruct (attempts_counts _ _ _ _ _ _ _ _ Hle Hv) as (X1 & X2 & X3).
    cbn [initial_state attempt] in *.
    assert (Hone : count is_completion g = 1%nat).
    { destruct Hg as [Hall Hlen]. destruct g as [|e [|e' g']];
        [contradiction| |simpl in Hlen; lia].
      inversion Hall as [|? ? He _]; subst. rewrite count_cons, He. reflexivity. }
    rewrite !count_app. lia.
Qed.

End QuestionFacts.

(** X20.  A success was validated and executed.  When the evaluation
    marks a question as successful, the result carries no error message,
    the linker had found tables, the SQL recorded is not blank, and the
    requests of that question end with the EXPLAIN of the SQL recorded
    followed by its execution. *)
Theorem success_was_validated_and_executed :
  forall (World DataFrame : Type)
         (build_prompt : string -> SchemaContext -> list GoldenExample -> string)
         (time_time : World -> float * World)
         (session : Session World DataFrame) (i : Z) (query : Evaluate.GoldenQuery)
         (w : World),
    let one := Evaluate.evaluate_question build_prompt time_time session i query in
    Evaluate.success (Agent.result_of one w) = true ->
    Evaluate.error_message (Agent.result_of one w) = None
    /\ blank (Evaluate.generated_sql (Agent.result_of one w)) = false
    /\ Evaluate.schema_context (Agent.result_of one w) <> []
    /\ exists t0,
        Agent.trace_of one w
        = (t0 ++ [Explain (Evaluate.generated_sql (Agent.result_of one w));
                  Run (Evaluate.generated_sql (Agent.result_of one w))])%list.
Proof.
  intros World DataFrame build_prompt time_time session i query w. cbv zeta.
  destruct (evaluate_question_run build_prompt time_time session i query w [])
    as (r & w' & d & E & H).
  unfold Agent.result_of, Agent.trace_of, Agent.run_from. rewrite E. cbn [fst snd app].
  apply (question_run_success _ _ _ _ _ _ H).
Qed.

Lemma success_was_validated_and_executed_witness :
  let session :=
    Script.session
      (Returned [Some [ {| hit_table_name := Some "ORDERS"; hit_column_name := Some "ORDER_ID";
                           hit_description := None; hit_data_type := None;
                           hit_synonyms := None; hit_score := Some 0.5%float |} ]])
      Script.unavailable Script.unavailable Script.unavailable Script.unavailable
      (fun _ => Returned [Some "SELECT COUNT(*) FROM ANALYTICS_COPILOT.RAW.ORDERS;"])
      (fun _ _ => Returned tt) (fun _ => Returned tt) in
  let query :=
    {| Evaluate.query_id := None; Evaluate.query_question := "How many orders?";
       Evaluate.query_sql_query := None; Evaluate.query_difficulty := "easy";
       Evaluate.query_tables_used := None |} in
  let one :=
    Evaluate.evaluate_question Script.prompt (fun w => (0%float, w)) session 1 query in
  Evaluate.success (Agent.result_of one 0%nat) = true
  /\ Agent.trace_of one 0%nat
     = [ Search "How many orders?" 50; Complete "How many orders?"; PrintAttempt 1;
         Explain "SELECT COUNT(*) FROM ANALYTICS_COPILOT.RAW.ORDERS";
         Run "SELECT COUNT(*) FROM ANALYTICS_COPILOT.RAW.ORDERS" ]
  /\ Evaluate.error_message (Agent.result_of one 0%nat) = None
  /\ blank (Evaluate.generated_sql (Agent.result_of one 0%nat)) = false
  /\ Evaluate.schema_context (Agent.result_of one 0%nat) <> []
  /\ exists t0,
      Agent.trace_of one 0%nat
      = (t0 ++ [Explain (Evaluate.generated_sql (Agent.result_of one 0%nat));
                Run (Evaluate.generated_sql (Agent.result_of one 0%nat))])%list.
Proof.
  intros session query one.
  split; [vm_compute; reflexivity|]. split; [vm_compute; reflexivity|].
  apply (success_was_validated_and_executed nat unit Script.prompt (fun w => (0%float, w))
                                            session 1 query 0%nat).
  vm_compute. reflexivity.
Defined.

(** X21.  What a question can cost.  For one question the evaluation
    sends at most four requests of the linker, at most four completion
    requests (one generation and three regenerations), at most four
    EXPLAIN statements, and never runs more statements than it has
    explained; and it explains nothing unless a completion was
    requested. *)
Theorem question_costs_are_bounded :
  forall (World DataFrame : Type)
         (build_prompt : string -> SchemaContext -> list GoldenExample -> string)
         (time_time : World -> float * World)
         (session : Session World DataFrame) (i : Z) (query : Evaluate.GoldenQuery)
         (w : World),
    let t := Agent.trace_of
               (Evaluate.evaluate_question build_prompt time_time session i query) w in
    (count is_linker_request t <= 4)%nat
    /\ (count is_completion t <= 4)%nat
    /\ (count is_explain t <= 4)%nat
    /\ (count is_run t <= count is_explain t)%nat
    /\ (count is_explain t <= 4 * count is_completion t)%nat.
Proof.
  intros World DataFrame build_prompt time_time session i query w. cbv zeta.
  destruct (evaluate_question_run build_prompt time_time session i query w [])
    as (r & w' & d & E & H).
  unfold Agent.trace_of, Agent.run_from. rewrite E. cbn [snd app].
  apply (question_run_counts _ _ _ _ _ _ H).
Qed.

(** ** The report of the evaluation *)

Section ReportFacts.

Variable float_sum : list float -> float.

Lemma count_successful_le results :
  (Evaluate.count_successful results <= length results)%nat.
Proof. unfold Evaluate.count_successful. apply filter_length_le. Qed.

Lemma failed_count results :
  length (filter (fun r => negb (Evaluate.success r)) results)
  = (length results - Evaluate.count_successful results)%nat.
Proof.
  unfold Evaluate.count_successful.
  induction results as [|r results IH]; [reflexivity|].
  cbn [filter]. pose proof (filter_length_le Evaluate.success results) as Hle.
  destruct (Evaluate.success r); cbn [negb length]; rewrite IH; lia.
Qed.

Definition level_total (entry : string * Evaluate.DifficultyMetrics) : nat :=
  Evaluate.total (snd entry).

Lemma difficulty_metrics_total results level :
  list_sum (map level_total (Evaluate.difficulty_metrics float_sum results level))
  = length (filter (fun r => String.eqb (Evaluate.difficulty r) level) results).
Proof.
  unfold Evaluate.difficulty_metrics. cbv zeta.
  destruct (filter _ results) as [|r rs]; [reflexivity|].
  cbn [is_nil map level_total snd Evaluate.total]. unfold list_sum. cbn [fold_right]. lia.
Qed.

Lemma difficulty_metrics_entries results level :
  Forall (fun entry =>
            fst entry = level
            /\ (1 <= Evaluate.total (snd entry))%nat
            /\ (Evaluate.successful (snd entry) + Evaluate.failed (snd entry)
                = Evaluate.total (snd entry))%nat)
         (Evaluate.difficulty_metrics float_sum results level).
Proof.
  unfold Evaluate.difficulty_metrics. cbv zeta.
  destruct (filter _ results) as [|r rs] eqn:E; [constructor|].
  cbn [is_nil]. constructor; [|constructor].
  cbn [fst snd Evaluate.total Evaluate.successful Evaluate.failed].
  pose proof (count_successful_le (r :: rs)). cbn [length] in *. repeat split; lia.
Qed.

(** The results of the three levels are disjoint parts of the results. *)
Lemma levels_partition results :
  (length (filter (fun r => String.eqb (Evaluate.difficulty r) "easy") results)
   + length (filter (fun r => String.eqb (Evaluate.difficulty r) "medium") results)
   + length (filter (fun r => String.eqb (Evaluate.difficulty r) "hard") results)
   + length (filter (fun r => negb (mem (Evaluate.difficulty r) Evaluate.DIFFICULTIES))
                    results)
   = length results)%nat.
Proof.
  unfold mem, Evaluate.DIFFICULTIES. cbn [existsb].
  induction results as [|r results IH]; [reflexivity|].
  cbn [filter].
  destruct (String.eqb_spec (Evaluate.difficulty r) "easy") as [E|_];
    [rewrite ?E; cbn; lia|].
  destruct (String.eqb_spec (Evaluate.difficulty r) "medium") as [E|_];
    [rewrite ?E; cbn; lia|].
  destruct (String.eqb_spec (Evaluate.difficulty r) "hard") as [E|_];
    [rewrite ?E; cbn; lia|].
  cbn. lia.
Qed.

End ReportFacts.

(** X23.  The report adds up.  In the metrics computed from any list of
    results, the successful and the failed questions make up the total,
    there is one failed-query entry for every failed question, every
    level listed has at least one question and its successes and
    failures make up its total, and the totals of the levels together
    are the number of results whose difficulty is [easy], [medium] or
    [hard]: a result with another difficulty is counted in the total and
    in no level. *)
Theorem report_adds_up :
  forall (float_sum : list float -> float) (results : list Evaluate.Result),
    let metrics := Evaluate.calculate_metrics float_sum results in
    Evaluate.total_questions metrics = length results
    /\ (Evaluate.successful_questions metrics + Evaluate.failed_questions metrics
        = Evaluate.total_questions metrics)%nat
    /\ length (Evaluate.failed_queries metrics) = Evaluate.failed_questions metrics
    /\ Forall (fun entry =>
                 In (fst entry) Evaluate.DIFFICULTIES
                 /\ (1 <= Evaluate.total (snd entry))%nat
                 /\ (Evaluate.successful (snd entry) + Evaluate.failed (snd entry)
                     = Evaluate.total (snd entry))%nat)
              (Evaluate.by_difficulty metrics)
    /\ (list_sum (map level_total (Evaluate.by_difficulty metrics))
        + length (filter (fun r => negb (mem (Evaluate.difficulty r) Evaluate.DIFFICULTIES))
                         results)
        = length results)%nat.
Proof.
  intros float_sum results. cbv zeta.
  unfold Evaluate.calculate_metrics. cbv zeta.
  cbn [Evaluate.total_questions Evaluate.successful_questions Evaluate.failed_questions
       Evaluate.failed_queries Evaluate.by_difficulty].
  pose proof (count_successful_le results) as Hle.
  split; [reflexivity|]. split; [lia|]. split; [rewrite length_map; apply failed_count|].
  split.
  - unfold Evaluate.DIFFICULTIES. cbn [flat_map]. rewrite app_nil_r.
    repeat (apply Forall_app; split);
      (eapply Forall_impl; [|apply difficulty_metrics_entries]);
      intros entry (-> & H1 & H2); (split; [cbn; tauto|now split]).
  - unfold Evaluate.DIFFICULTIES at 1. cbn [flat_map]. rewrite app_nil_r.
    rewrite !map_app, !list_sum_app, !difficulty_metrics_total.
    pose proof (levels_partition results). lia.
Qed.

(** * Automatic charts *)

Module VizFacts.

Import Viz.

(** The class [_detect_column_types] puts a column in. *)
Definition plottable (col : Series) : bool :=
  negb (is_datetime64_any_dtype col) && is_numeric_dtype col.

Definition other (col : Series) : bool :=
  negb (is_datetime64_any_dtype col) && negb (is_numeric_dtype col).

Definition labels (p : Series -> bool) (l : list Series) : list string :=
  map label (filter p l).

Lemma detect_fold l :
  forall acc,
    fold_left
      (fun column_types col =>
         if is_datetime64_any_dtype col then
           {| datetime := (datetime column_types ++ [label col])%list;
              numeric := numeric column_types;
              categorical := categorical column_types |}
         else if is_numeric_dtype col then
           {| datetime := datetime column_types;
              numeric := (numeric column_types ++ [label col])%list;
              categorical := categorical column_types |}
         else
           {| datetime := datetime column_types;
              numeric := numeric column_types;
              categorical := (categorical column_types ++ [label col])%list |})
      l acc
    = {| datetime := (datetime acc ++ labels is_datetime64_any_dtype l)%list;
         numeric := (numeric acc ++ labels plottable l)%list;
         categorical := (categorical acc ++ labels other l)%list |}.
Proof.
  unfold labels, plottable, other.
  induction l as [|col l IH]; intros [d n c]; cbn [fold_left filter map datetime numeric categorical].
  - now rewrite !app_nil_r.
  - rewrite IH. cbn [datetime numeric categorical].
    destruct (is_datetime64_any_dtype col), (is_numeric_dtype col);
      cbn [negb andb map datetime numeric categorical]; now rewrite <- ?app_assoc.
Qed.

Lemma _detect_column_types_classes df :
  _detect_column_types df
  = {| datetime := labels is_datetime64_any_dtype (series df);
       numeric := labels plottable (series df);
       categorical := labels other (series df) |}.
Proof. unfold _detect_column_types. now rewrite detect_fold. Qed.

(** The frame that is charted: the first 500 rows. *)
Definition charted (df : Frame) : Frame :=
  if (MAX_CHART_ROWS <? index_length df)%nat then head MAX_CHART_ROWS df else df.

Lemma labels_head p n df :
  (forall col cut, p {| label := label col;
                        is_datetime64_any_dtype := is_datetime64_any_dtype col;
                        is_numeric_dtype := is_numeric_dtype col;
                        cells := cut |} = p col) ->
  labels p (series (head n df)) = labels p (series df).
Proof.
  intros Hp. unfold labels, head. cbn [series].
  induction (series df) as [|col l IH]; [reflexivity|].
  cbn [map filter]. rewrite Hp. destruct (p col); cbn [map label]; now rewrite IH.
Qed.

Lemma labels_charted p df :
  (forall col cut, p {| label := label col;
                        is_datetime64_any_dtype := is_datetime64_any_dtype col;
                        is_numeric_dtype := is_numeric_dtype col;
                        cells := cut |} = p col) ->
  labels p (series (charted df)) = labels p (series df).
Proof.
  intros Hp. unfold charted. destruct (_ <? _)%nat; [now apply labels_head|reflexivity].
Qed.

Lemma charted_rows df : (index_length (charted df) <= MAX_CHART_ROWS)%nat.
Proof.
  unfold charted. destruct (MAX_CHART_ROWS <? index_length df)%nat eqn:E.
  - cbn [head index_length]. apply Nat.le_min_l.
  - now apply Nat.ltb_ge in E.
Qed.

Lemma classes_partition l :
  (length (labels is_datetime64_any_dtype l) + length (labels plottable l)
   + length (labels other l) = length l)%nat.
Proof.
  unfold labels, plottable, other. induction l as [|col l IH]; [reflexivity|].
  cbn [filter]. destruct (is_datetime64_any_dtype col), (is_numeric_dtype col);
    cbn [negb andb map length] in *; lia.
Qed.

Lemma labels_none p l : length (labels p l) = 0%nat <-> existsb p l = false.
Proof.
  unfold labels. induction l as [|col l IH]; [now split|].
  cbn [filter existsb]. destruct (p col); cbn [map length orb]; [now split|exact IH].
Qed.

(** X24.  A chart exactly when there is a number to plot.  For a frame
    with distinct labels, at least one row and at least two columns,
    [auto_chart] returns a chart exactly when some column is numeric and
    not a date: the three rules together cover every such frame. *)
Theorem chart_exactly_when_numeric_column :
  forall df : Frame,
    NoDup (map label (series df)) ->
    match auto_chart (Some df) with
    | Some _ => true
    | None => false
    end
    = negb (empty df || (length (series df) <? 2)%nat) && existsb plottable (series df).
Proof.
  intros df _. unfold auto_chart.
  destruct (empty df || (length (series df) <? 2)%nat) eqn:Hsmall; [reflexivity|].
  cbn [negb andb]. cbv zeta. fold (charted df).
  rewrite _detect_column_types_classes. cbn [datetime numeric categorical].
  rewrite !labels_charted by reflexivity.
  apply orb_false_elim in Hsmall. destruct Hsmall as [_ Hlen].
  apply Nat.ltb_ge in Hlen.
  pose proof (classes_partition (series df)) as Hsum.
  pose proof (labels_none plottable (series df)) as Hnone.
  destruct (existsb plottable (series df)).
  - assert (Hn : (1 <= length (labels plottable (series df)))%nat).
    { destruct (length (labels plottable (series df))) eqn:E; [|lia].
      exfalso. destruct Hnone as [Hnone _].
      first [discriminate (Hnone eq_refl)|discriminate (Hnone E)]. }
    apply Nat.leb_le in Hn. rewrite Hn, !andb_true_r.
    destruct (1 <=? length (labels is_datetime64_any_dtype (series df)))%nat eqn:Hd;
      [reflexivity|].
    destruct (1 <=? length (labels other (series df)))%nat eqn:Hc.
    + now destruct (7 <? _)%nat.
    + apply Nat.leb_gt in Hd, Hc.
      assert (H2 : (2 <=? length (labels plottable (series df)))%nat = true)
        by (apply Nat.leb_le; lia).
      now rewrite H2.
  - destruct Hnone as [_ Hnone]. rewrite (Hnone eq_refl). cbn [Nat.leb].
    now rewrite !andb_false_r.
Qed.

Lemma chart_exactly_when_numeric_column_witness :
  let column name numeric values :=
    {| label := name; is_datetime64_any_dtype := false; is_numeric_dtype := numeric;
       cells := values |} in
  let names :=
    {| index_length := 1;
       series := [ column "CITY" false [Some "Recife"]; column "STATE" false [Some "PE"] ] |} in
  let counts :=
    {| index_length := 1;
       series := [ column "ORDERS" true [Some "3"]; column "ITEMS" true [Some "5"] ] |} in
  NoDup (map label (series names))
  /\ auto_chart (Some names) = None
  /\ match auto_chart (Some counts) with Some _ => true | None => false end
     = negb (empty counts || (length (series counts) <? 2)%nat)
       && existsb plottable (series counts).
Proof.
  intros column names counts.
  split; [repeat constructor; cbn; intuition discriminate|]. split; [reflexivity|].
  apply (chart_exactly_when_numeric_column counts).
  repeat constructor; cbn; intuition discriminate.
Defined.

Lemma labels_In p l name :
  In name (labels p l) <-> exists col, In col l /\ label col = name /\ p col = true.
Proof.
  unfold labels. rewrite in_map_iff. split.
  - intros (col & E & H). apply filter_In in H. destruct H. eauto.
  - intros (col & H & E & Hp). exists col. split; [exact E|]. apply filter_In. now split.
Qed.

Lemma labels_incl p l name : In name (labels p l) -> In name (map label l).
Proof.
  intros H. apply labels_In in H. destruct H as (col & H & <- & _). now apply in_map.
Qed.

Lemma NoDup_map_eq {A B} (f : A -> B) l a b :
  NoDup (map f l) -> In a l -> In b l -> f a = f b -> a = b.
Proof.
  induction l as [|c l IH]; intros Hnd Ha Hb E; [destruct Ha|].
  cbn [map] in Hnd. inversion Hnd as [|? ? Hc Hl]; subst.
  destruct Ha as [->|Ha], Hb as [->|Hb]; auto.
  - exfalso. apply Hc. rewrite E. now apply in_map.
  - exfalso. apply Hc. rewrite <- E. now apply in_map.
Qed.

(** With distinct labels a label is in one class only. *)
Lemma classes_disjoint p q l name :
  NoDup (map label l) ->
  (forall col, p col = true -> q col = false) ->
  In name (labels p l) -> In name (labels q l) -> False.
Proof.
  intros Hnd Hpq Hp Hq. apply labels_In in Hp, Hq.
  destruct Hp as (a & Ha & Ea & Pa), Hq as (b & Hb & Eb & Qb).
  assert (a = b) by (apply (NoDup_map_eq label l); congruence).
  subst b. rewrite (Hpq a Pa) in Qb. discriminate.
Qed.

Lemma first_In l : (1 <= length l)%nat -> In (first l) l.
Proof. destruct l; simpl; [lia|auto]. Qed.

Lemma final_In l : (1 <= length l)%nat -> In (final l) l.
Proof.
  unfold final. induction l as [|a l IH]; simpl; [lia|]. intros _.
  destruct l as [|b l]; [now left|]. right. apply IH. simpl. lia.
Qed.

Lemma first_filter_In (p : string -> bool) l :
  is_nil (filter p l) = false -> In (first (filter p l)) l.
Proof.
  intros H. assert (Hin : In (first (filter p l)) (filter p l)).
  { apply first_In. destruct (filter p l); [discriminate|simpl; lia]. }
  now apply filter_In in Hin.
Qed.

Lemma second_In l :
  (2 <= length l)%nat -> NoDup l -> In (nth 1 l "") l /\ first l <> nth 1 l "".
Proof.
  destruct l as [|a [|b l]]; simpl; try lia. intros _ H.
  inversion H as [|? ? Ha _]; subst. split; [auto|].
  intros ->. apply Ha. now left.
Qed.

(** X25.  A chart plots two different columns of the frame.  When the
    labels of the frame are distinct and [auto_chart] returns a chart,
    both axes are labels of the frame, they are not the same column,
    at least one of them is a numeric column, the tooltip lists the two
    of them, and the data handed to the chart has at most 500 rows. *)
Theorem chart_plots_two_columns :
  forall (df : Frame) (chart : Chart),
    NoDup (map label (series df)) ->
    auto_chart (Some df) = Some chart ->
    In (x chart) (map label (series df))
    /\ In (y chart) (map label (series df))
    /\ x chart <> y chart
    /\ (In (x chart) (labels plottable (series df))
        \/ In (y chart) (labels plottable (series df)))
    /\ (forall name, In name (tooltip chart) <-> name = x chart \/ name = y chart)
    /\ (index_length (data chart) <= 500)%nat.
Proof.
  intros df chart Hnd E. unfold auto_chart in E.
  destruct (empty df || (length (series df) <? 2)%nat); [discriminate|].
  cbv zeta in E. fold (charted df) in E.
  rewrite _detect_column_types_classes in E. cbn [datetime numeric categorical] in E.
  rewrite !labels_charted in E by reflexivity.
  set (D := labels is_datetime64_any_dtype (series df)) in *.
  set (N := labels plottable (series df)) in *.
  set (C := labels other (series df)) in *.
  assert (DN : forall a b, In a D -> In b N -> a <> b).
  { intros a b Ha Hb ->.
    apply (classes_disjoint plottable is_datetime64_any_dtype (series df) b); auto.
    intros col H. unfold plottable in H. apply andb_prop in H. destruct H as [H _].
    now apply negb_true_iff in H. }
  assert (CN : forall a b, In a C -> In b N -> a <> b).
  { intros a b Ha Hb ->.
    apply (classes_disjoint plottable other (series df) b); auto.
    intros col H. unfold plottable, other in *. apply andb_prop in H. destruct H as [_ H].
    now rewrite H, andb_false_r. }
  assert (Hrows : (index_length (charted df) <= 500)%nat) by apply charted_rows.
  assert (Hin : forall p name, In name (labels p (series df)) -> In name (map label (series df)))
    by (intros p name; apply labels_incl).
  destruct ((1 <=? length D)%nat && (1 <=? length N)%nat) eqn:R1.
  { apply andb_prop in R1. destruct R1 as [Hd Hn]. apply Nat.leb_le in Hd, Hn.
    injection E as <-. cbn [x y tooltip data].
    pose proof (first_In D Hd) as HD. pose proof (first_In N Hn) as HN.
    repeat split; eauto; try (cbn; intuition congruence). }
  destruct ((1 <=? length C)%nat && (1 <=? length N)%nat) eqn:R2.
  { apply andb_prop in R2. destruct R2 as [Hc Hn]. apply Nat.leb_le in Hc, Hn.
    match type of E with
    | context [if is_nil ?agg then final N else first ?agg] =>
        assert (HN : In (if is_nil agg then final N else first agg) N)
          by (destruct (is_nil agg) eqn:Ea; [now apply final_In|now apply first_filter_In]);
          set (numeric_col := if is_nil agg then final N else first agg) in *
    end.
    match type of E with
    | context [if is_nil ?cats then first C else first ?cats] =>
        assert (HC : In (if is_nil cats then first C else first cats) C)
          by (destruct (is_nil cats) eqn:Ec; [now apply first_In|now apply first_filter_In]);
          set (cat_col := if is_nil cats then first C else first cats) in *
    end.
    pose proof (CN cat_col numeric_col HC HN) as Hne.
    destruct (7 <? _)%nat; injection E as <-; cbn [x y tooltip data];
      repeat split; eauto; try (cbn; intuition congruence). }
  destruct (2 <=? length N)%nat eqn:R3; [|discriminate].
  apply Nat.leb_le in R3.
  assert (HNd : NoDup N) by (unfold N, labels; now apply NoDup_map_filter).
  destruct (second_In N R3 HNd) as [H2 Hne].
  assert (H1 : In (first N) N) by (apply first_In; lia).
  injection E as <-. cbn [x y tooltip data].
  repeat split; eauto; try (cbn; intuition congruence).
Qed.

Lemma chart_plots_two_columns_witness :
  let column name datetime numeric values :=
    {| label := name; is_datetime64_any_dtype := datetime; is_numeric_dtype := numeric;
       cells := values |} in
  let df :=
    {| index_length := 2;
       series := [ column "CUSTOMER_ID" false false [Some "a"; Some "b"];
                   column "CITY" false false [Some "Recife"; Some "Natal"];
                   column "ORDER_COUNT" false true [Some "3"; Some "5"];
                   column "FREIGHT" false true [Some "1.5"; Some "2.5"] ] |} in
  let chart :=
    {| data := df; mark := mark_bar; x := "CITY"; y := "ORDER_COUNT";
       y_sorted_by_x := false; tooltip := ["CITY"; "ORDER_COUNT"];
       title := "ORDER_COUNT by CITY" |} in
  NoDup (map label (series df))
  /\ auto_chart (Some df) = Some chart
  /\ In (x chart) (map label (series df))
  /\ In (y chart) (map label (series df))
  /\ x chart <> y chart
  /\ (In (x chart) (labels plottable (series df))
      \/ In (y chart) (labels plottable (series df)))
  /\ (forall name, In name (tooltip chart) <-> name = x chart \/ name = y chart)
  /\ (index_length (data chart) <= 500)%nat.
Proof.
  intros column df chart.
  assert (Hnd : NoDup (map label (series df))).
  { repeat constructor; cbn; intuition discriminate. }
  split; [exact Hnd|]. split; [reflexivity|].
  apply (chart_plots_two_columns df chart Hnd). reflexivity.
Defined.

End VizFacts.

(** * Cleaning: a semicolon before whitespace *)

Definition visible (c : ascii) : bool := negb (is_space c).

Lemma space_is_no_tick c : is_space c = true -> not_tick c = true.
Proof. destruct c as [[] [] [] [] [] [] [] []]; intros H; try reflexivity; discriminate H. Qed.

Lemma space_is_no_semicolon c : is_space c = true -> in_chars ";" c = false.
Proof. destruct c as [[] [] [] [] [] [] [] []]; intros H; try reflexivity; discriminate H. Qed.

Lemma hspace_is_space c : is_hspace c = true -> is_space c = true.
Proof.
  unfold is_hspace. intros H. apply orb_prop in H.
  destruct H as [H|H]; apply Ascii.eqb_eq in H; now subst.
Qed.

Lemma visible_is_no_hspace c : visible c = true -> is_hspace c = false.
Proof.
  unfold visible. intros H. apply negb_true_iff in H.
  destruct (is_hspace c) eqn:E; [|reflexivity]. now rewrite (hspace_is_space c E) in H.
Qed.

Lemma visible_is_no_tab c : visible c = true -> Ascii.eqb c tab = false.
Proof.
  intros H. apply visible_is_no_hspace in H. unfold is_hspace in H.
  now apply orb_false_elim in H.
Qed.

Lemma all_chars_impl (p q : ascii -> bool) s :
  (forall c, p c = true -> q c = true) -> all_chars p s = true -> all_chars q s = true.
Proof.
  intros Hpq. induction s as [|c r IH]; [reflexivity|].
  cbn [all_chars]. intros H. apply andb_prop in H. destruct H as [Hc Hr].
  now rewrite (Hpq c Hc), IH.
Qed.

Lemma collapsed_visible b : all_chars visible b = true -> collapsed b = true.
Proof.
  induction b as [|c r IH]; [reflexivity|].
  cbn [all_chars]. intros H. apply andb_prop in H. destruct H as [Hc Hr].
  rewrite collapsed_cons, (visible_is_no_tab c Hc), (visible_is_no_hspace c Hc), (IH Hr).
  reflexivity.
Qed.

Lemma head_is_visible b : all_chars visible b = true -> head_is is_hspace b = false.
Proof.
  destruct b as [|c r]; [reflexivity|]. cbn [all_chars head_is]. intros H.
  apply andb_prop in H. destruct H as [Hc _]. now apply visible_is_no_hspace.
Qed.

Lemma collapsed_terminated a b :
  all_chars visible b = true -> collapsed a = true -> collapsed (a ++ b) = true.
Proof.
  intros Hb. induction a as [|c r IH]; [intros _; now apply collapsed_visible|].
  change (String c r ++ b) with (String c (r ++ b)). rewrite !collapsed_cons.
  intros H. apply andb_prop in H. destruct H as [H H3].
  apply andb_prop in H. destruct H as [H1 H2].
  rewrite H1, (IH H3), andb_true_r. cbn [andb].
  destruct r as [|c' r']; [|exact H2].
  cbn [append]. now rewrite (head_is_visible b Hb), andb_false_r.
Qed.

Lemma ws_then_nl_visible r b :
  all_chars visible b = true -> ws_then_nl r = None -> ws_then_nl (r ++ b) = None.
Proof.
  intros Hb. induction r as [|c r IH].
  - intros _. destruct b as [|c b]; [reflexivity|].
    cbn [all_chars] in Hb. apply andb_prop in Hb. destruct Hb as [Hc _].
    unfold visible in Hc. apply negb_true_iff in Hc.
    cbn [append]. rewrite ws_then_nl_cons. now rewrite Hc.
  - change (String c r ++ b) with (String c (r ++ b)). rewrite !ws_then_nl_cons.
    destruct (is_space c); [|reflexivity].
    destruct (ws_then_nl r); [discriminate|]. now rewrite IH.
Qed.

Lemma m_blank_lines_visible b : all_chars visible b = true -> matches_nowhere m_blank_lines b = true.
Proof.
  induction b as [|c r IH]; [reflexivity|].
  cbn [all_chars]. intros H. apply andb_prop in H. destruct H as [Hc Hr].
  rewrite matches_nowhere_cons, m_blank_lines_cons.
  assert (E : Ascii.eqb c nl = false).
  { destruct (Ascii.eqb c nl) eqn:E; [|reflexivity].
    apply Ascii.eqb_eq in E. subst c. discriminate Hc. }
  rewrite E. now apply IH.
Qed.

Lemma blank_free_terminated a b :
  all_chars visible b = true ->
  matches_nowhere m_blank_lines a = true ->
  matches_nowhere m_blank_lines (a ++ b) = true.
Proof.
  intros Hb. induction a as [|c r IH]; [intros _; now apply m_blank_lines_visible|].
  change (String c r ++ b) with (String c (r ++ b)).
  rewrite !matches_nowhere_cons, !m_blank_lines_cons.
  destruct (Ascii.eqb c nl); [|exact IH].
  destruct (ws_then_nl r) eqn:E; [discriminate|].
  rewrite (ws_then_nl_visible r b Hb E). exact IH.
Qed.

Lemma lstrip_by_kept p s rest :
  lstrip_by p s = s -> s <> "" -> lstrip_by p (s ++ rest) = s ++ rest.
Proof.
  intros H Hne. destruct s as [|c r]; [contradiction|].
  pose proof (lstrip_by_head p (String c r)) as Hh. rewrite H in Hh.
  change (String c r ++ rest) with (String c (r ++ rest)). cbn [lstrip_by]. now rewrite Hh.
Qed.

(** X26.  A semicolon followed by whitespace stays.  The trailing
    semicolons are stripped before the text is trimmed, so they go only
    when they are the very last characters.  For a statement followed by
    any number of semicolons and then by whitespace (a newline after the
    semicolon, say), the cleaning returns the statement with its
    semicolons. *)
Theorem clean_sql_keeps_semicolon_before_whitespace :
  forall (sql : string) (n : nat) (ws : string),
    statement sql ->
    ws <> "" ->
    all_chars is_space ws = true ->
    _clean_sql (sql ++ semicolons n ++ ws) = sql ++ semicolons n.
Proof.
  intros sql n ws (Hne & Htick & Hsemi & Hcollapsed & Hblank & Hstrip) Hws_ne Hws.
  apply no_tick_chars in Htick.
  set (body := sql ++ semicolons n).
  replace (sql ++ semicolons n ++ ws) with (body ++ ws)
    by (unfold body; now rewrite append_assoc).
  assert (Hbody_ne : body <> "") by (unfold body; destruct sql; [contradiction|discriminate]).
  assert (Hend : rstrip_by is_space body = body) by now apply rstrip_terminated.
  assert (Hstart : lstrip_by is_space body = body).
  { unfold body. rewrite lstrip_by_app; [now rewrite (strip_fixed_start sql Hstrip)|].
    destruct n; reflexivity. }
  rewrite _clean_sql_scan. unfold clean_scan.
  replace (is_empty (body ++ ws)) with false by (now destruct body).
  assert (Hfence : contains fence (body ++ ws) = false).
  { apply no_tick_no_fence. unfold body.
    rewrite !all_chars_app, Htick, semicolons_no_tick.
    apply (all_chars_impl is_space); [apply space_is_no_tick|exact Hws]. }
  rewrite (re_sub_no_match m_fence_marker) by now apply no_fence_matches_nowhere.
  assert (Hkeep : rstrip_chars ";" (body ++ ws) = body ++ ws).
  { unfold rstrip_chars.
    assert (E : rstrip_by (in_chars ";") ws = ws).
    { apply rstrip_by_none. apply (all_chars_impl is_space); [|exact Hws].
      intros c Hc. now rewrite (space_is_no_semicolon c Hc). }
    rewrite rstrip_by_app; rewrite E; [reflexivity|exact Hws_ne]. }
  rewrite Hkeep.
  assert (Htrim : strip (body ++ ws) = body).
  { unfold strip. rewrite (lstrip_by_kept _ _ _ Hstart Hbody_ne).
    now rewrite (rstrip_by_app_all _ _ _ Hws). }
  rewrite Htrim.
  rewrite collapsed_fixed
    by (unfold body; apply collapsed_terminated; [apply semicolons_visible|exact Hcollapsed]).
  rewrite re_sub_no_match
    by (unfold body; apply blank_free_terminated; [apply semicolons_visible|exact Hblank]).
  unfold strip. now rewrite Hstart.
Qed.

Lemma clean_sql_keeps_semicolon_before_whitespace_witness :
  statement "SELECT 1"
  /\ _clean_sql ("SELECT 1;" ++ str_of nl) = "SELECT 1;"
  /\ _clean_sql "SELECT 1;" = "SELECT 1".
Proof.
  assert (Hs : statement "SELECT 1") by (repeat split; discriminate).
  split; [exact Hs|]. split; [|reflexivity].
  apply (clean_sql_keeps_semicolon_before_whitespace "SELECT 1" 1 (str_of nl) Hs);
    [discriminate|reflexivity].
Defined.

(** * The schema section of the prompt *)







